(** * getenv: reading an environment variable out of a running process

    A shallow embedding of [getenv.c].  The controller's C functions
    ([find_library], [poke_text], [do_wait], [singlestep], [check_yama],
    [compute_jmp], [getenv_process], [main]) are state-passing programs of
    a small monad over a [world]: the traced process (registers and
    memory), the log of kernel requests issued so far, and the two output
    streams.  Whatever the program cannot decide itself (which kernel
    request fails, what the target does while it runs, the contents of
    [/proc/<pid>/maps], uninitialised stack and heap bytes) is read from
    an [oracle]. *)

From Stdlib Require Import ZArith List Lia Bool String Ascii.
Import ListNotations.
Open Scope string_scope.
Open Scope list_scope.
Open Scope Z_scope.

(** ** Machine integers and byte buffers *)

(** The native word: [unsigned long], [size_t], pointers. *)
Definition wrap64 (z : Z) : Z := z mod 2 ^ 64.
(** [uint32_t]. *)
Definition wrap32 (z : Z) : Z := z mod 2 ^ 32.
(** Reading a 64-bit pattern as [long] / [int64_t]. *)
Definition signed64 (z : Z) : Z :=
  let u := wrap64 z in if u <? 2 ^ 63 then u else u - 2 ^ 64.

Definition INT_MIN : Z := - 2 ^ 31.
Definition INT_MAX : Z := 2 ^ 31 - 1.
Definition LONG_MIN : Z := - 2 ^ 63.
Definition LONG_MAX : Z := 2 ^ 63 - 1.
Definition PAGE_SIZE : Z := 4096.
Definition SIGTRAP : Z := 5.

(** A byte is a [Z] in [0, 256); a buffer is a list of bytes. *)
Definition byte_at (k : Z) (z : Z) : Z := (z / 2 ^ (8 * k)) mod 256.

(** The [n] low bytes of [z], least significant first (x86_64 is
    little-endian). *)
Fixpoint le_bytes (n : nat) (z : Z) : list Z :=
  match n with
  | O => []
  | S n' => z mod 256 :: le_bytes n' (z / 256)
  end.

(** The integer a little-endian byte sequence denotes. *)
Fixpoint le_word (bs : list Z) : Z :=
  match bs with
  | [] => 0
  | b :: bs' => b + 256 * le_word bs'
  end.

(** [buf[i]], reading 0 past the end of the list. *)
Definition buf_get (buf : list Z) (i : Z) : Z :=
  if i <? 0 then 0 else nth (Z.to_nat i) buf 0.

(** [memmove(&x, buf + off, n)]: the [n] bytes of [buf] from [off]. *)
Definition buf_read (buf : list Z) (off : Z) (n : nat) : list Z :=
  map (fun k => buf_get buf (off + Z.of_nat k)) (seq 0 n).

(** [memmove(buf + off, src, length src)]. *)
Definition buf_write (buf : list Z) (off : Z) (src : list Z) : list Z :=
  let o := Z.to_nat off in
  firstn o buf ++ src ++ skipn (o + List.length src) buf.

(** The C string a buffer holds: the bytes before the first NUL, or
    [None] when the buffer holds no NUL at all. *)
Fixpoint cstring (buf : list Z) : option (list Z) :=
  match buf with
  | [] => None
  | b :: rest =>
      if b =? 0 then Some []
      else match cstring rest with
           | Some s => Some (b :: s)
           | None => None
           end
  end.

(** Character codes of a literal. *)
Fixpoint bytes (s : string) : list Z :=
  match s with
  | EmptyString => []
  | String c s' => Z.of_N (N_of_ascii c) :: bytes s'
  end.

(** ** The C library routines the program calls on strings *)

Fixpoint prefixb (p s : list Z) : bool :=
  match p, s with
  | [], _ => true
  | _ :: _, [] => false
  | a :: p', b :: s' => (a =? b) && prefixb p' s'
  end.

(** [strstr(hay, needle)]: the offset of the first occurrence of
    [needle] in [hay], [None] for a null result. *)
Fixpoint strstr (hay needle : list Z) : option nat :=
  if prefixb needle hay then Some O
  else match hay with
       | [] => None
       | _ :: hay' => option_map S (strstr hay' needle)
       end.

Definition isspace (c : Z) : bool :=
  (c =? 32) || ((9 <=? c) && (c <=? 13)).

(** Value of [c] as a digit, for bases up to 36. *)
Definition digit_value (c : Z) : option Z :=
  if (48 <=? c) && (c <=? 57) then Some (c - 48)
  else if (97 <=? c) && (c <=? 122) then Some (c - 97 + 10)
  else if (65 <=? c) && (c <=? 90) then Some (c - 65 + 10)
  else None.

Fixpoint skip_space (s : list Z) : list Z :=
  match s with
  | c :: s' => if isspace c then skip_space s' else s
  | [] => []
  end.

(** The digits of [s] in [base], accumulated without bound. *)
Fixpoint strtol_digits (base : Z) (s : list Z) (acc : Z) : Z :=
  match s with
  | c :: s' =>
      match digit_value c with
      | Some d => if d <? base then strtol_digits base s' (acc * base + d)
                  else acc
      | None => acc
      end
  | [] => acc
  end.

Definition is_digit_in (base c : Z) : bool :=
  match digit_value c with Some d => d <? base | None => false end.

(** An optional sign. *)
Definition strtol_sign (s : list Z) : bool * list Z :=
  match s with
  | c :: r => if c =? 45 then (true, r)
              else if c =? 43 then (false, r)
              else (false, s)
  | [] => (false, s)
  end.

(** In base 16, an optional [0x] or [0X] before the first digit. *)
Definition strtol_prefix (base : Z) (s : list Z) : list Z :=
  match s with
  | z :: x :: d :: r =>
      if (base =? 16) && (z =? 48) && ((x =? 120) || (x =? 88))
         && is_digit_in 16 d
      then d :: r else s
  | _ => s
  end.

(** [strtol(s, NULL, base)] for base 10 and 16: the value, clamped to
    the range of [long], and whether [errno] was set to [ERANGE]. *)
Definition strtol (s : list Z) (base : Z) : Z * bool :=
  let '(neg, s2) := strtol_sign (skip_space s) in
  let v := strtol_digits base (strtol_prefix base s2) 0 in
  let v := if neg then - v else v in
  if v <? LONG_MIN then (LONG_MIN, true)
  else if LONG_MAX <? v then (LONG_MAX, true)
  else (v, false).
(** ** The traced process *)

(** [struct user_regs_struct] of [<sys/user.h>] on x86_64: the
    general-purpose register file, every field an [unsigned long long]. *)
Record user_regs_struct : Type := mk_regs {
  r15 : Z;
  r14 : Z;
  r13 : Z;
  r12 : Z;
  rbp : Z;
  rbx : Z;
  r11 : Z;
  r10 : Z;
  r9 : Z;
  r8 : Z;
  rax : Z;
  rcx : Z;
  rdx : Z;
  rsi : Z;
  rdi : Z;
  orig_rax : Z;
  rip : Z;
  cs : Z;
  eflags : Z;
  rsp : Z;
  ss : Z;
  fs_base : Z;
  gs_base : Z;
  ds : Z;
  es : Z;
  fs : Z;
  gs : Z
}.

(** Assignments to single fields of the structure. *)
Definition set_rax (v : Z) (r : user_regs_struct) : user_regs_struct :=
  mk_regs (r15 r) (r14 r) (r13 r) (r12 r) (rbp r) (rbx r) (r11 r) (r10 r)
    (r9 r) (r8 r) v (rcx r) (rdx r) (rsi r) (rdi r) (orig_rax r) (rip r)
    (cs r) (eflags r) (rsp r) (ss r) (fs_base r) (gs_base r) (ds r) (es r)
    (fs r) (gs r).
Definition set_rdi (v : Z) (r : user_regs_struct) : user_regs_struct :=
  mk_regs (r15 r) (r14 r) (r13 r) (r12 r) (rbp r) (rbx r) (r11 r) (r10 r)
    (r9 r) (r8 r) (rax r) (rcx r) (rdx r) (rsi r) v (orig_rax r) (rip r)
    (cs r) (eflags r) (rsp r) (ss r) (fs_base r) (gs_base r) (ds r) (es r)
    (fs r) (gs r).
Definition set_rsi (v : Z) (r : user_regs_struct) : user_regs_struct :=
  mk_regs (r15 r) (r14 r) (r13 r) (r12 r) (rbp r) (rbx r) (r11 r) (r10 r)
    (r9 r) (r8 r) (rax r) (rcx r) (rdx r) v (rdi r) (orig_rax r) (rip r)
    (cs r) (eflags r) (rsp r) (ss r) (fs_base r) (gs_base r) (ds r) (es r)
    (fs r) (gs r).
Definition set_rdx (v : Z) (r : user_regs_struct) : user_regs_struct :=
  mk_regs (r15 r) (r14 r) (r13 r) (r12 r) (rbp r) (rbx r) (r11 r) (r10 r)
    (r9 r) (r8 r) (rax r) (rcx r) v (rsi r) (rdi r) (orig_rax r) (rip r)
    (cs r) (eflags r) (rsp r) (ss r) (fs_base r) (gs_base r) (ds r) (es r)
    (fs r) (gs r).
Definition set_r10 (v : Z) (r : user_regs_struct) : user_regs_struct :=
  mk_regs (r15 r) (r14 r) (r13 r) (r12 r) (rbp r) (rbx r) (r11 r) v (r9 r)
    (r8 r) (rax r) (rcx r) (rdx r) (rsi r) (rdi r) (orig_rax r) (rip r)
    (cs r) (eflags r) (rsp r) (ss r) (fs_base r) (gs_base r) (ds r) (es r)
    (fs r) (gs r).
Definition set_r8 (v : Z) (r : user_regs_struct) : user_regs_struct :=
  mk_regs (r15 r) (r14 r) (r13 r) (r12 r) (rbp r) (rbx r) (r11 r) (r10 r)
    (r9 r) v (rax r) (rcx r) (rdx r) (rsi r) (rdi r) (orig_rax r) (rip r)
    (cs r) (eflags r) (rsp r) (ss r) (fs_base r) (gs_base r) (ds r) (es r)
    (fs r) (gs r).
Definition set_r9 (v : Z) (r : user_regs_struct) : user_regs_struct :=
  mk_regs (r15 r) (r14 r) (r13 r) (r12 r) (rbp r) (rbx r) (r11 r) (r10 r) v
    (r8 r) (rax r) (rcx r) (rdx r) (rsi r) (rdi r) (orig_rax r) (rip r)
    (cs r) (eflags r) (rsp r) (ss r) (fs_base r) (gs_base r) (ds r) (es r)
    (fs r) (gs r).
Definition set_rcx (v : Z) (r : user_regs_struct) : user_regs_struct :=
  mk_regs (r15 r) (r14 r) (r13 r) (r12 r) (rbp r) (rbx r) (r11 r) (r10 r)
    (r9 r) (r8 r) (rax r) v (rdx r) (rsi r) (rdi r) (orig_rax r) (rip r)
    (cs r) (eflags r) (rsp r) (ss r) (fs_base r) (gs_base r) (ds r) (es r)
    (fs r) (gs r).
Definition set_r11 (v : Z) (r : user_regs_struct) : user_regs_struct :=
  mk_regs (r15 r) (r14 r) (r13 r) (r12 r) (rbp r) (rbx r) v (r10 r) (r9 r)
    (r8 r) (rax r) (rcx r) (rdx r) (rsi r) (rdi r) (orig_rax r) (rip r)
    (cs r) (eflags r) (rsp r) (ss r) (fs_base r) (gs_base r) (ds r) (es r)
    (fs r) (gs r).
Definition set_rip (v : Z) (r : user_regs_struct) : user_regs_struct :=
  mk_regs (r15 r) (r14 r) (r13 r) (r12 r) (rbp r) (rbx r) (r11 r) (r10 r)
    (r9 r) (r8 r) (rax r) (rcx r) (rdx r) (rsi r) (rdi r) (orig_rax r) v
    (cs r) (eflags r) (rsp r) (ss r) (fs_base r) (gs_base r) (ds r) (es r)
    (fs r) (gs r).

(** What [wait] reports about the target. *)
Inductive wstatus : Type :=
| WStopped (sig : Z)
| WSignaled (sig : Z)
| WExited (code : Z).

(** The target between two stops: its registers and its memory, one
    byte per address. *)
Record machine : Type := mk_machine {
  regs : user_regs_struct;
  mem : Z -> Z
}.

(** Eight bytes of memory at [addr], as [PTRACE_PEEKTEXT] returns them. *)
Definition load8 (m : Z -> Z) (addr : Z) : Z :=
  le_word (map (fun k => m (wrap64 (addr + Z.of_nat k)) mod 256) (seq 0 8)).

(** Memory after [PTRACE_POKETEXT] of the word [data] at [addr]. *)
Definition store8 (m : Z -> Z) (addr data : Z) : Z -> Z :=
  fun a => let d := wrap64 (a - addr) in
           if d <? 8 then byte_at d data else m a.

(** Whether address [a] lies in the [len] bytes from [base]. *)
Definition in_range (base len a : Z) : bool := wrap64 (a - base) <? len.

(** A system-call result in the last page of the address space is
    [-errno]. *)
Definition is_errno (v : Z) : bool := 2 ^ 64 - 4095 <=? v.

(** Everything the controller cannot decide. *)
Record oracle : Type := mk_oracle {
  (** whether the kernel request issued at this position of the run fails *)
  fault : nat -> bool;
  (** what the target's kernel returns for the system call the target is
      about to make *)
  syscall_ret : machine -> Z;
  (** one step of the target on any instruction other than the two the
      controller plants *)
  step_other : machine -> machine * wstatus;
  (** the target resumed by [PTRACE_CONT], up to its next stop *)
  run : machine -> machine * wstatus;
  (** the lines of [/proc/<pid>/maps], as [getline] returns them;
      [None] when the file cannot be opened *)
  maps : Z -> option (list (list Z));
  (** [getpid()] *)
  self_pid : Z;
  (** the address of [getenv] in the controller *)
  getenv_local : Z;
  (** uninitialised bytes of the controller's stack frame *)
  stack_junk : Z -> Z;
  (** uninitialised bytes of a fresh [malloc] block *)
  heap_junk : Z -> Z;
  (** contents of [/proc/sys/kernel/yama/ptrace_scope], if it opens *)
  yama_file : option (list Z)
}.

(** One instruction of the target under [PTRACE_SINGLESTEP].  [0f 05] is
    [syscall], which leaves its result in [rax], the return address in
    [rcx] and the flags in [r11]; a successful [mmap] (number 9) yields a
    zero-filled region, [munmap] is number 11.  [ff e0] is [jmp *%rax]. *)
Definition step_machine (o : oracle) (m : machine) : machine * wstatus :=
  let r := regs m in
  let pc := rip r in
  let b0 := mem m pc in
  let b1 := mem m (wrap64 (pc + 1)) in
  if (b0 =? 15) && (b1 =? 5) then
    let next := wrap64 (pc + 2) in
    let res := wrap64 (syscall_ret o m) in
    let r' := set_rip next (set_r11 (eflags r) (set_rcx next (set_rax res r))) in
    if rax r =? 9 then
      let mem' := if is_errno res then mem m
                  else fun a => if in_range res (rsi r) a then 0 else mem m a in
      (mk_machine r' mem', WStopped SIGTRAP)
    else if rax r =? 11 then
      (mk_machine r' (mem m), WStopped SIGTRAP)
    else step_other o m
  else if (b0 =? 255) && (b1 =? 224) then
    (mk_machine (set_rip (rax r) r) (mem m), WStopped SIGTRAP)
  else step_other o m.

(** ** The controller's world *)

(** Requests to the kernel, named after their [ptrace] request codes. *)
Inductive request : Type :=
| PTRACE_ATTACH
| PTRACE_DETACH
| PTRACE_GETREGS
| PTRACE_SETREGS (r : user_regs_struct)
| PTRACE_PEEKTEXT (addr : Z)
| PTRACE_PEEKDATA (addr : Z)
| PTRACE_POKETEXT (addr data : Z)
| PTRACE_SINGLESTEP
| PTRACE_CONT
| WAITPID
| WAIT.

Record world : Type := mk_world {
  (** the traced process *)
  target : machine;
  (** a state change of the target not yet collected by [wait] *)
  pending : option wstatus;
  (** number of kernel requests issued so far *)
  clock : nat;
  (** the requests issued and whether each succeeded, newest first *)
  trace : list (request * bool);
  (** the [(where, len)] of every call of [poke_text], newest first *)
  poke_log : list (Z * Z);
  (** standard output, byte by byte *)
  out : list Z;
  (** standard error, message by message *)
  err : list string
}.

(** How a statement ends. *)
Inductive outcome (A : Type) : Type :=
| Val (a : A)          (** control falls through with a value *)
| Ret (r : Z)          (** [return r;] *)
| Fail                 (** [goto fail;] *)
| Exit (code : Z)      (** [exit(code);] *)
| Diverge              (** the controller never returns *)
| Undefined.           (** behaviour the C standard leaves undefined *)

Arguments Val {A} a.
Arguments Ret {A} r.
Arguments Fail {A}.
Arguments Exit {A} code.
Arguments Diverge {A}.
Arguments Undefined {A}.

Definition M (A : Type) : Type := world -> outcome A * world.

Definition ret {A : Type} (a : A) : M A := fun w => (Val a, w).

Definition bind {A B : Type} (m : M A) (k : A -> M B) : M B :=
  fun w =>
    match m w with
    | (Val a, w') => k a w'
    | (Ret r, w') => (Ret r, w')
    | (Fail, w') => (Fail, w')
    | (Exit c, w') => (Exit c, w')
    | (Diverge, w') => (Diverge, w')
    | (Undefined, w') => (Undefined, w')
    end.

Declare Scope prog_scope.
Delimit Scope prog_scope with prog.
Notation "x <- m ;; k" := (bind m (fun x => k))
  (at level 100, m at next level, right associativity) : prog_scope.
Notation "' p <- m ;; k" := (bind m (fun p => k))
  (at level 100, p pattern, m at next level, right associativity) : prog_scope.
Notation "m ;; k" := (bind m (fun _ => k))
  (at level 100, right associativity) : prog_scope.
Open Scope prog_scope.

Definition return_ {A : Type} (r : Z) : M A := fun w => (Ret r, w).
Definition goto_fail {A : Type} : M A := fun w => (Fail, w).
Definition exit_ {A : Type} (code : Z) : M A := fun w => (Exit code, w).
Definition diverge {A : Type} : M A := fun w => (Diverge, w).
Definition undefined {A : Type} : M A := fun w => (Undefined, w).

(** A function call: the callee's [return r] is the caller's value. *)
Definition call (body : M Z) : M Z :=
  fun w =>
    match body w with
    | (Ret r, w') => (Val r, w')
    | other => other
    end.

(** A body followed by the statements under its [fail:] label. *)
Definition with_fail_label {A : Type} (body handler : M A) : M A :=
  fun w =>
    match body w with
    | (Fail, w') => handler w'
    | other => other
    end.

(** [fprintf(stderr, ...)] and [perror]: one message on standard error. *)
Definition eprint (msg : string) : M unit :=
  fun w => (Val tt, mk_world (target w) (pending w) (clock w) (trace w)
                      (poke_log w) (out w) (err w ++ [msg])).
Definition perror (what : string) : M unit := eprint what.

(** Bytes on standard output. *)
Definition print (bs : list Z) : M unit :=
  fun w => (Val tt, mk_world (target w) (pending w) (clock w) (trace w)
                      (poke_log w) (out w ++ bs) (err w)).

Definition when (c : bool) (body : M unit) : M unit :=
  if c then body else ret tt.

(** ** Kernel requests *)

Section Controller.

Variable o : oracle.

(** The world after one more request. *)
Definition issue (rq : request) (ok : bool) (tgt : machine)
    (pend : option wstatus) (w : world) : world :=
  mk_world tgt pend (S (clock w)) ((rq, ok) :: trace w)
           (poke_log w) (out w) (err w).

(** A request the kernel turns down changes nothing but the log. *)
Definition refused (rq : request) (w : world) : world :=
  issue rq false (target w) (pending w) w.

(** [ptrace(PTRACE_ATTACH, pid, ...)]: no process has a pid below 1;
    a process newly attached stops with [SIGSTOP]. *)
Definition ptrace_attach (pid : Z) : M Z :=
  fun w =>
    if (pid <=? 0) || fault o (clock w)
    then (Val (-1), refused PTRACE_ATTACH w)
    else (Val 0, issue PTRACE_ATTACH true (target w) (Some (WStopped 19)) w).

Definition ptrace_detach (pid : Z) : M Z :=
  fun w =>
    if fault o (clock w) then (Val (-1), refused PTRACE_DETACH w)
    else (Val 0, issue PTRACE_DETACH true (target w) (pending w) w).

(** [ptrace(PTRACE_GETREGS, pid, NULL, &r)]: the registers read, or
    [None] when the request fails and [r] is left as it was. *)
Definition ptrace_getregs (pid : Z) : M (option user_regs_struct) :=
  fun w =>
    if fault o (clock w) then (Val None, refused PTRACE_GETREGS w)
    else (Val (Some (regs (target w))),
          issue PTRACE_GETREGS true (target w) (pending w) w).

Definition ptrace_setregs (pid : Z) (r : user_regs_struct) : M Z :=
  fun w =>
    if fault o (clock w) then (Val (-1), refused (PTRACE_SETREGS r) w)
    else (Val 0, issue (PTRACE_SETREGS r) true
                       (mk_machine r (mem (target w))) (pending w) w).

(** [ptrace(PTRACE_PEEKTEXT, ...)]: the word read and whether [errno]
    was set; a failed request returns -1. *)
Definition ptrace_peektext (pid addr : Z) : M (Z * bool) :=
  fun w =>
    if fault o (clock w)
    then (Val (wrap64 (-1), true), refused (PTRACE_PEEKTEXT addr) w)
    else (Val (load8 (mem (target w)) addr, false),
          issue (PTRACE_PEEKTEXT addr) true (target w) (pending w) w).

(** [ptrace(PTRACE_PEEKDATA, ...)] where the caller looks at the
    returned word only. *)
Definition ptrace_peekdata (pid addr : Z) : M Z :=
  fun w =>
    if fault o (clock w)
    then (Val (wrap64 (-1)), refused (PTRACE_PEEKDATA addr) w)
    else (Val (load8 (mem (target w)) addr),
          issue (PTRACE_PEEKDATA addr) true (target w) (pending w) w).

Definition ptrace_poketext (pid addr data : Z) : M Z :=
  fun w =>
    if fault o (clock w)
    then (Val (-1), refused (PTRACE_POKETEXT addr data) w)
    else (Val 0, issue (PTRACE_POKETEXT addr data) true
                       (mk_machine (regs (target w))
                                   (store8 (mem (target w)) addr data))
                       (pending w) w).

(** [ptrace(PTRACE_SINGLESTEP, ...)]: the target executes one
    instruction and stops again. *)
Definition ptrace_singlestep (pid : Z) : M Z :=
  fun w =>
    if fault o (clock w) then (Val (-1), refused PTRACE_SINGLESTEP w)
    else let '(m, st) := step_machine o (target w) in
         (Val 0, issue PTRACE_SINGLESTEP true m (Some st) w).

(** [ptrace(PTRACE_CONT, ...)]: the target runs up to its next stop. *)
Definition ptrace_cont (pid : Z) : M Z :=
  fun w =>
    if fault o (clock w) then (Val (-1), refused PTRACE_CONT w)
    else let '(m, st) := run o (target w) in
         (Val 0, issue PTRACE_CONT true m (Some st) w).

(** [waitpid(pid, 0, WSTOPPED)]: blocks until the target has a state
    change to report. *)
Definition sys_waitpid (pid : Z) : M Z :=
  fun w =>
    if fault o (clock w) then (Val (-1), refused WAITPID w)
    else match pending w with
         | Some _ => (Val pid, issue WAITPID true (target w) None w)
         | None => (Diverge, w)
         end.

(** [wait(&status)]: the result and, on success, the status. *)
Definition sys_wait : M (Z * wstatus) :=
  fun w =>
    if fault o (clock w) then (Val (-1, WExited 0), refused WAIT w)
    else match pending w with
         | Some st => (Val (0, st), issue WAIT true (target w) None w)
         | None => (Diverge, w)
         end.

(** ** The program *)

(** number of bytes in a JMP/CALL rel32 instruction *)
Definition REL32_SZ : Z := 5.

(** text seen in /proc/<pid>/maps for text areas *)
Definition text_area : list Z := bytes " r-xp ".

(** this should be a string that will uniquely identify libc in
    /proc/<pid>/maps *)
Definition libc_string : list Z := bytes "/libc".

(** The bytes of a [char *] argument before its terminator. *)
Fixpoint until_nul (s : list Z) : list Z :=
  match s with
  | [] => []
  | c :: s' => if c =? 0 then [] else c :: until_nul s'
  end.

Definition strlen (s : list Z) : Z := Z.of_nat (List.length (until_nul s)).

(** [pos[k]] for [pos] at offset [i] of the string [line]: a character
    of the line, its terminator, or a read past the terminator. *)
Definition char_after (line : list Z) (i : nat) (k : Z) : option Z :=
  let j := (i + Z.to_nat k)%nat in
  if (j <? List.length line)%nat then Some (nth j line 0)
  else if (j =? List.length line)%nat then Some 0
  else None.

(** The condition of [find_library] on one line; [None] when it reads
    past the end of the line. *)
Definition line_selected (line libname : list Z) : option bool :=
  match strstr line libname with
  | None => Some false
  | Some pos =>
      match strstr line text_area with
      | None => Some false
      | Some _ =>
          match char_after line pos (strlen libc_string) with
          | Some c => Some ((c <? 97) || (c >? 122))
          | None => None
          end
      end
  end.

(** The loop of [find_library] over the lines [getline] delivers:
    the value returned, [Some 0] for [NULL]; [None] when the behaviour
    is undefined. *)
Fixpoint find_in_lines (lines : list (list Z)) (libname : list Z)
    : option Z :=
  match lines with
  | [] => Some 0
  | raw :: rest =>
      let line := until_nul raw in
      match line_selected line (until_nul libname) with
      | None => None
      | Some true => Some (wrap64 (fst (strtol line 16)))
      | Some false => find_in_lines rest libname
      end
  end.

(** find the location of a shared library in memory *)
Definition find_library (pid : Z) (libname : list Z) : M Z :=
  match maps o pid with
  | None => undefined
  | Some lines =>
      match find_in_lines lines libname with
      | Some v => ret v
      | None => undefined
      end
  end.

(** The loop of [poke_text], [n] words to go. *)
Fixpoint poke_words (n : nat) (pid where_ : Z) (new_text : list Z)
    (old_text : option (list Z)) (copied : Z) : M (Z * option (list Z)) :=
  match n with
  | O => ret (0, old_text)
  | S n' =>
      let poke_data := le_word (buf_read new_text copied 8) in
      '(peek_failed, old_text) <-
        match old_text with
        | Some old =>
            '(peek_data, errno) <-
              ptrace_peektext pid (wrap64 (where_ + copied)) ;;
            if (peek_data =? wrap64 (-1)) && errno
            then perror "PTRACE_PEEKTEXT" ;; ret (true, Some old)
            else ret (false, Some (buf_write old copied (le_bytes 8 peek_data)))
        | None => ret (false, None)
        end ;;
      if peek_failed : bool then ret (-1, old_text)
      else
        r <- ptrace_poketext pid (wrap64 (where_ + copied)) poke_data ;;
        if r <? 0 then perror "PTRACE_POKETEXT" ;; ret (-1, old_text)
        else poke_words n' pid where_ new_text old_text (copied + 8)
  end.

(** Update the text area of pid at the area starting at where.  The data
    copied should be in the new_text buffer whose size is given by len.
    If old_text is not null, the original text data will be copied into
    it.  The result is the value returned together with [old_text]. *)
Definition poke_text (pid where_ : Z) (new_text : list Z)
    (old_text : option (list Z)) (len : Z) : M (Z * option (list Z)) :=
  (fun w => (Val tt, mk_world (target w) (pending w) (clock w) (trace w)
                              ((where_, len) :: poke_log w) (out w) (err w))) ;;
  if negb (len mod 8 =? 0)
  then eprint "invalid len, not a multiple of 8" ;; ret (-1, old_text)
  else poke_words (Z.to_nat (len / 8)) pid where_ new_text old_text 0.

Definition do_wait (name : string) : M Z :=
  '(r, status) <- sys_wait ;;
  if r =? -1 then perror "wait" ;; ret (-1)
  else match status with
       | WStopped sig =>
           if sig =? SIGTRAP then ret 0
           else eprint (name ++ " unexpectedly got status")%string ;; ret (-1)
       | _ => eprint (name ++ " got unexpected status")%string ;; ret (-1)
       end.

Definition singlestep (pid : Z) : M Z :=
  r <- ptrace_singlestep pid ;;
  if negb (r =? 0) then perror "PTRACE_SINGLESTEP" ;; ret (-1)
  else do_wait "PTRACE_SINGLESTEP".

Definition check_yama : M unit :=
  match yama_file o with
  | None => ret tt
  | Some content =>
      let got := firstn 8 content in
      let yama_buf := until_nul got in
      when (Nat.eqb (List.length got) 0)
           (eprint "Could not read yama file") ;;
      when (negb (prefixb yama_buf [48; 10] && prefixb [48; 10] yama_buf))
           (eprint "The likely cause of this failure is that your system has kernel.yama.ptrace_scope set" ;;
            eprint "If you would like to disable Yama, you can run: sudo sysctl kernel.yama.ptrace_scope=0")
  end.

(** [compute_jmp(from, to)]; the subtraction is on [int64_t] and wraps. *)
Definition compute_jmp (from to : Z) : M Z :=
  let delta := signed64 (signed64 to - signed64 from - REL32_SZ) in
  if (delta <? INT_MIN) || (delta >? INT_MAX)
  then eprint "cannot do relative jump; did you compile with -fPIC?" ;;
       exit_ 1
  else ret delta.

Definition PROT_READ : Z := 1.
Definition PROT_EXEC : Z := 4.
Definition MAP_PRIVATE : Z := 2.
Definition MAP_ANONYMOUS : Z := 32.

(** [buf[i] = v]. *)
Definition buf_set (buf : list Z) (i v : Z) : list Z := buf_write buf i [v].

(** [n] uninitialised bytes of the stack frame, from slot [base]. *)
Definition uninit (base : Z) (n : nat) : list Z :=
  map (fun k => stack_junk o (base + Z.of_nat k) mod 256) (seq 0 n).

(** [while (blocksize < memsize) blocksize <<= 1;] on [size_t]. *)
Fixpoint grow_block (fuel : nat) (blocksize memsize : Z) : M Z :=
  if blocksize <? memsize then
    match fuel with
    | O => diverge
    | S fuel' => grow_block fuel' (wrap64 (Z.shiftl blocksize 1)) memsize
    end
  else ret blocksize.

(** [data << k] on [uint32_t]. *)
Definition shl32 (data k : Z) : Z := wrap32 (Z.shiftl data k).

(** The test that ends the scan of the returned string. *)
Definition scan_break (data : Z) : bool :=
  (shl32 data 24 <? 16777216) || (shl32 data 16 <? 16777216) ||
  (shl32 data 8 <? 16777216) || (data <? 16777216).

(** The [while (true)] loop over the returned string: the value of
    [offs] when it breaks. *)
Fixpoint scan_loop (fuel : nat) (pid offs : Z) : M Z :=
  match fuel with
  | O => diverge
  | S fuel' =>
      v <- ptrace_peekdata pid offs ;;
      let data := wrap32 v in
      let offs := wrap64 (offs + 4) in
      if scan_break data then ret offs
      else scan_loop fuel' pid offs
  end.

(** The [for] loop copying [n] words into [buf], from word [i] on. *)
Fixpoint copy_loop (n : nat) (pid offs : Z) (buf : list Z) (i : Z)
    : M (list Z) :=
  match n with
  | O => ret buf
  | S n' =>
      v <- ptrace_peekdata pid offs ;;
      let data := wrap32 v in
      let offs := wrap64 (offs + 4) in
      copy_loop n' pid offs (buf_write buf (4 * i) (le_bytes 4 data)) (i + 1)
  end.

(** [printf("%s\n", buf)]. *)
Definition print_line (buf : list Z) : M unit :=
  match cstring buf with
  | Some s => print (s ++ [10])
  | None => undefined
  end.

(** The statements under the [fail:] label. *)
Definition fail_path (pid rip_ : Z) (old_word : list Z) : M Z :=
  poke_text pid rip_ old_word None 8 ;;
  r <- ptrace_detach pid ;;
  when (negb (r =? 0)) (perror "PTRACE_DETACH") ;;
  return_ 1.

(** [getenv_process] is one long function; its body is given here in
    the order of the source, one definition per commented stretch, and
    put together in [getenv_process] below. *)

(** Lines 140-159: attach, wait for the stop, save the registers. *)
Definition attach_target (pid : Z) : M user_regs_struct :=
  (* attach to the process *)
  r <- ptrace_attach pid ;;
  when (negb (r =? 0))
       (perror "PTRACE_ATTACH" ;; check_yama ;; return_ (-1)) ;;
  (* wait for the process to actually stop *)
  r <- sys_waitpid pid ;;
  when (r =? -1) (perror "wait" ;; return_ (-1)) ;;
  (* save the register state of the remote process *)
  g <- ptrace_getregs pid ;;
  match g with
  | Some oldregs => ret oldregs
  | None => perror "PTRACE_GETREGS" ;; ptrace_detach pid ;; return_ (-1)
  end.

(** Lines 170-178: the registers for the remote [mmap]. *)
Definition mmap_regs (oldregs : user_regs_struct) : user_regs_struct :=
  let newregs := oldregs in
  let newregs := set_rax 9 newregs in                    (* mmap *)
  let newregs := set_rdi 0 newregs in                    (* addr *)
  let newregs := set_rsi PAGE_SIZE newregs in            (* length *)
  let newregs := set_rdx (Z.lor PROT_READ PROT_EXEC) newregs in
  let newregs := set_r10 (Z.lor MAP_PRIVATE MAP_ANONYMOUS) newregs in
  let newregs := set_r8 (wrap64 (-1)) newregs in         (* fd *)
  let newregs := set_r9 0 newregs in                     (* offset *)
  newregs.

(** Lines 180-185: [new_word], of which only four bytes are set. *)
Definition syscall_word : list Z :=
  let new_word := uninit 8 8 in
  let new_word := buf_set new_word 0 15 in   (* SYSCALL *)
  let new_word := buf_set new_word 1 5 in    (* SYSCALL *)
  let new_word := buf_set new_word 2 255 in  (* JMP %rax *)
  let new_word := buf_set new_word 3 224 in  (* JMP %rax *)
  new_word.

(** Lines 192-235: run the remote [mmap] and jump into the new page.
    The result is [mmap_memory] and [newregs]. *)
Definition remote_mmap (pid : Z) (newregs : user_regs_struct)
    : M (Z * user_regs_struct) :=
  (* set the new registers with our syscall arguments *)
  r <- ptrace_setregs pid newregs ;;
  when (negb (r =? 0)) (perror "PTRACE_SETREGS" ;; goto_fail) ;;
  (* invoke mmap(2) *)
  r <- singlestep pid ;;
  when (negb (r =? 0)) goto_fail ;;
  (* read the new register state, so we can see where the mmap went *)
  g <- ptrace_getregs pid ;;
  newregs <- match g with
             | Some x => ret x
             | None => perror "PTRACE_GETREGS" ;; return_ (-1)
             end ;;
  (* this is the address of the memory we allocated *)
  let mmap_memory := rax newregs in
  when (mmap_memory =? wrap64 (-1)) (eprint "failed to mmap" ;; goto_fail) ;;
  r <- singlestep pid ;;
  when (negb (r =? 0)) goto_fail ;;
  g <- ptrace_getregs pid ;;
  newregs <- match g with
             | Some x => ret x
             | None => perror "PTRACE_GETREGS" ;; goto_fail
             end ;;
  when (negb (rip newregs =? mmap_memory))
       (eprint "unexpectedly jumped" ;; goto_fail) ;;
  ret (mmap_memory, newregs).

(** Lines 281-294: the block copied into the mmap area. *)
Definition trampoline (blocksize getenv_delta : Z) (env : list Z)
    : list Z * Z :=
  (* memory we are going to copy into our mmap area *)
  let new_text := repeat 0 (Z.to_nat blocksize) in
  (* insert a CALL instruction *)
  let offset := 0 in
  let new_text := buf_set new_text offset 232 in  (* CALL rel32 *)
  let offset := offset + 1 in
  let new_text := buf_write new_text offset (le_bytes 4 getenv_delta) in
  let offset := offset + 4 in
  (* insert a TRAP instruction *)
  let new_text := buf_set new_text offset 204 in
  let offset := offset + 1 in
  (* copy our getenv format string right after the TRAP instruction *)
  let new_text := buf_write new_text offset (until_nul env) in
  (new_text, offset).

(** Lines 255-307: locate [getenv] in the target, write the call, the
    trap and the name into the mmap area, and write [new_word] at the
    old instruction pointer again.  The result is [offset]. *)
Definition write_trampoline (fuel : nat) (pid rip_ : Z) (new_word : list Z)
    (mmap_memory : Z) (env : list Z) : M Z :=
  their_libc <- find_library pid libc_string ;;
  our_libc <- find_library (self_pid o) libc_string ;;
  let their_getenv := wrap64 (their_libc + (getenv_local o - our_libc)) in
  let memsize := wrap64 (strlen env + 6) in
  blocksize <- grow_block fuel 32 memsize ;;
  getenv_delta <- compute_jmp mmap_memory their_getenv ;;
  let '(new_text, offset) := trampoline blocksize getenv_delta env in
  (* update the mmap area *)
  '(r, _) <- poke_text pid mmap_memory new_text None blocksize ;;
  when (negb (r =? 0)) goto_fail ;;
  '(r, _) <- poke_text pid rip_ new_word None 8 ;;
  when (negb (r =? 0)) goto_fail ;;
  ret offset.

(** Lines 309-336: set up the call, let the target run into the trap,
    read the registers. *)
Definition remote_call (pid mmap_memory offset : Z)
    (newregs : user_regs_struct) : M user_regs_struct :=
  (* set up our registers with the args to getenv *)
  let newregs := set_rax 0 newregs in  (* no vector registers are used *)
  let newregs := set_rdi (wrap64 (mmap_memory + offset)) newregs in
  r <- ptrace_setregs pid newregs ;;
  when (negb (r =? 0)) (perror "PTRACE_SETREGS" ;; goto_fail) ;;
  (* continue the program, and wait for the trap *)
  ptrace_cont pid ;;
  r <- do_wait "PTRACE_CONT" ;;
  when (negb (r =? 0)) goto_fail ;;
  g <- ptrace_getregs pid ;;
  match g with
  | Some x => ret x
  | None => perror "PTRACE_GETREGS" ;; goto_fail
  end.

(** Lines 337-357: print the string [getenv] returned, if any. *)
Definition read_result (fuel : nat) (pid : Z) (newregs : user_regs_struct)
    : M unit :=
  let offs := rax newregs in
  when (negb (offs =? 0)) (
    offs <- scan_loop fuel pid offs ;;
    let slen := wrap64 (offs - rax newregs) in
    let buf := map (fun k => heap_junk o (Z.of_nat k) mod 256)
                   (seq 0 (Z.to_nat (slen + 1))) in
    let offs := rax newregs in
    buf <- copy_loop (Z.to_nat (slen / 4)) pid offs buf 0 ;;
    print_line buf).

(** Lines 364-365: [new_word] with its first two bytes replaced. *)
Definition jmp_word (new_word : list Z) : list Z :=
  let new_word := buf_set new_word 0 255 in  (* JMP %rax *)
  let new_word := buf_set new_word 1 224 in  (* JMP %rax *)
  new_word.

(** Lines 358-387: jump back to the old instruction pointer. *)
Definition jump_back (pid rip_ : Z) (new_word : list Z)
    (newregs : user_regs_struct) : M user_regs_struct :=
  let newregs := set_rax rip_ newregs in
  r <- ptrace_setregs pid newregs ;;
  when (negb (r =? 0)) (perror "PTRACE_SETREGS" ;; goto_fail) ;;
  let new_word := jmp_word new_word in
  poke_text pid (rip newregs) new_word None 8 ;;
  r <- singlestep pid ;;
  when (negb (r =? 0)) goto_fail ;;
  g <- ptrace_getregs pid ;;
  newregs <- match g with
             | Some x => ret x
             | None => perror "PTRACE_GETREGS" ;; goto_fail
             end ;;
  when (negb (rip newregs =? rip_))
       (eprint "unexpectedly jumped" ;; goto_fail) ;;
  ret newregs.

(** Lines 389-408: unmap the memory we allocated. *)
Definition remote_munmap (pid mmap_memory : Z) (newregs : user_regs_struct)
    : M unit :=
  let newregs := set_rax 11 newregs in           (* munmap *)
  let newregs := set_rdi mmap_memory newregs in  (* addr *)
  let newregs := set_rsi PAGE_SIZE newregs in    (* size *)
  r <- ptrace_setregs pid newregs ;;
  when (negb (r =? 0)) (perror "PTRACE_SETREGS" ;; goto_fail) ;;
  (* make the system call *)
  r <- singlestep pid ;;
  when (negb (r =? 0)) goto_fail ;;
  g <- ptrace_getregs pid ;;
  match g with
  | Some _ => ret tt
  | None => perror "PTRACE_GETREGS" ;; goto_fail
  end.

(** Lines 414-432: restore the old text and registers, detach. *)
Definition restore_and_detach (pid rip_ : Z) (old_word : list Z)
    (oldregs : user_regs_struct) : M Z :=
  poke_text pid rip_ old_word None 8 ;;
  r <- ptrace_setregs pid oldregs ;;
  when (negb (r =? 0)) (perror "PTRACE_SETREGS" ;; goto_fail) ;;
  (* detach the process *)
  r <- ptrace_detach pid ;;
  when (negb (r =? 0)) (perror "PTRACE_DETACH" ;; goto_fail) ;;
  return_ 0.

(** Everything after the first [poke_text], up to [return 0]. *)
Definition session (fuel : nat) (pid : Z) (env : list Z)
    (oldregs : user_regs_struct) (old_word new_word : list Z) : M Z :=
  let rip_ := rip oldregs in
  '(mmap_memory, newregs) <- remote_mmap pid (mmap_regs oldregs) ;;
  offset <- write_trampoline fuel pid rip_ new_word mmap_memory env ;;
  newregs <- remote_call pid mmap_memory offset newregs ;;
  read_result fuel pid newregs ;;
  newregs <- jump_back pid rip_ new_word newregs ;;
  remote_munmap pid mmap_memory newregs ;;
  restore_and_detach pid rip_ old_word oldregs.

Definition getenv_process (fuel : nat) (pid : Z) (env : list Z) : M Z :=
  call (
    oldregs <- attach_target pid ;;
    let rip_ := rip oldregs in
    let old_word := uninit 0 8 in
    let new_word := syscall_word in
    (* insert the SYSCALL instruction into the process, and save the old
       word *)
    '(r, saved) <- poke_text pid rip_ new_word (Some old_word) 8 ;;
    let old_word := match saved with Some b => b | None => old_word end in
    with_fail_label
      (when (negb (r =? 0)) goto_fail ;;
       session fuel pid env oldregs old_word new_word)
      (fail_path pid rip_ old_word)).

(** What one call of [getopt(argc, argv, "hp:e:")] yields before it
    returns -1: one of the three options with its argument, or ['?']
    with the offending character in [optopt]. *)
Inductive getopt_result : Type :=
| Opt_h
| Opt_p (optarg : list Z)
| Opt_e (optarg : list Z)
| Opt_unknown (optopt : Z).

Definition ERANGE : Z := 34.

(** [(pid_t)pid]: the low 32 bits, signed. *)
Definition to_pid_t (pid : Z) : Z :=
  let u := wrap32 pid in if u <? 2 ^ 31 then u else u - 2 ^ 32.

(** The [while] loop of [main] over the results of [getopt]; [errno] is
    carried along because [strtol] only ever sets it. *)
Fixpoint parse_options (opts : list getopt_result) (pid : Z)
    (env : option (list Z)) (errno : Z) : M (Z * option (list Z)) :=
  match opts with
  | [] => ret (pid, env)
  | Opt_h :: _ => eprint "Usage: getenv -p <pid>" ;; return_ 0
  | Opt_p optarg :: rest =>
      let '(pid, overflow) := strtol optarg 10 in
      let errno := if overflow : bool then ERANGE else errno in
      if ((errno =? ERANGE) && ((pid =? LONG_MAX) || (pid =? LONG_MIN)))
         || (negb (errno =? 0) && (pid =? 0))
      then perror "strtol" ;; return_ 1
      else if pid <? 0
           then eprint "cannot accept negative pids" ;; return_ 1
           else parse_options rest pid env errno
  | Opt_e optarg :: rest => parse_options rest pid (Some optarg) errno
  | Opt_unknown optopt :: _ =>
      (if optopt =? 112 then eprint "Option -p requires an argument."
       else if optopt =? 101 then eprint "Option -e requires an argument."
       else if (32 <=? optopt) && (optopt <=? 126)
            then eprint "Unknown option."
            else eprint "Unknown option character.") ;;
      return_ 1
  end.

(** [main], on the results [getopt] yields for the command line;
    [errno] is 0 when the program starts. *)
Definition main (fuel : nat) (opts : list getopt_result) : M Z :=
  call (
    '(pid, env) <- parse_options opts (-1) None 0 ;;
    when (pid =? -1)
         (eprint "must specify a remote process with -p" ;; return_ 1) ;;
    match env with
    | None => eprint "must specify an env var with -e" ;; return_ 1
    | Some env =>
        r <- getenv_process fuel (to_pid_t pid) env ;;
        return_ r
    end).

End Controller.

(** The exit status a parent sees: the low eight bits of what [main]
    returns or [exit] is given; [None] when the program does not end in
    either way. *)
Definition exit_status (res : outcome Z) : option Z :=
  match res with
  | Val r => Some (r mod 256)
  | Exit code => Some (code mod 256)
  | _ => None
  end.

(** ** A concrete target

    A process spinning in a two-byte loop, with [FOO=bar] and a long
    variable in its environment, and an oracle under which every request
    succeeds unless told otherwise. *)

Module Harness.

(** Memory given by regions of bytes; zero elsewhere. *)
Fixpoint mem_of (regions : list (Z * list Z)) (a : Z) : Z :=
  match regions with
  | [] => 0
  | (base, bs) :: rest =>
      if (base <=? a) && (a <? base + Z.of_nat (List.length bs))
      then nth (Z.to_nat (a - base)) bs 0
      else mem_of rest a
  end.

Definition text_base : Z := 4198400.            (* 0x401000 *)
Definition foo_value : Z := 140724603457536.    (* 0x7ffd00001000 *)
Definition long_value : Z := 140724603461632.   (* 0x7ffd00002000 *)
Definition page : Z := 139637976731648.         (* 0x7f0000001000 *)
Definition their_libc_base : Z := 139637979119616. (* 0x7f0000248000 *)
Definition our_libc_base : Z := 139711276548096.  (* 0x7f1111028000 *)
Definition getenv_offset : Z := 271024.

Definition text_bytes : list Z :=
  [235; 254; 144; 144; 72; 137; 229; 195; 85; 72; 131; 236; 16; 201; 195; 144].

(** 257 bytes, none of them NUL. *)
Definition long_bytes : list Z :=
  map (fun k => 65 + Z.of_nat (k mod 26)) (seq 0 257).

Definition memory0 : Z -> Z :=
  mem_of [(text_base, text_bytes);
          (foo_value, bytes "bar" ++ [0]);
          (long_value, long_bytes ++ [0])].

Definition regs0 : user_regs_struct :=
  mk_regs 15 14 13 12 140724603453440 11 582 10 9 8 7 6 5 4 3
          (wrap64 (-1)) text_base 51 582 140724603453312 43 0 0 0 0 0 0.

Definition machine0 : machine := mk_machine regs0 memory0.

Definition world0 : world := mk_world machine0 None 0 [] [] [] [].

(** The target's environment: names and where their values live. *)
Definition environ : list (list Z * Z) :=
  [(bytes "FOO", foo_value); (bytes "LONGVAR", long_value)].

Fixpoint lookup (name : list Z) (vars : list (list Z * Z)) : Z :=
  match vars with
  | [] => 0
  | (n, a) :: rest =>
      if prefixb n name && prefixb name n then a else lookup name rest
  end.

(** The string at [a] in memory, at most [n] bytes of it. *)
Fixpoint string_at (n : nat) (m : Z -> Z) (a : Z) : list Z :=
  match n with
  | O => []
  | S n' => if m a =? 0 then [] else m a :: string_at n' m (a + 1)
  end.

(** The target resumed at a [call rel32] to its [getenv] followed by a
    breakpoint: the call pushes its return address, [getenv] leaves its
    result in [rax] and garbage in the caller-saved registers, and the
    trap is reported one byte after the breakpoint.  Anything else faults. *)
Definition run_call (m : machine) : machine * wstatus :=
  let r := regs m in
  let pc := rip r in
  let rel := le_word (map (fun k => mem m (pc + 1 + Z.of_nat k)) (seq 0 4)) in
  let rel := if rel <? 2 ^ 31 then rel else rel - 2 ^ 32 in
  if (mem m pc =? 232) && (mem m (pc + 5) =? 204)
     && (wrap64 (pc + 5 + rel) =? their_libc_base + getenv_offset)
  then
    let res := lookup (string_at 64 (mem m) (rdi r)) environ in
    let r' := set_rip (pc + 6) (set_rax res (set_rcx 99 (set_rdx 98
                (set_rsi 97 (set_rdi 96 (set_r8 95 (set_r9 94
                (set_r10 93 (set_r11 92 r))))))))) in
    (mk_machine r' (store8 (mem m) (rsp r - 8) (pc + 5)), WStopped SIGTRAP)
  else (m, WStopped 11).

Definition target_pid : Z := 1234.
Definition controller_pid : Z := 4321.

Definition target_maps : list (list Z) :=
  [bytes "00400000-00452000 r-xp 00000000 08:01 131 /usr/bin/harness
";
   bytes "7f0000220000-7f0000248000 r--p 00000000 08:01 977 /usr/lib/libc.so.6
";
   bytes "7f0000248000-7f00003bd000 r-xp 00028000 08:01 977 /usr/lib/libc.so.6
"].

Definition controller_maps : list (list Z) :=
  [bytes "7f1111000000-7f1111028000 r--p 00000000 08:01 977 /usr/lib/libc.so.6
";
   bytes "7f1111028000-7f111119d000 r-xp 00028000 08:01 977 /usr/lib/libc.so.6
"].

(** The oracle of the harness, for a given schedule of failures and a
    given address of the page the remote [mmap] returns. *)
Definition oracle_gen (faults : nat -> bool) (where_ : Z) : oracle :=
  mk_oracle faults
    (fun m => if rax (regs m) =? 9 then where_ else 0)
    (fun m => (m, WStopped 11))
    run_call
    (fun pid => if pid =? target_pid then Some target_maps
                else if pid =? controller_pid then Some controller_maps
                else None)
    controller_pid
    (our_libc_base + getenv_offset)
    (fun k => 170 + k)
    (fun k => 187)
    (Some [49; 10]).

Definition oracle_with (faults : nat -> bool) : oracle :=
  oracle_gen faults page.

(** No request fails. *)
Definition oracle0 : oracle := oracle_with (fun _ => false).

(** The page comes out at 0x10000, more than 2 GiB below the libc. *)
Definition oracle_far : oracle := oracle_gen (fun _ => false) 65536.

(** The harness with another maps file for its target. *)
Definition oracle_maps (lines : list (list Z)) : oracle :=
  mk_oracle (fault oracle0) (syscall_ret oracle0) (step_other oracle0)
    (run oracle0)
    (fun pid => if pid =? target_pid then Some lines else maps oracle0 pid)
    (self_pid oracle0) (getenv_local oracle0) (stack_junk oracle0)
    (heap_junk oracle0) (yama_file oracle0).

(** Only the request at position [n] fails. *)
Definition fail_at (n : nat) : oracle := oracle_with (Nat.eqb n).

End Harness.

(** ** A name that fills the page

    The harness target with one variable whose name, with the six bytes
    before it, is exactly as long as the scratch page.  The page is
    mapped right below another mapping of the target, a file that starts
    with the magic number of ELF. *)

Module Edge.

Definition name : list Z := repeat 65 4090.

Definition environ : list (list Z * Z) := [(name, Harness.foo_value)].

Definition next_mapping : list Z := [127; 69; 76; 70; 2; 1; 1; 0].

Definition memory_with (after_page : list Z) : Z -> Z :=
  Harness.mem_of [(Harness.text_base, Harness.text_bytes);
                  (Harness.foo_value, bytes "bar" ++ [0]);
                  (Harness.page + PAGE_SIZE, after_page)].

Definition world_with (after_page : list Z) : world :=
  mk_world (mk_machine Harness.regs0 (memory_with after_page))
           None 0 [] [] [] [].

(** The target's [getenv]: whether the string at [a] is [n], the bytes
    of [n] and then a zero, and the value of the first variable whose
    name the string at [a] is, null when there is none. *)
Fixpoint string_is (m : Z -> Z) (a : Z) (n : list Z) : bool :=
  match n with
  | [] => m a =? 0
  | b :: n' => (m a =? b) && string_is m (a + 1) n'
  end.

Fixpoint getenv (m : Z -> Z) (a : Z) (vars : list (list Z * Z)) : Z :=
  match vars with
  | [] => 0
  | (n, v) :: rest => if string_is m a n then v else getenv m a rest
  end.

(** [Harness.run_call] for this environment: [getenv] compares its
    argument with the names of the environment, however long they are. *)
Definition run_call (m : machine) : machine * wstatus :=
  let r := regs m in
  let pc := rip r in
  let rel := le_word (map (fun k => mem m (pc + 1 + Z.of_nat k)) (seq 0 4)) in
  let rel := if rel <? 2 ^ 31 then rel else rel - 2 ^ 32 in
  if (mem m pc =? 232) && (mem m (pc + 5) =? 204)
     && (wrap64 (pc + 5 + rel)
         =? Harness.their_libc_base + Harness.getenv_offset)
  then
    let res := getenv (mem m) (rdi r) environ in
    let r' := set_rip (pc + 6) (set_rax res (set_rcx 99 (set_rdx 98
                (set_rsi 97 (set_rdi 96 (set_r8 95 (set_r9 94
                (set_r10 93 (set_r11 92 r))))))))) in
    (mk_machine r' (store8 (mem m) (rsp r - 8) (pc + 5)), WStopped SIGTRAP)
  else (m, WStopped 11).

Definition oracle : oracle :=
  mk_oracle (fault Harness.oracle0) (syscall_ret Harness.oracle0)
    (step_other Harness.oracle0) run_call (maps Harness.oracle0)
    (self_pid Harness.oracle0) (getenv_local Harness.oracle0)
    (stack_junk Harness.oracle0) (heap_junk Harness.oracle0)
    (yama_file Harness.oracle0).

End Edge.

(** ** The mapping inspector as the specification words it *)

Module InspectorSpec.

(** Whether [pat] occurs in [line] at offset [i]. *)
Definition occursb (pat line : list Z) (i : nat) : bool :=
  prefixb pat (skipn i line).

Definition containsb (pat line : list Z) : bool :=
  existsb (occursb pat line) (seq 0 (S (List.length line))).

(** The rest of a line after its next field and the blanks after it. *)
Fixpoint drop_blanks (line : list Z) : list Z :=
  match line with
  | c :: rest => if c =? 32 then drop_blanks rest else line
  | [] => []
  end.

Fixpoint drop_field (line : list Z) : list Z :=
  match line with
  | [] => []
  | c :: rest => if c =? 32 then drop_blanks rest else drop_field rest
  end.

Fixpoint take_field (line : list Z) : list Z :=
  match line with
  | [] => []
  | c :: rest => if (c =? 32) || (c =? 10) then [] else c :: take_field rest
  end.

(** [start-end perms offset dev inode path]: the second field and
    everything from the sixth on, up to the end of the line. *)
Definition perms_field (line : list Z) : list Z :=
  take_field (drop_field line).

Fixpoint strip_newline (line : list Z) : list Z :=
  match line with
  | [] => []
  | c :: rest => if c =? 10 then [] else c :: strip_newline rest
  end.

Definition path_field (line : list Z) : list Z :=
  strip_newline (drop_field (drop_field (drop_field (drop_field
    (drop_field line))))).

Definition lowercaseb (c : Z) : bool := (97 <=? c) && (c <=? 122).

(** "whose perms field contains the executable-readable-private pattern
    and whose path contains needle as a substring, where the character
    immediately after the match is not a lowercase letter" *)
Definition selects (needle line : list Z) : bool :=
  containsb (bytes "r-xp") (perms_field line) &&
  existsb (fun i => occursb needle (path_field line) i &&
                    negb (lowercaseb (nth (i + List.length needle)
                                          (path_field line) 0)))
          (seq 0 (S (List.length (path_field line)))).

(** "The return value is the start address parsed as hexadecimal", none
    (0) when no line matches. *)
Definition hex_value (digits : list Z) : Z :=
  fold_left (fun acc c => match digit_value c with
                          | Some d => acc * 16 + d
                          | None => acc
                          end) digits 0.

Fixpoint hex_prefix (line : list Z) : list Z :=
  match line with
  | [] => []
  | c :: rest => if is_digit_in 16 c then c :: hex_prefix rest else []
  end.

Definition start_address (line : list Z) : Z := hex_value (hex_prefix line).

Definition find_library (lines : list (list Z)) (needle : list Z) : Z :=
  match find (selects needle) lines with
  | Some line => start_address line
  | None => 0
  end.

End InspectorSpec.

(** What the loop of [find_library] tests, said without [strstr]. *)
Definition occurs_at (pat line : list Z) (i : nat) : Prop :=
  exists rest, skipn i line = pat ++ rest.

Definition first_occurrence (pat line : list Z) (i : nat) : Prop :=
  occurs_at pat line i /\ forall j, (j < i)%nat -> ~ occurs_at pat line j.

Definition lowercase (c : Z) : Prop := 97 <= c <= 122.

(** A line holds [" r-xp "] somewhere, and the first place where it
    holds [needle] is not followed by a lowercase letter. *)
Definition line_taken (needle line : list Z) : Prop :=
  (exists j, occurs_at text_area line j) /\
  exists i, first_occurrence needle line i /\
            ~ lowercase (nth (i + List.length needle) line 0).

Definition is_hex_digit (c : Z) : Prop :=
  exists d, digit_value c = Some d /\ 0 <= d < 16.

Definition nul_free (s : list Z) : Prop := Forall (fun c => c <> 0) s.

(** ** Notions used to state the properties *)

(** The world after [m] is related to the world before; a value [m]
    falls through with satisfies [V], a value it returns early satisfies
    [S], and it exits with status 1 only. *)
Definition steps {A : Type} (R : world -> world -> Prop) (S : Z -> Prop)
    (m : M A) (V : A -> Prop) : Prop :=
  forall w, R w (snd (m w)) /\
            match fst (m w) with
            | Val a => V a
            | Ret z => S z
            | Exit c => c = 1
            | _ => True
            end.

Definition any {A : Type} (a : A) : Prop := True.

(** The calls of [poke_text] made between two worlds all have a length
    that is a multiple of the word size. *)
Definition word_sized_calls (w w1 : world) : Prop :=
  exists calls, poke_log w1 = calls ++ poke_log w /\
                Forall (fun c => snd c mod 8 = 0) calls.


(** The word the scan of the returned string sees in its turn [k],
    started at [offs] in [w]: the low half of what [PTRACE_PEEKDATA]
    returns, -1 when the request fails. *)
Definition scanned (o : oracle) (w : world) (offs : Z) (k : nat) : Z :=
  wrap32 (if fault o (clock w + k)
          then wrap64 (-1)
          else load8 (mem (target w)) (offs + 4 * Z.of_nat k)).

(** The requests issued between two worlds, oldest first. *)
Definition issued (w w' : world) : list (request * bool) :=
  rev (firstn (List.length (trace w') - List.length (trace w)) (trace w')).

Definition is_detach (rq : request) : bool :=
  match rq with PTRACE_DETACH => true | _ => false end.

Definition is_cont (rq : request) : bool :=
  match rq with PTRACE_CONT => true | _ => false end.

Definition is_singlestep (rq : request) : bool :=
  match rq with PTRACE_SINGLESTEP => true | _ => false end.

(** The part of a log after the first request that satisfies [p], and
    the part before it. *)
Fixpoint drop_until (p : request -> bool) (log : list (request * bool))
    : list (request * bool) :=
  match log with
  | [] => []
  | e :: rest => if p (fst e) then rest else drop_until p rest
  end.

Fixpoint take_until (p : request -> bool) (log : list (request * bool))
    : list (request * bool) :=
  match log with
  | [] => []
  | e :: rest => if p (fst e) then [] else e :: take_until p rest
  end.

(** Where and what the controller wrote between [PTRACE_CONT] and the
    single step that follows it. *)
Definition writes_before_jump_back (log : list (request * bool))
    : list (Z * Z) :=
  flat_map (fun e => match fst e with
                     | PTRACE_POKETEXT a d => [(a, d)]
                     | _ => []
                     end)
           (take_until is_singlestep (drop_until is_cont log)).

(** The first [n] bytes of memory at [a]. *)
Definition mem_bytes (m : Z -> Z) (a : Z) (n : nat) : list Z :=
  map (fun k => m (wrap64 (a + Z.of_nat k))) (seq 0 n).

(** Memory and log after [n] words of [new_text], from offset [copied]
    on, have been written at [where_]. *)
Fixpoint poked_mem (m : Z -> Z) (where_ : Z) (new_text : list Z) (n : nat)
    (copied : Z) : Z -> Z :=
  match n with
  | O => m
  | S n' =>
      poked_mem (store8 m (wrap64 (where_ + copied))
                        (le_word (buf_read new_text copied 8)))
                where_ new_text n' (copied + 8)
  end.

Fixpoint poked_trace (where_ : Z) (new_text : list Z) (n : nat)
    (copied : Z) : list (request * bool) :=
  match n with
  | O => []
  | S n' =>
      poked_trace where_ new_text n' (copied + 8) ++
      [(PTRACE_POKETEXT (wrap64 (where_ + copied))
          (le_word (buf_read new_text copied 8)), true)]
  end.

(** Every element is a byte. *)
Definition all_bytes (bs : list Z) : Prop := Forall (fun b => 0 <= b < 256) bs.

(** No relation at all between two worlds. *)
Definition anyhow (w w' : world) : Prop := True.

(** The fault schedule of an oracle never recovers: once a request has
    failed, every later one fails. *)
Definition persistent (o : oracle) : Prop :=
  forall i j, (i <= j)%nat -> fault o i = true -> fault o j = true.

(** The target, what it has to report and the log of [poke_text] are the
    same in both worlds. *)
Definition keeps (w w' : world) : Prop :=
  target w' = target w /\ pending w' = pending w /\
  poke_log w' = poke_log w.

(** Memory [m] holds at [a] the bytes of [v], none of them zero, and a
    zero after them. *)
Definition string_in (m : Z -> Z) (a : Z) (v : list Z) : Prop :=
  (forall k, (k < List.length v)%nat ->
             m (wrap64 (a + Z.of_nat k)) = nth k v 0) /\
  Forall (fun b => 1 <= b < 256) v /\
  m (wrap64 (a + Z.of_nat (List.length v))) mod 256 = 0.

(** The [n] bytes of memory at [a] as a peek returns them. *)
Definition low_bytes (m : Z -> Z) (a : Z) (n : nat) : list Z :=
  map (fun b => b mod 256) (mem_bytes m a n).

(** A request that, if it writes to the target at all, writes a word at
    [pc] or a word inside the page at [page]. *)
Definition writes_within (pc page : Z) (e : request * bool) : Prop :=
  match fst e with
  | PTRACE_POKETEXT a _ =>
      a = pc \/ (page <= a /\ a + 8 <= page + PAGE_SIZE)
  | _ => True
  end.

(** A request that only reads the target's memory. *)
Definition is_peekdata (e : request * bool) : Prop :=
  match fst e with PTRACE_PEEKDATA _ => True | _ => False end.

(** The requests issued between two worlds are all reads. *)
Definition only_peeks (w w' : world) : Prop :=
  exists new, trace w' = new ++ trace w /\ Forall is_peekdata new.

(** The same oracle with a kernel that never refuses a request. *)
Definition clean (o : oracle) : oracle :=
  mk_oracle (fun _ => false) (syscall_ret o) (step_other o) (run o)
            (maps o) (self_pid o) (getenv_local o) (stack_junk o)
            (heap_junk o) (yama_file o).

(** [m] never turns the clock back, and whenever it ends with no more
    than [n] requests issued, [m'] does exactly the same. *)
Definition agree {A : Type} (n : nat) (m m' : M A) : Prop :=
  forall w, (clock w <= clock (snd (m w)))%nat /\
            ((clock (snd (m w)) <= n)%nat -> m' w = m w).


(** ** The course of a lookup in which no request fails *)

(** The word planted at the old instruction pointer. *)
Definition stub_word (o : oracle) : Z :=
  le_word (buf_read (syscall_word o) 0 8).

(** [old_word] once the first [poke_text] has filled it from memory
    [m] at [pc]. *)
Definition saved_word (o : oracle) (m : Z -> Z) (pc : Z) : list Z :=
  buf_write (uninit o 0 8) 0 (le_bytes 8 (load8 m (wrap64 pc))).

(** What [find_library] finds for a process. *)
Definition library_base (o : oracle) (p : Z) : option Z :=
  match maps o p with
  | Some lines => find_in_lines lines libc_string
  | None => None
  end.

(** [blocksize] after the doubling loop. *)
Definition block_size (fuel : nat) (env : list Z) (w : world) : Z :=
  match fst (grow_block fuel 32 (wrap64 (strlen env + 6)) w) with
  | Val b => b
  | _ => 32
  end.

Section Course.

Variable o : oracle.
Variable fuel : nat.
Variable pid : Z.
Variable env : list Z.
Variable w : world.

(** Memory once the stub is planted. *)
Definition patched_mem : Z -> Z :=
  store8 (mem (target w)) (wrap64 (rip (regs (target w)))) (stub_word o).

(** The address the remote [mmap] returns. *)
Definition scratch_page : Z :=
  wrap64 (syscall_ret o (mk_machine (mmap_regs (regs (target w)))
                                    patched_mem)).

(** Memory with the fresh page in it. *)
Definition mapped_mem : Z -> Z :=
  fun a => if in_range scratch_page PAGE_SIZE a then 0 else patched_mem a.

(** The registers once the target has jumped into the page. *)
Definition page_regs : user_regs_struct :=
  let nr := mmap_regs (regs (target w)) in
  let next := wrap64 (rip nr + 2) in
  set_rip scratch_page
    (set_rip next (set_r11 (eflags nr)
       (set_rcx next (set_rax scratch_page nr)))).

(** The displacement of the planted [call]. *)
Definition call_delta : Z :=
  match library_base o pid, library_base o (self_pid o) with
  | Some their_libc, Some our_libc =>
      signed64 (signed64 (wrap64 (their_libc + (getenv_local o - our_libc)))
                - signed64 scratch_page - REL32_SZ)
  | _, _ => 0
  end.

(** Memory when the target is resumed: the call, the trap and the name
    in the page, the stub at the old instruction pointer. *)
Definition trampoline_mem : Z -> Z :=
  let blocksize := block_size fuel env w in
  store8 (poked_mem mapped_mem scratch_page
            (fst (trampoline blocksize call_delta env))
            (Z.to_nat (blocksize / 8)) 0)
         (wrap64 (rip (regs (target w)))) (stub_word o).

(** The target as [PTRACE_CONT] resumes it, and as it stops next. *)
Definition call_machine : machine :=
  mk_machine (set_rdi (wrap64 (scratch_page + 6)) (set_rax 0 page_regs))
             trampoline_mem.

Definition stopped : machine := fst (run o call_machine).

(** Memory when the target is detached. *)
Definition final_mem : Z -> Z :=
  store8 (store8 (mem stopped) (wrap64 (rip (regs stopped)))
                 (le_word (buf_read (jmp_word (syscall_word o)) 0 8)))
         (wrap64 (rip (regs (target w))))
         (le_word (buf_read (saved_word o (mem (target w))
                                        (rip (regs (target w)))) 0 8)).

(** The requests up to the stop on the trap, newest first, and the world
    at that stop. *)
Definition requests_to_stop : list (request * bool) :=
  let pc := wrap64 (rip (regs (target w))) in
  let blocksize := block_size fuel env w in
  [(PTRACE_GETREGS, true); (WAIT, true); (PTRACE_CONT, true);
   (PTRACE_SETREGS (regs call_machine), true);
   (PTRACE_POKETEXT pc (stub_word o), true)]
  ++ poked_trace scratch_page (fst (trampoline blocksize call_delta env))
                 (Z.to_nat (blocksize / 8)) 0
  ++ [(PTRACE_GETREGS, true); (WAIT, true); (PTRACE_SINGLESTEP, true);
      (PTRACE_GETREGS, true); (WAIT, true); (PTRACE_SINGLESTEP, true);
      (PTRACE_SETREGS (mmap_regs (regs (target w))), true);
      (PTRACE_POKETEXT pc (stub_word o), true); (PTRACE_PEEKTEXT pc, true);
      (PTRACE_GETREGS, true); (WAITPID, true); (PTRACE_ATTACH, true)].

Definition stop_world : world :=
  mk_world stopped None
           (17 + Z.to_nat (block_size fuel env w / 8) + clock w)
           (requests_to_stop ++ trace w)
           ((rip (regs (target w)), 8)
            :: (scratch_page, block_size fuel env w)
            :: (rip (regs (target w)), 8) :: poke_log w)
           (out w) (err w).

(** The requests from the jump back to the detach, newest first, and
    the world after them when they start in [w']. *)
Definition requests_from_stop : list (request * bool) :=
  let pc := rip (regs (target w)) in
  let back := set_rip pc (set_rax pc (regs stopped)) in
  [(PTRACE_DETACH, true);
   (PTRACE_SETREGS (regs (target w)), true);
   (PTRACE_POKETEXT (wrap64 pc)
      (le_word (buf_read (saved_word o (mem (target w)) pc) 0 8)), true);
   (PTRACE_GETREGS, true); (WAIT, true); (PTRACE_SINGLESTEP, true);
   (PTRACE_SETREGS
      (set_rsi PAGE_SIZE (set_rdi scratch_page (set_rax 11 back))), true);
   (PTRACE_GETREGS, true); (WAIT, true); (PTRACE_SINGLESTEP, true);
   (PTRACE_POKETEXT (wrap64 (rip (regs stopped)))
      (le_word (buf_read (jmp_word (syscall_word o)) 0 8)), true);
   (PTRACE_SETREGS (set_rax pc (regs stopped)), true)].

Definition end_world (w' : world) : world :=
  mk_world (mk_machine (regs (target w)) final_mem) None
           (12 + clock w')
           (requests_from_stop ++ trace w')
           ((rip (regs (target w)), 8) :: (rip (regs stopped), 8)
            :: poke_log w')
           (out w') (err w').

(** What the target has to be like for the lookup to go through: a
    process that exists, an instruction pointer with sixteen bytes of
    text after it, a page mapped away from them and big enough for the
    name, maps files of both processes that [find_library] reads without
    running past the end of a line, a [getenv] within reach of a [call]
    from the page, and a target that, resumed on the planted call,
    leaves its text alone and stops on the trap after it. *)
Record well_behaved : Prop := {
  wb_pid : 0 < pid;
  wb_fuel : (7 <= fuel)%nat;
  wb_name : strlen env + 6 <= PAGE_SIZE;
  wb_rip : 0 <= rip (regs (target w)) /\ rip (regs (target w)) + 16 <= 2 ^ 64;
  wb_page : is_errno scratch_page = false;
  wb_apart : rip (regs (target w)) + 16 <= scratch_page \/
             scratch_page + PAGE_SIZE <= rip (regs (target w));
  wb_their_libc : library_base o pid <> None;
  wb_our_libc : library_base o (self_pid o) <> None;
  wb_reach : INT_MIN <= call_delta <= INT_MAX;
  wb_trap : snd (run o call_machine) = WStopped SIGTRAP;
  wb_after_trap : rip (regs stopped) = scratch_page + 6;
  wb_text : mem_bytes (mem stopped) (rip (regs (target w))) 16
            = mem_bytes trampoline_mem (rip (regs (target w))) 16
}.

End Course.

(** ** The target as the lookup needs it *)

(** The address the [call rel32] at the instruction pointer of [m] goes
    to. *)
Definition call_target (m : machine) : Z :=
  let pc := rip (regs m) in
  let rel := le_word (map (fun k => mem m (pc + 1 + Z.of_nat k)) (seq 0 4)) in
  wrap64 (pc + 5 + (if rel <? 2 ^ 31 then rel else rel - 2 ^ 32)).

(** [a] is one of the [red] bytes below the stack pointer [sp]. *)
Definition below_stack (sp red a : Z) : Prop := wrap64 (a - (sp - red)) < red.

(** What the target does when it is resumed on a call of its [getenv]
    that is followed by a breakpoint, with [rdi] pointing to the string
    [name] and a zero byte after it: it stops on the breakpoint with [p] in [rax], having written
    to no memory but the [red] bytes below its stack pointer. *)
Definition answers_getenv (o : oracle) (their_getenv : Z) (name : list Z)
    (p red : Z) : Prop :=
  forall m : machine,
    0 <= rip (regs m) -> rip (regs m) + 6 < 2 ^ 64 ->
    mem m (rip (regs m)) = 232 ->
    call_target m = their_getenv ->
    mem m (rip (regs m) + 5) = 204 ->
    0 <= rdi (regs m) ->
    rdi (regs m) + Z.of_nat (List.length name) < 2 ^ 64 ->
    string_in (mem m) (rdi (regs m)) name ->
    mem m (rdi (regs m) + Z.of_nat (List.length name)) = 0 ->
    snd (run o m) = WStopped SIGTRAP /\
    rip (regs (fst (run o m))) = rip (regs m) + 6 /\
    rax (regs (fst (run o m))) = p /\
    forall a, ~ below_stack (rsp (regs m)) red a ->
              mem (fst (run o m)) a = mem m a.

(** [a] is an address the session leaves alone: outside the scratch
    page, outside the eight bytes at the old instruction pointer, and
    not among the [red] bytes below the stack pointer of the target. *)
Definition untouched (o : oracle) (w : world) (red a : Z) : Prop :=
  PAGE_SIZE <= wrap64 (a - scratch_page o w) /\
  8 <= wrap64 (a - rip (regs (target w))) /\
  ~ below_stack (rsp (regs (target w))) red a.

(** * Properties *)

Open Scope prog_scope.

(** ** The mapping inspector *)

Lemma prefixb_spec (p s : list Z) :
  prefixb p s = true <-> exists rest, s = p ++ rest.
Proof.
  revert s; induction p as [|a p IH]; intros s; simpl.
  - split; [intros _; now exists s | reflexivity].
  - destruct s as [|b s].
    + split; [discriminate | intros [rest H]; discriminate].
    + rewrite andb_true_iff, Z.eqb_eq, IH. split.
      * intros [-> [rest ->]]. now exists rest.
      * intros [rest H]. injection H as -> ->. split; [reflexivity | now exists rest].
Qed.

Lemma occurs_at_0 (pat hay : list Z) :
  occurs_at pat hay 0 <-> prefixb pat hay = true.
Proof. unfold occurs_at; simpl. symmetry. apply prefixb_spec. Qed.

Lemma occurs_at_S (pat : list Z) (c : Z) (hay : list Z) (i : nat) :
  occurs_at pat (c :: hay) (S i) <-> occurs_at pat hay i.
Proof. unfold occurs_at; simpl; tauto. Qed.

Lemma occurs_at_nil (pat : list Z) (i : nat) :
  occurs_at pat [] i -> occurs_at pat [] 0.
Proof. unfold occurs_at. now destruct i. Qed.

Lemma first_occurrence_0 (pat hay : list Z) (i : nat) :
  occurs_at pat hay 0 -> first_occurrence pat hay i -> i = O.
Proof.
  intros H0 [_ Hmin]. destruct i; [reflexivity|].
  exfalso. apply (Hmin O); [lia | exact H0].
Qed.

Lemma first_occurrence_S (pat : list Z) (c : Z) (hay : list Z) (i : nat) :
  ~ occurs_at pat (c :: hay) 0 ->
  (first_occurrence pat (c :: hay) (S i) <-> first_occurrence pat hay i).
Proof.
  intros H0. unfold first_occurrence. rewrite occurs_at_S. split.
  - intros [Hocc Hmin]. split; [exact Hocc|].
    intros j Hj Hoc. apply (Hmin (S j)); [lia | now apply occurs_at_S].
  - intros [Hocc Hmin]. split; [exact Hocc|].
    intros [|j] Hj; [exact H0|]. rewrite occurs_at_S. apply Hmin. lia.
Qed.

Lemma strstr_Some (pat hay : list Z) (i : nat) :
  strstr hay pat = Some i <-> first_occurrence pat hay i.
Proof.
  revert i; induction hay as [|c hay IH]; intros i; simpl.
  - destruct (prefixb pat []) eqn:E.
    + apply occurs_at_0 in E. split.
      * intros [= <-]. split; [exact E | intros j Hj; lia].
      * intros H. now rewrite (first_occurrence_0 _ _ _ E H).
    + split; [discriminate|]. intros [Hocc _].
      apply occurs_at_nil, occurs_at_0 in Hocc. congruence.
  - destruct (prefixb pat (c :: hay)) eqn:E.
    + apply occurs_at_0 in E. split.
      * intros [= <-]. split; [exact E | intros j Hj; lia].
      * intros H. now rewrite (first_occurrence_0 _ _ _ E H).
    + assert (E0 : ~ occurs_at pat (c :: hay) 0).
      { rewrite occurs_at_0. congruence. }
      destruct i as [|i].
      * split.
        -- destruct (strstr hay pat); discriminate.
        -- intros [Hocc _]. contradiction.
      * rewrite (first_occurrence_S _ _ _ _ E0), <- IH.
        destruct (strstr hay pat) as [k|]; simpl; split; congruence.
Qed.

Lemma strstr_None (pat hay : list Z) :
  strstr hay pat = None <-> forall i, ~ occurs_at pat hay i.
Proof.
  induction hay as [|c hay IH]; simpl.
  - destruct (prefixb pat []) eqn:E.
    + split; [discriminate|]. intros H. exfalso. apply (H O).
      now apply occurs_at_0.
    + split; [|reflexivity]. intros _ i Hocc.
      apply occurs_at_nil, occurs_at_0 in Hocc. congruence.
  - destruct (prefixb pat (c :: hay)) eqn:E.
    + split; [discriminate|]. intros H. exfalso. apply (H O).
      now apply occurs_at_0.
    + destruct (strstr hay pat) as [k|] eqn:Ek; simpl.
      * split; [discriminate|]. intros H. exfalso.
        apply strstr_Some in Ek as [Hk _].
        apply (H (S k)). now apply occurs_at_S.
      * split; [|reflexivity]. intros _ [|i] Hocc.
        -- apply occurs_at_0 in Hocc. congruence.
        -- apply occurs_at_S in Hocc. destruct IH as [IH _].
           now apply (IH eq_refl i).
Qed.

Lemma until_nul_id (s : list Z) : nul_free s -> until_nul s = s.
Proof.
  induction 1 as [|c s Hc _ IH]; simpl; [reflexivity|].
  destruct (Z.eqb_spec c 0); [contradiction | now rewrite IH].
Qed.

(** What [line_selected] computes for a needle as long as ["/libc"]. *)
Lemma line_selected_spec (needle line : list Z) :
  List.length needle = List.length libc_string ->
  (line_selected line needle = Some true <-> line_taken needle line) /\
  (line_selected line needle = Some false <-> ~ line_taken needle line).
Proof.
  change (List.length libc_string) with 5%nat.
  intros Hlen. unfold line_selected, line_taken.
  destruct (strstr line needle) as [pos|] eqn:Epos.
  2:{ assert (Hno := proj1 (strstr_None _ _) Epos).
      assert (Hnot : ~ ((exists j, occurs_at text_area line j) /\
                        exists i, first_occurrence needle line i /\
                                  ~ lowercase (nth (i + List.length needle) line 0))).
      { intros [_ [i [[Hocc _] _]]]. now apply Hno in Hocc. }
      split; split; try discriminate; try reflexivity; tauto. }
  assert (Hfirst := proj1 (strstr_Some _ _ _) Epos).
  destruct (strstr line text_area) as [j|] eqn:Ej.
  2:{ assert (Hno := proj1 (strstr_None _ _) Ej).
      assert (Hnot : ~ ((exists j, occurs_at text_area line j) /\
                        exists i, first_occurrence needle line i /\
                                  ~ lowercase (nth (i + List.length needle) line 0))).
      { intros [[k Hk] _]. now apply Hno in Hk. }
      split; split; try discriminate; try reflexivity; tauto. }
  assert (Harea : exists k, occurs_at text_area line k).
  { exists j. now apply strstr_Some in Ej as [? _]. }
  assert (Hin : (pos + 5 <= List.length line)%nat).
  { destruct Hfirst as [[rest Hocc] _].
    assert (Hl : List.length (skipn pos line) = List.length (needle ++ rest))
      by now rewrite Hocc.
    rewrite length_skipn, length_app in Hl. lia. }
  assert (Huniq : forall i, first_occurrence needle line i -> i = pos).
  { intros i Hi. apply strstr_Some in Hi. congruence. }
  unfold char_after. change (strlen libc_string) with 5.
  change (Z.to_nat 5) with 5%nat.
  assert (Hc : (if (pos + 5 <? List.length line)%nat
                then Some (nth (pos + 5) line 0)
                else if (pos + 5 =? List.length line)%nat
                     then Some 0 else None) = Some (nth (pos + 5) line 0)).
  { destruct (Nat.ltb_spec (pos + 5) (List.length line)); [reflexivity|].
    destruct (Nat.eqb_spec (pos + 5) (List.length line)); [|lia].
    now rewrite nth_overflow by lia. }
  rewrite Hc, Hlen. set (c := nth (pos + 5) line 0).
  assert (Hlow : (c <? 97) || (c >? 122) = true <-> ~ lowercase c).
  { unfold lowercase. rewrite orb_true_iff, Z.ltb_lt, Z.gtb_gt. lia. }
  assert (Htaken : ((exists j, occurs_at text_area line j) /\
                    exists i, first_occurrence needle line i /\
                              ~ lowercase (nth (i + 5) line 0))
                   <-> (c <? 97) || (c >? 122) = true).
  { rewrite Hlow. split.
    - intros [_ [i [Hi Hnl]]]. now apply Huniq in Hi as ->.
    - intros Hnl. split; [exact Harea|]. now exists pos. }
  rewrite Htaken.
  destruct ((c <? 97) || (c >? 122)); split; split; congruence.
Qed.

Lemma strtol_digits_hex (ds rest : list Z) (acc : Z) :
  Forall is_hex_digit ds ->
  strtol_digits 16 (ds ++ 45 :: rest) acc =
  fold_left (fun a c => match digit_value c with
                        | Some d => a * 16 + d
                        | None => a
                        end) ds acc.
Proof.
  intros H; revert acc; induction H as [|c ds [d [Hd Hr]] _ IH]; intros acc.
  - reflexivity.
  - simpl. rewrite Hd. destruct (Z.ltb_spec d 16); [apply IH | lia].
Qed.

Lemma hex_digit_range (c : Z) :
  is_hex_digit c -> 48 <= c <= 57 \/ 97 <= c <= 102 \/ 65 <= c <= 70.
Proof.
  intros [d [Hd Hr]]. unfold digit_value in Hd.
  destruct (Z.leb_spec 48 c), (Z.leb_spec c 57); simpl in Hd; try lia;
    destruct (Z.leb_spec 97 c), (Z.leb_spec c 122); simpl in Hd;
    try (injection Hd as <-; lia);
    destruct (Z.leb_spec 65 c), (Z.leb_spec c 90); simpl in Hd;
    try (injection Hd as <-; lia); discriminate.
Qed.

Lemma hex_digit_cases (c : Z) :
  is_hex_digit c ->
  isspace c = false /\ c <> 45 /\ c <> 43 /\ c <> 120 /\ c <> 88.
Proof.
  intros H. apply hex_digit_range in H. unfold isspace.
  repeat split; lia.
Qed.

(** [strtol] in base 16 on a line that starts with an address range. *)
Lemma strtol_start_address (ds rest : list Z) :
  ds <> [] -> Forall is_hex_digit ds ->
  0 <= InspectorSpec.hex_value ds /\
  fst (strtol (ds ++ 45 :: rest) 16)
  = Z.min (InspectorSpec.hex_value ds) LONG_MAX.
Proof.
  intros Hne Hds. destruct ds as [|c ds]; [contradiction|].
  assert (Hc := Forall_inv Hds).
  apply hex_digit_cases in Hc as (Hsp & H45 & H43 & _).
  assert (Hskip : skip_space ((c :: ds) ++ 45 :: rest) = (c :: ds) ++ 45 :: rest).
  { simpl. now rewrite Hsp. }
  assert (Hsign : strtol_sign ((c :: ds) ++ 45 :: rest)
                  = (false, (c :: ds) ++ 45 :: rest)).
  { simpl. destruct (Z.eqb_spec c 45); [contradiction|].
    destruct (Z.eqb_spec c 43); [contradiction | reflexivity]. }
  assert (Hpre : strtol_prefix 16 ((c :: ds) ++ 45 :: rest)
                 = (c :: ds) ++ 45 :: rest).
  { simpl. destruct ds as [|x ds]; simpl.
    - destruct rest; [reflexivity|]. simpl. now rewrite andb_false_r.
    - assert (Hx : is_hex_digit x).
      { apply Forall_inv_tail in Hds. now apply Forall_inv in Hds. }
      apply hex_digit_cases in Hx as (_ & _ & _ & H120 & H88).
      destruct (Z.eqb_spec x 120); [contradiction|].
      destruct (Z.eqb_spec x 88); [contradiction|].
      destruct (ds ++ 45 :: rest); [reflexivity|].
      now rewrite andb_false_r. }
  unfold strtol. rewrite Hskip, Hsign, Hpre.
  rewrite (strtol_digits_hex (c :: ds) rest 0 Hds).
  fold (InspectorSpec.hex_value (c :: ds)).
  assert (Hpos : 0 <= InspectorSpec.hex_value (c :: ds)).
  { unfold InspectorSpec.hex_value.
    assert (G : forall l a, Forall is_hex_digit l -> 0 <= a ->
              0 <= fold_left (fun a c => match digit_value c with
                                      | Some d => a * 16 + d | None => a end) l a).
    { induction l as [|y l IHl]; intros a Hl Ha; simpl; [exact Ha|].
      apply IHl; [now apply Forall_inv_tail in Hl|].
      apply Forall_inv in Hl as [d [-> Hd]]. lia. }
    apply G; [exact Hds | lia]. }
  split; [exact Hpos|].
  destruct (Z.ltb_spec (InspectorSpec.hex_value (c :: ds)) LONG_MIN).
  { unfold LONG_MIN in *. lia. }
  destruct (Z.ltb_spec LONG_MAX (InspectorSpec.hex_value (c :: ds)));
    cbn [fst]; lia.
Qed.

Lemma until_nul_libname (needle : list Z) :
  nul_free needle -> until_nul needle = needle.
Proof. apply until_nul_id. Qed.

Lemma find_in_lines_none (needle : list Z) (lines : list (list Z)) :
  List.length needle = List.length libc_string ->
  nul_free needle -> Forall nul_free lines ->
  (forall l, In l lines -> ~ line_taken needle l) ->
  find_in_lines lines needle = Some 0.
Proof.
  intros Hlen Hn Hl Hnone. induction Hl as [|l lines Hnf _ IH]; [reflexivity|].
  simpl. rewrite (until_nul_id l Hnf), (until_nul_id needle Hn).
  destruct (line_selected_spec needle l Hlen) as [_ [_ Hf]].
  rewrite (Hf (Hnone l (or_introl eq_refl))).
  apply IH. intros l' Hin. apply Hnone. now right.
Qed.

Lemma find_in_lines_first (needle : list Z) (pre : list (list Z))
    (line : list Z) (post : list (list Z)) :
  List.length needle = List.length libc_string ->
  nul_free needle -> Forall nul_free (pre ++ line :: post) ->
  (forall l, In l pre -> ~ line_taken needle l) ->
  line_taken needle line ->
  find_in_lines (pre ++ line :: post) needle
  = Some (wrap64 (fst (strtol line 16))).
Proof.
  intros Hlen Hn Hl Hpre Htaken. induction pre as [|l pre IH]; simpl.
  - assert (Hnf : nul_free line) by now apply Forall_inv in Hl.
    rewrite (until_nul_id line Hnf), (until_nul_id needle Hn).
    destruct (line_selected_spec needle line Hlen) as [[_ Ht] _].
    now rewrite (Ht Htaken).
  - assert (Hnf : nul_free l) by now apply Forall_inv in Hl.
    rewrite (until_nul_id l Hnf), (until_nul_id needle Hn).
    destruct (line_selected_spec needle l Hlen) as [_ [_ Hf]].
    rewrite (Hf (Hpre l (or_introl eq_refl))).
    apply IH; [now apply Forall_inv_tail in Hl|].
    intros l' Hin. apply Hpre. now right.
Qed.

(** C7 (as amended).  For a needle as long as ["/libc"], [find_library]
    returns the hexadecimal number that starts the first line of the maps
    file which holds [" r-xp "] anywhere and in which the first
    occurrence of the needle, anywhere in the line, is not followed by a
    lowercase letter; a number above [LONG_MAX] comes back as
    [LONG_MAX], which is what [strtol] makes of it.  It returns [NULL]
    when the file has no such line. *)
Theorem find_library_first_taken (o : oracle) (pid : Z) (needle : list Z)
    (lines : list (list Z)) (w : world) :
  maps o pid = Some lines ->
  List.length needle = List.length libc_string ->
  nul_free needle -> Forall nul_free lines ->
  (forall pre line post ds rest,
      lines = pre ++ line :: post ->
      (forall l, In l pre -> ~ line_taken needle l) ->
      line_taken needle line ->
      line = ds ++ 45 :: rest -> ds <> [] -> Forall is_hex_digit ds ->
      find_library o pid needle w
      = (Val (Z.min (InspectorSpec.hex_value ds) LONG_MAX), w)) /\
  ((forall l, In l lines -> ~ line_taken needle l) ->
   find_library o pid needle w = (Val 0, w)).
Proof.
  intros Hmaps Hlen Hn Hl. unfold find_library. rewrite Hmaps. split.
  - intros pre line post ds rest -> Hpre Htaken -> Hne Hds.
    rewrite (find_in_lines_first needle pre _ post Hlen Hn Hl Hpre Htaken).
    destruct (strtol_start_address ds rest Hne Hds) as [Hpos ->].
    unfold ret, wrap64. rewrite Z.mod_small; [reflexivity|].
    unfold LONG_MAX. change (2 ^ 63) with 9223372036854775808.
    change (2 ^ 64) with 18446744073709551616. lia.
  - intros Hnone. now rewrite (find_in_lines_none needle lines Hlen Hn Hl Hnone).
Qed.

Lemma nul_free_dec (s : list Z) : forallb (fun c => negb (c =? 0)) s = true -> nul_free s.
Proof.
  unfold nul_free. rewrite forallb_forall, Forall_forall.
  intros H c Hc. apply H in Hc. lia.
Qed.

Lemma hex_digits_dec (s : list Z) :
  forallb (is_digit_in 16) s = true -> Forall is_hex_digit s.
Proof.
  rewrite forallb_forall, Forall_forall. intros H c Hc. apply H in Hc.
  unfold is_digit_in in Hc. unfold is_hex_digit.
  destruct (digit_value c) as [d|] eqn:E; [|discriminate].
  exists d. split; [reflexivity|]. split; [|lia].
  unfold digit_value in E.
  destruct ((48 <=? c) && (c <=? 57)) eqn:E1; [injection E as <-; lia|].
  destruct ((97 <=? c) && (c <=? 122)) eqn:E2; [injection E as <-; lia|].
  destruct ((65 <=? c) && (c <=? 90)) eqn:E3; [injection E as <-; lia|].
  discriminate.
Qed.

(** The harness: the libc of the target is found on the third line. *)
Lemma find_library_first_taken_witness :
  find_library Harness.oracle0 Harness.target_pid libc_string Harness.world0
  = (Val Harness.their_libc_base, Harness.world0).
Proof.
  assert (Hnf : Forall nul_free Harness.target_maps).
  { apply Forall_forall. intros l Hin.
    destruct Hin as [<- | [<- | [<- | []]]];
      apply nul_free_dec; vm_compute; reflexivity. }
  assert (Hneedle : nul_free libc_string).
  { apply nul_free_dec; vm_compute; reflexivity. }
  destruct (find_library_first_taken Harness.oracle0 Harness.target_pid
              libc_string Harness.target_maps Harness.world0
              eq_refl eq_refl Hneedle Hnf) as [Hfirst _].
  change Harness.their_libc_base
    with (Z.min (InspectorSpec.hex_value (bytes "7f0000248000")) LONG_MAX).
  apply (Hfirst (firstn 2 Harness.target_maps)
                (nth 2 Harness.target_maps [])
                []
                (bytes "7f0000248000")
                (bytes "7f00003bd000 r-xp 00028000 08:01 977 /usr/lib/libc.so.6
")).
  - reflexivity.
  - intros l Hin. apply (line_selected_spec libc_string l eq_refl).
    destruct Hin as [<- | [<- | []]]; vm_compute; reflexivity.
  - apply (line_selected_spec libc_string _ eq_refl). vm_compute; reflexivity.
  - vm_compute; reflexivity.
  - discriminate.
  - apply hex_digits_dec. vm_compute; reflexivity.
Defined.

(** C7 (as stated) fails: a line whose permissions field is [rw-p] is
    taken when its path holds [" r-xp "]. *)
Lemma find_library_perms_counterexample :
  let line := bytes "00400000-00452000 rw-p 00000000 08:01 131 /tmp/a r-xp b/libc.so.6
" in
  InspectorSpec.perms_field line = bytes "rw-p" /\
  InspectorSpec.find_library [line] libc_string = 0 /\
  find_library (Harness.oracle_maps [line]) Harness.target_pid
    libc_string Harness.world0 = (Val 4194304, Harness.world0).
Proof.
  intros line.
  split; [vm_compute; reflexivity|].
  split; [vm_compute; reflexivity|].
  unfold find_library.
  replace (maps (Harness.oracle_maps [line]) Harness.target_pid)
    with (Some [line]) by reflexivity.
  replace (find_in_lines [line] libc_string) with (Some 4194304)
    by (vm_compute; reflexivity).
  reflexivity.
Qed.

(** ** What every stretch of the program preserves *)

Section Steps.

Variable R : world -> world -> Prop.
Hypothesis R_refl : forall w, R w w.
Hypothesis R_trans : forall w1 w2 w3, R w1 w2 -> R w2 w3 -> R w1 w3.

Lemma steps_weaken {A : Type} (S S' : Z -> Prop) (m : M A)
    (V V' : A -> Prop) :
  steps R S m V -> (forall z, S z -> S' z) -> (forall a, V a -> V' a) ->
  steps R S' m V'.
Proof.
  intros H HS HV w. destruct (H w) as [H1 H2]. split; [exact H1|].
  destruct (fst (m w)); auto.
Qed.

Lemma steps_ret {A : Type} S (a : A) (V : A -> Prop) :
  V a -> steps R S (ret a) V.
Proof. intros Ha w. split; [apply R_refl | exact Ha]. Qed.

Lemma steps_return {A : Type} (S : Z -> Prop) r (V : A -> Prop) :
  S r -> steps R S (return_ r) V.
Proof. intros Hr w. split; [apply R_refl | exact Hr]. Qed.

Lemma steps_exit {A : Type} S c (V : A -> Prop) :
  c = 1 -> steps R S (exit_ c) V.
Proof. intros Hc w. split; [apply R_refl | exact Hc]. Qed.

Lemma steps_goto_fail {A : Type} S (V : A -> Prop) : steps R S goto_fail V.
Proof. intros w. split; [apply R_refl | exact I]. Qed.

Lemma steps_diverge {A : Type} S (V : A -> Prop) : steps R S diverge V.
Proof. intros w. split; [apply R_refl | exact I]. Qed.

Lemma steps_undefined {A : Type} S (V : A -> Prop) : steps R S undefined V.
Proof. intros w. split; [apply R_refl | exact I]. Qed.

Lemma steps_bind {A B : Type} S (m : M A) (k : A -> M B)
    (U : A -> Prop) (V : B -> Prop) :
  steps R S m U -> (forall a, U a -> steps R S (k a) V) ->
  steps R S (bind m k) V.
Proof.
  intros Hm Hk w. unfold bind. destruct (Hm w) as [H1 H2].
  destruct (m w) as [[a| | | | |] w1]; simpl in *;
    try (split; [exact H1 | exact H2]).
  destruct (Hk a H2 w1) as [H3 H4].
  split; [eapply R_trans; eassumption | exact H4].
Qed.

Lemma steps_bind_any {A B : Type} S (m : M A) (k : A -> M B)
    (V : B -> Prop) :
  steps R S m any -> (forall a, steps R S (k a) V) -> steps R S (bind m k) V.
Proof. intros Hm Hk. apply (steps_bind S m k any V Hm). intros a _. apply Hk. Qed.

Lemma steps_when S (c : bool) (body : M unit) (V : unit -> Prop) :
  V tt -> steps R S body V -> steps R S (when c body) V.
Proof. intros Ht Hb. destruct c; [exact Hb | now apply steps_ret]. Qed.

(** At a call the early returns of the body become values. *)
Lemma steps_call S S' (body : M Z) (V : Z -> Prop) :
  steps R S body V -> steps R S' (call body) (fun z => V z \/ S z).
Proof.
  intros H w. unfold call. destruct (H w) as [H1 H2].
  destruct (body w) as [[a| | | | |] w1]; simpl in *; split; auto.
Qed.

Lemma steps_with_fail_label {A : Type} S (body handler : M A)
    (V : A -> Prop) :
  steps R S body V -> steps R S handler V ->
  steps R S (with_fail_label body handler) V.
Proof.
  intros Hb Hh w. unfold with_fail_label. destruct (Hb w) as [H1 H2].
  destruct (body w) as [[a| | | | |] w1]; simpl in *;
    try (split; [exact H1 | exact H2]).
  destruct (Hh w1) as [H3 H4]. split; [eapply R_trans; eassumption | exact H4].
Qed.

Hypothesis R_issue : forall rq ok tgt pend w, R w (issue rq ok tgt pend w).
Hypothesis R_output : forall w o' e',
  R w (mk_world (target w) (pending w) (clock w) (trace w) (poke_log w) o' e').
Hypothesis R_log : forall a len w, len mod 8 = 0 ->
  R w (mk_world (target w) (pending w) (clock w) (trace w)
                ((a, len) :: poke_log w) (out w) (err w)).

Variable o : oracle.

Ltac prim :=
  unfold steps; intros; cbv beta delta [ptrace_attach ptrace_detach ptrace_getregs
    ptrace_setregs ptrace_peektext ptrace_peekdata ptrace_poketext
    ptrace_singlestep ptrace_cont sys_waitpid sys_wait refused eprint perror
    print];
  repeat match goal with
         | |- context [if ?c then _ else _] => destruct c
         | |- context [match pending ?w with _ => _ end] => destruct (pending w)
         | |- context [let '(_, _) := ?p in _] => destruct p
         end;
  simpl;
  (split;
   [ first [apply R_issue | apply R_output | apply R_refl]
   | exact I ]).

Lemma steps_attach S pid : steps R S (ptrace_attach o pid) any. Proof. prim. Qed.
Lemma steps_detach S pid : steps R S (ptrace_detach o pid) any. Proof. prim. Qed.
Lemma steps_getregs S pid : steps R S (ptrace_getregs o pid) any. Proof. prim. Qed.
Lemma steps_setregs S pid r : steps R S (ptrace_setregs o pid r) any. Proof. prim. Qed.
Lemma steps_peektext S pid a : steps R S (ptrace_peektext o pid a) any. Proof. prim. Qed.
Lemma steps_peekdata S pid a : steps R S (ptrace_peekdata o pid a) any. Proof. prim. Qed.
Lemma steps_poketext S pid a d : steps R S (ptrace_poketext o pid a d) any. Proof. prim. Qed.
Lemma steps_singlestep S pid : steps R S (ptrace_singlestep o pid) any. Proof. prim. Qed.
Lemma steps_cont S pid : steps R S (ptrace_cont o pid) any. Proof. prim. Qed.
Lemma steps_waitpid S pid : steps R S (sys_waitpid o pid) any. Proof. prim. Qed.
Lemma steps_wait S : steps R S (sys_wait o) any. Proof. prim. Qed.
Lemma steps_eprint S msg : steps R S (eprint msg) any. Proof. prim. Qed.
Lemma steps_perror S msg : steps R S (perror msg) any. Proof. prim. Qed.
Lemma steps_print S bs : steps R S (print bs) any. Proof. prim. Qed.

Ltac leaf :=
  first [ apply steps_attach | apply steps_detach | apply steps_getregs
        | apply steps_setregs | apply steps_peektext | apply steps_peekdata
        | apply steps_poketext | apply steps_singlestep | apply steps_cont
        | apply steps_waitpid | apply steps_wait | apply steps_eprint
        | apply steps_perror | apply steps_print
        | apply steps_return;
          first [reflexivity | now left | now right | now (right; left)
                | now (right; right)]
        | apply steps_goto_fail | apply steps_exit; reflexivity
        | apply steps_diverge | apply steps_undefined
        | apply steps_ret; exact I ].

Ltac walk known :=
  repeat first
    [ leaf
    | known
    | apply steps_when; [exact I|]
    | apply steps_bind_any; [|intros]
    | match goal with
      | |- steps _ _ (match ?x with _ => _ end) _ => destruct x
      | |- steps _ _ (if ?c then _ else _) _ => destruct c
      end ].

Ltac nothing := fail.

Lemma steps_check_yama S : steps R S (check_yama o) any.
Proof. unfold check_yama. walk nothing. Qed.

Lemma steps_find_library S pid libname :
  steps R S (find_library o pid libname) any.
Proof. unfold find_library. walk nothing. Qed.

Lemma steps_poke_words S n pid where_ new_text old_text copied :
  steps R S (poke_words o n pid where_ new_text old_text copied) any.
Proof.
  revert old_text copied; induction n as [|n IH]; intros old_text copied; simpl.
  - walk nothing.
  - walk ltac:(apply IH).
Qed.

Lemma steps_poke_text S pid where_ new_text old_text len :
  len mod 8 = 0 ->
  steps R S (poke_text o pid where_ new_text old_text len) any.
Proof.
  intros Hlen. unfold poke_text. apply steps_bind_any.
  - intros w. split; [now apply R_log | exact I].
  - intros _. walk ltac:(apply steps_poke_words).
Qed.

Lemma steps_do_wait S name : steps R S (do_wait o name) any.
Proof. unfold do_wait. walk nothing. Qed.

Lemma steps_singlestep_fn S pid : steps R S (singlestep o pid) any.
Proof. unfold singlestep. walk ltac:(apply steps_do_wait). Qed.

Lemma steps_compute_jmp S from to : steps R S (compute_jmp from to) any.
Proof. unfold compute_jmp. walk nothing. Qed.

Lemma wrap64_double_mod8 b : b mod 8 = 0 -> wrap64 (Z.shiftl b 1) mod 8 = 0.
Proof.
  intros H. unfold wrap64. rewrite Z.shiftl_mul_pow2 by lia.
  change (2 ^ 1) with 2. change (2 ^ 64) with 18446744073709551616.
  Z.div_mod_to_equations. lia.
Qed.

Lemma steps_grow_block S fuel b m :
  b mod 8 = 0 -> steps R S (grow_block fuel b m) (fun r => r mod 8 = 0).
Proof.
  revert b; induction fuel as [|fuel IH]; intros b Hb; simpl.
  - destruct (b <? m); [apply steps_diverge | now apply steps_ret].
  - destruct (b <? m); [|now apply steps_ret].
    apply IH. now apply wrap64_double_mod8.
Qed.

Lemma steps_scan_loop S fuel pid offs :
  steps R S (scan_loop o fuel pid offs) any.
Proof.
  revert offs; induction fuel as [|fuel IH]; intros offs; simpl.
  - walk nothing.
  - walk ltac:(apply IH).
Qed.

Lemma steps_copy_loop S n pid offs buf i :
  steps R S (copy_loop o n pid offs buf i) any.
Proof.
  revert offs buf i; induction n as [|n IH]; intros offs buf i; simpl.
  - walk nothing.
  - walk ltac:(apply IH).
Qed.

Lemma steps_print_line S buf : steps R S (print_line buf) any.
Proof. unfold print_line. walk nothing. Qed.

Ltac blocks :=
  first [ apply steps_check_yama | apply steps_find_library
        | apply steps_poke_text; first [reflexivity | assumption]
        | apply steps_do_wait | apply steps_singlestep_fn
        | apply steps_compute_jmp | apply steps_scan_loop
        | apply steps_copy_loop | apply steps_print_line ].

(** The fail path returns 1 and nothing else. *)
Lemma steps_fail_path pid rip_ old_word :
  steps R (eq 1) (fail_path o pid rip_ old_word) (fun _ => False).
Proof.
  unfold fail_path.
  apply steps_bind_any; [blocks | intros _].
  apply steps_bind_any; [leaf | intros r].
  apply steps_bind_any; [walk nothing | intros _].
  now apply steps_return.
Qed.

(** Before the first patch, and once after it, the program returns -1. *)
Lemma steps_attach_target pid : steps R (eq (-1)) (attach_target o pid) any.
Proof. unfold attach_target. walk blocks. Qed.

Lemma steps_remote_mmap pid newregs :
  steps R (eq (-1)) (remote_mmap o pid newregs) any.
Proof. unfold remote_mmap. walk blocks. Qed.

Lemma steps_write_trampoline S fuel pid rip_ new_word mmap_memory env :
  steps R S (write_trampoline o fuel pid rip_ new_word mmap_memory env) any.
Proof.
  unfold write_trampoline, trampoline.
  apply steps_bind_any; [blocks | intros their_libc].
  apply steps_bind_any; [blocks | intros our_libc].
  apply (steps_bind _ _ _ (fun r => r mod 8 = 0));
    [now apply steps_grow_block | intros blocksize Hb].
  walk blocks.
Qed.

Lemma steps_remote_call S pid mmap_memory offset newregs :
  steps R S (remote_call o pid mmap_memory offset newregs) any.
Proof. unfold remote_call. walk blocks. Qed.

Lemma steps_read_result S fuel pid newregs :
  steps R S (read_result o fuel pid newregs) any.
Proof. unfold read_result. walk blocks. Qed.

Lemma steps_jump_back S pid rip_ new_word newregs :
  steps R S (jump_back o pid rip_ new_word newregs) any.
Proof. unfold jump_back. walk blocks. Qed.

Lemma steps_remote_munmap S pid mmap_memory newregs :
  steps R S (remote_munmap o pid mmap_memory newregs) any.
Proof. unfold remote_munmap. walk blocks. Qed.

(** The last stretch returns 0 and nothing else. *)
Lemma steps_restore_and_detach pid rip_ old_word oldregs :
  steps R (eq 0) (restore_and_detach o pid rip_ old_word oldregs)
        (fun _ => False).
Proof.
  unfold restore_and_detach.
  apply steps_bind_any; [blocks | intros _].
  apply steps_bind_any; [leaf | intros r].
  apply steps_bind_any; [walk nothing | intros _].
  apply steps_bind_any; [leaf | intros r'].
  apply steps_bind_any; [walk nothing | intros _].
  now apply steps_return.
Qed.

Ltac stretches :=
  first [ blocks | apply steps_write_trampoline
        | apply steps_remote_call | apply steps_read_result
        | apply steps_jump_back | apply steps_remote_munmap ].

Lemma steps_session fuel pid env oldregs old_word new_word :
  steps R (fun z => z = -1 \/ z = 0)
        (session o fuel pid env oldregs old_word new_word) (fun _ => False).
Proof.
  unfold session.
  apply steps_bind_any.
  { eapply steps_weaken; [apply steps_remote_mmap | |]; [now left | trivial]. }
  intros [mmap_memory newregs].
  apply steps_bind_any; [stretches | intros offset].
  apply steps_bind_any; [stretches | intros newregs'].
  apply steps_bind_any; [stretches | intros _].
  apply steps_bind_any; [stretches | intros newregs''].
  apply steps_bind_any; [stretches | intros _].
  eapply steps_weaken; [apply steps_restore_and_detach | |]; [now right | trivial].
Qed.

(** [getenv_process] returns 0, 1 or -1, or exits with 1. *)
Lemma steps_getenv_process fuel pid env :
  steps R (fun _ => False) (getenv_process o fuel pid env)
        (fun z => z = 0 \/ z = 1 \/ z = -1).
Proof.
  unfold getenv_process.
  eapply steps_weaken;
    [apply (steps_call (fun z => z = 0 \/ z = 1 \/ z = -1) (fun _ => False) _ (fun _ => False))
    | trivial | intros a [[] | H]; exact H].
  apply steps_bind_any.
  { eapply steps_weaken; [apply steps_attach_target | |];
      [intros z <-; auto | trivial]. }
  intros oldregs. cbv zeta.
  apply steps_bind_any; [blocks | intros [r saved]].
  apply steps_with_fail_label.
  - apply steps_bind_any; [walk nothing | intros _].
    eapply steps_weaken; [apply steps_session | |];
      [intros z [-> | ->]; auto | trivial].
  - eapply steps_weaken; [apply steps_fail_path | |];
      [intros z <-; auto | trivial].
Qed.



End Steps.

Lemma word_sized_calls_refl w : word_sized_calls w w.
Proof. exists []. split; [reflexivity | constructor]. Qed.

Lemma word_sized_calls_trans w1 w2 w3 :
  word_sized_calls w1 w2 -> word_sized_calls w2 w3 -> word_sized_calls w1 w3.
Proof.
  intros [c1 [E1 F1]] [c2 [E2 F2]]. exists (c2 ++ c1). split.
  - now rewrite E2, E1, app_assoc.
  - apply Forall_app. now split.
Qed.

(** C9.  [poke_text] turns down a length that is not a multiple of the
    word size (8 bytes) before it issues any ptrace request, and every
    length [getenv_process] passes to it is a multiple of 8. *)
Theorem text_writes_word_sized :
  (forall o pid where_ new_text old_text len w,
      len mod 8 <> 0 ->
      fst (poke_text o pid where_ new_text old_text len w) = Val (-1, old_text) /\
      trace (snd (poke_text o pid where_ new_text old_text len w)) = trace w /\
      clock (snd (poke_text o pid where_ new_text old_text len w)) = clock w /\
      target (snd (poke_text o pid where_ new_text old_text len w)) = target w) /\
  (forall o fuel pid env w,
      word_sized_calls w (snd (getenv_process o fuel pid env w))).
Proof.
  split.
  - intros o pid where_ new_text old_text len w Hlen.
    unfold poke_text, bind, eprint, ret. simpl.
    destruct (Z.eqb_spec (len mod 8) 0); [contradiction|].
    simpl. repeat split.
  - intros o fuel pid env w.
    apply (steps_getenv_process word_sized_calls
             word_sized_calls_refl word_sized_calls_trans).
    + intros; exists []; split; [reflexivity | constructor].
    + intros; exists []; split; [reflexivity | constructor].
    + intros a len w0 Hlen. exists [(a, len)]. split; [reflexivity|].
      now repeat constructor.
Qed.

(** A three-byte write on the harness is turned down at once. *)
Lemma text_writes_word_sized_witness :
  fst (poke_text Harness.oracle0 Harness.target_pid Harness.text_base
         [1; 2; 3] None 3 Harness.world0) = Val (-1, None) /\
  trace (snd (poke_text Harness.oracle0 Harness.target_pid Harness.text_base
                [1; 2; 3] None 3 Harness.world0)) = [].
Proof.
  destruct (proj1 text_writes_word_sized Harness.oracle0 Harness.target_pid
              Harness.text_base [1; 2; 3] None 3 Harness.world0)
    as (H1 & H2 & _).
  - vm_compute. discriminate.
  - split; [exact H1 | exact H2].
Defined.

(** ** The scan of the returned string *)

Lemma wrap64_add_l (a b : Z) : wrap64 (wrap64 a + b) = wrap64 (a + b).
Proof. unfold wrap64. apply Zplus_mod_idemp_l. Qed.

Lemma wrap64_add_r (a b : Z) : wrap64 (a + wrap64 b) = wrap64 (a + b).
Proof. unfold wrap64. apply Zplus_mod_idemp_r. Qed.

Lemma wrap64_range (a : Z) : 0 <= wrap64 a < 2 ^ 64.
Proof. unfold wrap64. apply Z.mod_pos_bound. lia. Qed.

Lemma wrap64_small (a : Z) : 0 <= a < 2 ^ 64 -> wrap64 a = a.
Proof. unfold wrap64. apply Z.mod_small. Qed.

(** The low four bytes of a little-endian word of eight. *)
Lemma wrap32_le8 (b0 b1 b2 b3 b4 b5 b6 b7 : Z) :
  0 <= b0 < 256 -> 0 <= b1 < 256 -> 0 <= b2 < 256 -> 0 <= b3 < 256 ->
  0 <= b4 < 256 -> 0 <= b5 < 256 -> 0 <= b6 < 256 -> 0 <= b7 < 256 ->
  wrap32 (le_word [b0; b1; b2; b3; b4; b5; b6; b7])
  = b0 + 256 * b1 + 65536 * b2 + 16777216 * b3.
Proof.
  intros. unfold wrap32, le_word. change (2 ^ 32) with 4294967296.
  symmetry. apply Z.mod_unique_pos with
    (q := b4 + 256 * b5 + 65536 * b6 + 16777216 * b7); lia.
Qed.

(** The scan stops on a word exactly when one of its four bytes is 0. *)
Lemma scan_break_bytes (b0 b1 b2 b3 : Z) :
  0 <= b0 < 256 -> 0 <= b1 < 256 -> 0 <= b2 < 256 -> 0 <= b3 < 256 ->
  scan_break (b0 + 256 * b1 + 65536 * b2 + 16777216 * b3) = true
  <-> b0 = 0 \/ b1 = 0 \/ b2 = 0 \/ b3 = 0.
Proof.
  intros H0 H1 H2 H3. unfold scan_break, shl32, wrap32.
  rewrite !Z.shiftl_mul_pow2 by lia.
  change (2 ^ 32) with 4294967296. change (2 ^ 24) with 16777216.
  change (2 ^ 16) with 65536. change (2 ^ 8) with 256.
  set (d := b0 + 256 * b1 + 65536 * b2 + 16777216 * b3).
  assert (E24 : (d * 16777216) mod 4294967296 = 16777216 * b0).
  { symmetry. apply Z.mod_unique_pos with
      (q := b1 + 256 * b2 + 65536 * b3); subst d; lia. }
  assert (E16 : (d * 65536) mod 4294967296 = 65536 * b0 + 16777216 * b1).
  { symmetry. apply Z.mod_unique_pos with (q := b2 + 256 * b3); subst d; lia. }
  assert (E8 : (d * 256) mod 4294967296
               = 256 * b0 + 65536 * b1 + 16777216 * b2).
  { symmetry. apply Z.mod_unique_pos with (q := b3); subst d; lia. }
  rewrite E24, E16, E8. rewrite !orb_true_iff, !Z.ltb_lt. subst d. lia.
Qed.

(** A failed [PTRACE_PEEKDATA] is read as a word without a zero byte. *)
Lemma scan_break_error : scan_break (wrap32 (wrap64 (-1))) = false.
Proof. reflexivity. Qed.

Section Scan.

Variable o : oracle.
Variable pid : Z.

Lemma load8_bytes (m : Z -> Z) (a : Z) :
  load8 m a =
  le_word [m (wrap64 (a + 0)) mod 256; m (wrap64 (a + 1)) mod 256;
           m (wrap64 (a + 2)) mod 256; m (wrap64 (a + 3)) mod 256;
           m (wrap64 (a + 4)) mod 256; m (wrap64 (a + 5)) mod 256;
           m (wrap64 (a + 6)) mod 256; m (wrap64 (a + 7)) mod 256].
Proof. reflexivity. Qed.

(** What a successful peek at [a] makes the scan do. *)
Lemma scan_break_load8 (m : Z -> Z) (a : Z) :
  scan_break (wrap32 (load8 m a)) = true
  <-> exists j, 0 <= j < 4 /\ m (wrap64 (a + j)) mod 256 = 0.
Proof.
  rewrite load8_bytes, wrap32_le8 by (apply Z.mod_pos_bound; lia).
  rewrite scan_break_bytes by (apply Z.mod_pos_bound; lia).
  split.
  - intros [H | [H | [H | H]]];
      [exists 0 | exists 1 | exists 2 | exists 3]; (split; [lia | exact H]).
  - intros [j [Hj H]].
    assert (Hc : j = 0 \/ j = 1 \/ j = 2 \/ j = 3) by lia.
    destruct Hc as [-> | [-> | [-> | ->]]]; tauto.
Qed.

Lemma load8_wrap (m : Z -> Z) (a : Z) : load8 m (wrap64 a) = load8 m a.
Proof. rewrite !load8_bytes, !wrap64_add_l. reflexivity. Qed.

Lemma scanned_shift (w : world) (offs : Z) (ok : bool) (k : nat) :
  scanned o (issue (PTRACE_PEEKDATA offs) ok (target w) (pending w) w)
          (wrap64 (offs + 4)) k
  = scanned o w offs (S k).
Proof.
  unfold scanned. simpl clock. simpl target.
  replace (S (clock w) + k)%nat with (clock w + S k)%nat by lia.
  rewrite <- (load8_wrap _ (wrap64 (offs + 4) + _)), wrap64_add_l, load8_wrap.
  replace (offs + 4 + 4 * Z.of_nat k) with (offs + 4 * Z.of_nat (S k)) by lia.
  reflexivity.
Qed.

Lemma scan_loop_step (fuel : nat) (offs : Z) (w : world) :
  scan_loop o (S fuel) pid offs w =
  let w1 := issue (PTRACE_PEEKDATA offs) (negb (fault o (clock w)))
                  (target w) (pending w) w in
  if scan_break (scanned o w offs 0) then (Val (wrap64 (offs + 4)), w1)
  else scan_loop o fuel pid (wrap64 (offs + 4)) w1.
Proof.
  cbn [scan_loop]. unfold bind, ptrace_peekdata, refused, scanned.
  rewrite Nat.add_0_r, Z.add_0_r.
  destruct (fault o (clock w)); cbv beta iota zeta;
    match goal with |- context [scan_break ?d] => destruct (scan_break d) end;
    reflexivity.
Qed.

(** The scan returns exactly when one of its turns sees a word that
    ends it. *)
Lemma scan_loop_returns (fuel : nat) (offs : Z) (w : world) :
  (exists offs' w', scan_loop o fuel pid offs w = (Val offs', w'))
  <-> exists k, (k < fuel)%nat /\ scan_break (scanned o w offs k) = true.
Proof.
  revert offs w; induction fuel as [|fuel IH]; intros offs w.
  - simpl. split.
    + intros (offs' & w' & H). discriminate.
    + intros (k & Hk & _). lia.
  - rewrite scan_loop_step. cbv zeta.
    destruct (scan_break (scanned o w offs 0)) eqn:E0.
    + split; [|intros _; eauto].
      intros _. exists O. split; [lia | exact E0].
    + rewrite IH. split.
      * intros (k & Hk & Hb). exists (S k). split; [lia|].
        now rewrite <- (scanned_shift w offs (negb (fault o (clock w))) k).
      * intros ([|k] & Hk & Hb); [congruence|].
        exists k. split; [lia|]. now rewrite scanned_shift.
Qed.

End Scan.

(** C10.  For a non-null result of the remote [getenv], the loop that
    finds the length of the string comes to an end if and only if one of
    the four-byte words of target memory it reads, at the returned address
    and every fourth byte after it, is read without error and holds a zero
    byte; a [PTRACE_PEEKDATA] that fails yields -1, which is taken for
    the word [0xFFFFFFFF], is not noticed as an error and does not end the
    loop. *)
Theorem scan_ends_iff_zero_byte (o : oracle) (pid offs : Z) (w : world) :
  ((exists fuel offs' w', scan_loop o fuel pid offs w = (Val offs', w'))
   <-> exists k : nat,
         fault o (clock w + k) = false /\
         exists j, 0 <= j < 4 /\
           mem (target w) (wrap64 (offs + 4 * Z.of_nat k + j)) mod 256 = 0)
  /\ (forall k : nat,
        fault o (clock w + k) = true ->
        scanned o w offs k = 4294967295 /\
        scan_break (scanned o w offs k) = false).
Proof.
  assert (Hword : forall k,
    scan_break (scanned o w offs k) = true
    <-> fault o (clock w + k) = false /\
        exists j, 0 <= j < 4 /\
          mem (target w) (wrap64 (offs + 4 * Z.of_nat k + j)) mod 256 = 0).
  { intros k. unfold scanned. destruct (fault o (clock w + k)).
    - rewrite scan_break_error. split; [discriminate | intros [H _]; discriminate].
    - rewrite scan_break_load8. split; [intros H; split; [reflexivity | exact H]|].
      now intros [_ H]. }
  split.
  - split.
    + intros (fuel & offs' & w' & H).
      assert (Hr : exists offs' w', scan_loop o fuel pid offs w = (Val offs', w'))
        by eauto.
      apply scan_loop_returns in Hr as (k & _ & Hb).
      exists k. now apply Hword.
    + intros (k & Hf & Hz). assert (Hb := proj2 (Hword k) (conj Hf Hz)).
      assert (Hr : exists offs' w', scan_loop o (S k) pid offs w = (Val offs', w')).
      { apply scan_loop_returns. exists k. split; [lia | exact Hb]. }
      destruct Hr as (offs' & w' & Hr). eauto.
  - intros k Hf. unfold scanned. rewrite Hf. split; reflexivity.
Qed.

(** ** Runs on the harness *)

(** C3: the claim holds of the specification, not of the code.  On the
    harness with the scratch page at [0x10000] the displacement to
    [getenv] does not fit 32 bits: [compute_jmp] calls [exit(1)] at once.
    The last request issued is the [PTRACE_GETREGS] after the jump into
    the page; nothing is written back, no detach is attempted, and the
    eight bytes at the old instruction pointer still hold the [syscall]
    stub instead of the program's text. *)
Theorem displacement_overflow_exits_unrestored :
  let res := getenv_process Harness.oracle_far 100 Harness.target_pid
               (bytes "FOO") Harness.world0 in
  fst res = Exit 1 /\
  hd_error (trace (snd res)) = Some (PTRACE_GETREGS, true) /\
  existsb (fun e => is_detach (fst e)) (trace (snd res)) = false /\
  mem_bytes (mem (target (snd res))) Harness.text_base 4 = [15; 5; 255; 224] /\
  mem_bytes Harness.memory0 Harness.text_base 4 = [235; 254; 144; 144].
Proof. vm_compute. repeat split. Qed.

(** C4: the claim holds of the specification, not of the code.  On the
    harness, when the [PTRACE_GETREGS] that follows the [mmap] step fails
    (request number 8 of the run), [getenv_process] returns -1 at once:
    that request is the last one issued, no detach is attempted, and the
    text at the old instruction pointer is left patched. *)
Theorem getregs_failure_skips_fail_path :
  let res := getenv_process (Harness.fail_at 8) 100 Harness.target_pid
               (bytes "FOO") Harness.world0 in
  fst res = Val (-1) /\
  hd_error (trace (snd res)) = Some (PTRACE_GETREGS, false) /\
  List.length (trace (snd res)) = 9%nat /\
  existsb (fun e => is_detach (fst e)) (trace (snd res)) = false /\
  mem_bytes (mem (target (snd res))) Harness.text_base 4 = [15; 5; 255; 224] /\
  mem_bytes Harness.memory0 Harness.text_base 4 = [235; 254; 144; 144].
Proof. vm_compute. repeat split. Qed.


(** C8 (as stated) fails: on the harness the only word written between
    the [PTRACE_CONT] and the step back is the one at the address the
    target stopped at, six bytes into the scratch page; nothing is
    written at the old instruction pointer. *)
Lemma jump_back_site_counterexample :
  let res := getenv_process Harness.oracle0 100 Harness.target_pid
               (bytes "FOO") Harness.world0 in
  fst res = Val 0 /\
  map fst (writes_before_jump_back (rev (trace (snd res))))
    = [Harness.page + 6] /\
  Harness.page + 6 <> Harness.text_base /\
  map (fun e => byte_at 0 (snd e)) (writes_before_jump_back (rev (trace (snd res)))) = [255] /\
  map (fun e => byte_at 1 (snd e)) (writes_before_jump_back (rev (trace (snd res)))) = [224].
Proof. vm_compute. repeat split. discriminate. Qed.

(** C2: the claim holds of the specification, not of the code.  The
    block copied into the scratch page is sized [strlen(env) + 6] and
    the name is copied without its terminator (lines 276 and 294), so a
    name of 4090 bytes fills the page to its last byte and the zero that
    ends it has to come from whatever follows the page.  The target has
    the variable set to [bar].  With the page mapped right below a file
    mapping, the [getenv] of the target is handed a longer name, finds
    nothing, and the tool prints nothing and returns 0; had the byte
    after the page been zero, the same run would have printed [bar]. *)
Theorem name_filling_the_page_is_not_found :
  let res := getenv_process Edge.oracle 100 Harness.target_pid Edge.name
               (Edge.world_with Edge.next_mapping) in
  let control := getenv_process Edge.oracle 100 Harness.target_pid Edge.name
                   (Edge.world_with []) in
  strlen Edge.name = 4090 /\
  Harness.lookup Edge.name Edge.environ = Harness.foo_value /\
  Harness.string_at 8 (Edge.memory_with Edge.next_mapping) Harness.foo_value
  = bytes "bar" /\
  fst res = Val 0 /\ out (snd res) = [] /\
  fst control = Val 0 /\ out (snd control) = bytes "bar" ++ [10].
Proof. vm_compute. repeat split. Qed.

(** ** Bytes, words and memory *)

Ltac wrap_lia :=
  unfold wrap64, wrap32 in *;
  change (2 ^ 64) with 18446744073709551616 in *;
  change (2 ^ 32) with 4294967296 in *;
  Z.div_mod_to_equations; lia.

Lemma wrap64_sub_same (a d : Z) :
  0 <= d < 2 ^ 64 -> wrap64 (wrap64 (a + d) - wrap64 a) = d.
Proof. intros H. wrap_lia. Qed.

Lemma le_word_range (bs : list Z) :
  all_bytes bs -> 0 <= le_word bs < 256 ^ Z.of_nat (List.length bs).
Proof.
  induction 1 as [|b bs Hb _ IH]; [simpl; lia|].
  cbn [le_word List.length]. rewrite Nat2Z.inj_succ, Z.pow_succ_r by lia. lia.
Qed.

Lemma byte_at_le_word (bs : list Z) (d : nat) :
  all_bytes bs -> (d < List.length bs)%nat ->
  byte_at (Z.of_nat d) (le_word bs) = nth d bs 0.
Proof.
  intros H; revert d; induction H as [|b bs Hb Hbs IH]; intros d Hd.
  - simpl in Hd. lia.
  - destruct d as [|d].
    + unfold byte_at. cbn [le_word nth]. change (2 ^ (8 * Z.of_nat 0)) with 1.
      rewrite Z.div_1_r, (Z.mul_comm 256), Z.mod_add by lia.
      apply Z.mod_small. exact Hb.
    + cbn [nth]. rewrite <- IH by (simpl in Hd; lia).
      unfold byte_at. cbn [le_word].
      replace (8 * Z.of_nat (S d)) with (8 + 8 * Z.of_nat d) by lia.
      rewrite Z.pow_add_r by lia. change (2 ^ 8) with 256.
      rewrite <- Z.div_div by lia. f_equal. f_equal.
      rewrite (Z.mul_comm 256), Z.div_add by lia.
      rewrite (Z.div_small b 256) by exact Hb. reflexivity.
Qed.

Lemma le_bytes_length (n : nat) (z : Z) : List.length (le_bytes n z) = n.
Proof. revert z; induction n; intros z; simpl; [reflexivity | now rewrite IHn]. Qed.

Lemma le_bytes_all_bytes (n : nat) (z : Z) : all_bytes (le_bytes n z).
Proof.
  revert z; induction n; intros z; simpl; constructor.
  - apply Z.mod_pos_bound. lia.
  - apply IHn.
Qed.

Lemma le_word_le_bytes (n : nat) (z : Z) :
  le_word (le_bytes n z) = z mod 256 ^ Z.of_nat n.
Proof.
  revert z; induction n as [|n IH]; intros z.
  - simpl. now rewrite Z.mod_1_r.
  - cbn [le_bytes le_word]. rewrite IH, Nat2Z.inj_succ, Z.pow_succ_r by lia.
    rewrite Z.rem_mul_r by lia. lia.
Qed.

Lemma nth_le_bytes (n : nat) (z : Z) (d : nat) :
  (d < n)%nat -> nth d (le_bytes n z) 0 = byte_at (Z.of_nat d) z.
Proof.
  revert z d; induction n as [|n IH]; intros z d Hd; [lia|].
  destruct d as [|d]; cbn [le_bytes nth].
  - unfold byte_at. change (2 ^ (8 * Z.of_nat 0)) with 1. now rewrite Z.div_1_r.
  - rewrite IH by lia. unfold byte_at.
    replace (8 * Z.of_nat (S d)) with (8 + 8 * Z.of_nat d) by lia.
    rewrite Z.pow_add_r by lia. change (2 ^ 8) with 256.
    now rewrite Z.div_div by lia.
Qed.

(** Reading memory that [PTRACE_POKETEXT] has written. *)
Lemma store8_inside (m : Z -> Z) (addr data a : Z) :
  wrap64 (a - addr) < 8 ->
  store8 m addr data a = byte_at (wrap64 (a - addr)) data.
Proof. intros H. unfold store8. destruct (Z.ltb_spec (wrap64 (a - addr)) 8); [reflexivity | lia]. Qed.

Lemma store8_outside (m : Z -> Z) (addr data a : Z) :
  8 <= wrap64 (a - addr) -> store8 m addr data a = m a.
Proof. intros H. unfold store8. destruct (Z.ltb_spec (wrap64 (a - addr)) 8); [lia | reflexivity]. Qed.

(** The bytes of a word read by [PTRACE_PEEKTEXT]. *)
Lemma byte_at_load8 (m : Z -> Z) (a : Z) (d : nat) :
  (d < 8)%nat ->
  byte_at (Z.of_nat d) (load8 m a) = m (wrap64 (a + Z.of_nat d)) mod 256.
Proof.
  intros Hd. unfold load8. rewrite byte_at_le_word.
  - do 8 (destruct d as [|d]; [reflexivity|]). lia.
  - apply Forall_forall. intros b Hb. apply in_map_iff in Hb as [k [<- _]].
    apply Z.mod_pos_bound. lia.
  - rewrite length_map, length_seq. lia.
Qed.

Lemma load8_range (m : Z -> Z) (a : Z) : 0 <= load8 m a < 2 ^ 64.
Proof.
  unfold load8.
  assert (H : all_bytes (map (fun k => m (wrap64 (a + Z.of_nat k)) mod 256) (seq 0 8))).
  { apply Forall_forall. intros b Hb. apply in_map_iff in Hb as [k [<- _]].
    apply Z.mod_pos_bound. lia. }
  apply le_word_range in H. rewrite length_map, length_seq in H.
  change (256 ^ Z.of_nat 8) with (2 ^ 64) in H. exact H.
Qed.

(** Writing back the word that was read restores every byte of it. *)
Lemma store8_restores (m m' : Z -> Z) (addr a : Z) :
  0 <= m a < 256 ->
  0 <= addr < 2 ^ 64 -> 0 <= a < 2 ^ 64 ->
  wrap64 (a - addr) < 8 ->
  store8 m' addr (load8 m addr) a = m a.
Proof.
  intros Hb Haddr Ha Hd. rewrite store8_inside by exact Hd.
  assert (Hr := wrap64_range (a - addr)).
  rewrite <- (Z2Nat.id (wrap64 (a - addr))) by lia.
  rewrite byte_at_load8 by lia. rewrite Z2Nat.id by lia.
  replace (wrap64 (addr + wrap64 (a - addr))) with a by wrap_lia.
  now apply Z.mod_small.
Qed.

(** ** Runs in which no request fails *)

Lemma bind_unfold {A B : Type} (m : M A) (k : A -> M B) (w : world) :
  bind m k w =
  match m w with
  | (Val a, w') => k a w'
  | (Ret r, w') => (Ret r, w')
  | (Fail, w') => (Fail, w')
  | (Exit c, w') => (Exit c, w')
  | (Diverge, w') => (Diverge, w')
  | (Undefined, w') => (Undefined, w')
  end.
Proof. reflexivity. Qed.

Lemma bind_val {A B : Type} (m : M A) (k : A -> M B) (w w' : world) (a : A) :
  m w = (Val a, w') -> bind m k w = k a w'.
Proof. intros H. unfold bind. now rewrite H. Qed.

Lemma bind_ret {A B : Type} (a : A) (k : A -> M B) (w : world) :
  bind (ret a) k w = k a w.
Proof. reflexivity. Qed.

Lemma bind_when_false {B : Type} (m : M unit) (k : unit -> M B) (w : world) :
  bind (when false m) k w = k tt w.
Proof. reflexivity. Qed.

Section NoFault.

Variable o : oracle.
Hypothesis no_fault : forall i, fault o i = false.

Lemma attach_ok (pid : Z) (w : world) :
  0 < pid ->
  ptrace_attach o pid w
  = (Val 0, issue PTRACE_ATTACH true (target w) (Some (WStopped 19)) w).
Proof.
  intros Hpid. unfold ptrace_attach. rewrite no_fault.
  destruct (Z.leb_spec pid 0); [lia | reflexivity].
Qed.

Lemma detach_ok (pid : Z) (w : world) :
  ptrace_detach o pid w
  = (Val 0, issue PTRACE_DETACH true (target w) (pending w) w).
Proof. unfold ptrace_detach. now rewrite no_fault. Qed.

Lemma getregs_ok (pid : Z) (w : world) :
  ptrace_getregs o pid w
  = (Val (Some (regs (target w))),
     issue PTRACE_GETREGS true (target w) (pending w) w).
Proof. unfold ptrace_getregs. now rewrite no_fault. Qed.

Lemma setregs_ok (pid : Z) (r : user_regs_struct) (w : world) :
  ptrace_setregs o pid r w
  = (Val 0, issue (PTRACE_SETREGS r) true
                  (mk_machine r (mem (target w))) (pending w) w).
Proof. unfold ptrace_setregs. now rewrite no_fault. Qed.

Lemma peektext_ok (pid addr : Z) (w : world) :
  ptrace_peektext o pid addr w
  = (Val (load8 (mem (target w)) addr, false),
     issue (PTRACE_PEEKTEXT addr) true (target w) (pending w) w).
Proof. unfold ptrace_peektext. now rewrite no_fault. Qed.

Lemma peekdata_ok (pid addr : Z) (w : world) :
  ptrace_peekdata o pid addr w
  = (Val (load8 (mem (target w)) addr),
     issue (PTRACE_PEEKDATA addr) true (target w) (pending w) w).
Proof. unfold ptrace_peekdata. now rewrite no_fault. Qed.

Lemma poketext_ok (pid addr data : Z) (w : world) :
  ptrace_poketext o pid addr data w
  = (Val 0, issue (PTRACE_POKETEXT addr data) true
                  (mk_machine (regs (target w))
                              (store8 (mem (target w)) addr data))
                  (pending w) w).
Proof. unfold ptrace_poketext. now rewrite no_fault. Qed.

Lemma singlestep_request_ok (pid : Z) (w : world) :
  ptrace_singlestep o pid w
  = (Val 0, issue PTRACE_SINGLESTEP true
                  (fst (step_machine o (target w)))
                  (Some (snd (step_machine o (target w)))) w).
Proof.
  unfold ptrace_singlestep. rewrite no_fault.
  now destruct (step_machine o (target w)).
Qed.

Lemma cont_ok (pid : Z) (w : world) :
  ptrace_cont o pid w
  = (Val 0, issue PTRACE_CONT true (fst (run o (target w)))
                  (Some (snd (run o (target w)))) w).
Proof.
  unfold ptrace_cont. rewrite no_fault. now destruct (run o (target w)).
Qed.

Lemma waitpid_ok (pid : Z) (w : world) (st : wstatus) :
  pending w = Some st ->
  sys_waitpid o pid w = (Val pid, issue WAITPID true (target w) None w).
Proof. intros H. unfold sys_waitpid. now rewrite no_fault, H. Qed.

Lemma wait_ok (w : world) (st : wstatus) :
  pending w = Some st ->
  sys_wait o w = (Val (0, st), issue WAIT true (target w) None w).
Proof. intros H. unfold sys_wait. now rewrite no_fault, H. Qed.

(** [do_wait] after a stop with [SIGTRAP]. *)
Lemma do_wait_trap (name : string) (w : world) :
  pending w = Some (WStopped SIGTRAP) ->
  do_wait o name w = (Val 0, issue WAIT true (target w) None w).
Proof.
  intros H. unfold do_wait. rewrite (bind_val _ _ _ _ _ (wait_ok w _ H)).
  reflexivity.
Qed.

(** [singlestep] when the step ends in a trap. *)
Lemma singlestep_ok (pid : Z) (w : world) :
  snd (step_machine o (target w)) = WStopped SIGTRAP ->
  singlestep o pid w
  = (Val 0, issue WAIT true (fst (step_machine o (target w))) None
              (issue PTRACE_SINGLESTEP true
                     (fst (step_machine o (target w)))
                     (Some (WStopped SIGTRAP)) w)).
Proof.
  intros H. unfold singlestep.
  rewrite (bind_val _ _ _ _ _ (singlestep_request_ok pid w)).
  cbv beta iota. change (negb (0 =? 0)) with false. cbv iota.
  rewrite H. now rewrite do_wait_trap.
Qed.


(** One word written without capture. *)
Lemma poke_word_ok (pid where_ : Z) (new_text : list Z) (w : world) :
  poke_text o pid where_ new_text None 8 w
  = (Val (0, None),
     mk_world (mk_machine (regs (target w))
                 (store8 (mem (target w)) (wrap64 where_)
                         (le_word (buf_read new_text 0 8))))
              (pending w) (S (clock w))
              ((PTRACE_POKETEXT (wrap64 where_)
                  (le_word (buf_read new_text 0 8)), true) :: trace w)
              ((where_, 8) :: poke_log w) (out w) (err w)).
Proof.
  unfold poke_text. rewrite bind_unfold. cbv beta iota.
  change (negb (8 mod 8 =? 0)) with false. cbv iota.
  change (Z.to_nat (8 / 8)) with 1%nat. cbn [poke_words].
  rewrite bind_unfold. unfold ret at 1. cbv beta iota.
  rewrite bind_unfold, poketext_ok. cbv beta iota.
  change (0 <? 0) with false. cbv iota. unfold ret, issue.
  cbn [target pending clock trace poke_log out err regs mem].
  now rewrite Z.add_0_r.
Qed.

(** One word written with capture of what was there. *)
Lemma poke_word_capture_ok (pid where_ : Z) (new_text old : list Z)
    (w : world) :
  poke_text o pid where_ new_text (Some old) 8 w
  = (Val (0, Some (buf_write old 0
                     (le_bytes 8 (load8 (mem (target w)) (wrap64 where_))))),
     mk_world (mk_machine (regs (target w))
                 (store8 (mem (target w)) (wrap64 where_)
                         (le_word (buf_read new_text 0 8))))
              (pending w) (S (S (clock w)))
              ((PTRACE_POKETEXT (wrap64 where_)
                  (le_word (buf_read new_text 0 8)), true)
               :: (PTRACE_PEEKTEXT (wrap64 where_), true) :: trace w)
              ((where_, 8) :: poke_log w) (out w) (err w)).
Proof.
  unfold poke_text. rewrite bind_unfold. cbv beta iota.
  change (negb (8 mod 8 =? 0)) with false. cbv iota.
  change (Z.to_nat (8 / 8)) with 1%nat. cbn [poke_words].
  rewrite bind_unfold, bind_unfold, peektext_ok. cbv beta iota.
  rewrite andb_false_r. unfold ret at 1. cbv beta iota.
  rewrite bind_unfold, poketext_ok. cbv beta iota.
  change (0 <? 0) with false. cbv iota. unfold ret, issue.
  cbn [target pending clock trace poke_log out err regs mem].
  now rewrite Z.add_0_r.
Qed.


(** Many words written without capture. *)
Lemma poke_words_ok (pid where_ : Z) (new_text : list Z) (n : nat)
    (copied : Z) (w : world) :
  poke_words o n pid where_ new_text None copied w
  = (Val (0, None),
     mk_world (mk_machine (regs (target w))
                 (poked_mem (mem (target w)) where_ new_text n copied))
              (pending w) (n + clock w)
              (poked_trace where_ new_text n copied ++ trace w)
              (poke_log w) (out w) (err w)).
Proof.
  revert copied w; induction n as [|n IH]; intros copied w.
  - cbn [poke_words poked_mem poked_trace]. unfold ret.
    now destruct w as [[r m] p c t l ou e].
  - cbn [poke_words poked_mem poked_trace].
    rewrite bind_unfold. unfold ret at 1. cbv beta iota.
    rewrite bind_unfold, poketext_ok. cbv beta iota.
    change (0 <? 0) with false. cbv iota. rewrite IH. unfold issue.
    cbn [target pending clock trace poke_log out err regs mem].
    rewrite <- app_assoc, Nat.add_succ_r. reflexivity.
Qed.

Lemma poke_text_ok (pid where_ : Z) (new_text : list Z) (len : Z)
    (w : world) :
  len mod 8 = 0 ->
  poke_text o pid where_ new_text None len w
  = (Val (0, None),
     mk_world (mk_machine (regs (target w))
                 (poked_mem (mem (target w)) where_ new_text
                            (Z.to_nat (len / 8)) 0))
              (pending w) (Z.to_nat (len / 8) + clock w)
              (poked_trace where_ new_text (Z.to_nat (len / 8)) 0 ++ trace w)
              ((where_, len) :: poke_log w) (out w) (err w)).
Proof.
  intros Hlen. unfold poke_text. rewrite bind_unfold. cbv beta iota.
  rewrite Hlen. change (negb (0 =? 0)) with false. cbv iota.
  rewrite poke_words_ok. reflexivity.
Qed.

(** The target on the planted [syscall], asked for [mmap]. *)
Lemma step_mmap (m : machine) :
  mem m (rip (regs m)) = 15 ->
  mem m (wrap64 (rip (regs m) + 1)) = 5 ->
  rax (regs m) = 9 ->
  step_machine o m =
  (let next := wrap64 (rip (regs m) + 2) in
   let res := wrap64 (syscall_ret o m) in
   mk_machine
     (set_rip next (set_r11 (eflags (regs m))
        (set_rcx next (set_rax res (regs m)))))
     (if is_errno res then mem m
      else fun a => if in_range res (rsi (regs m)) a then 0 else mem m a),
   WStopped SIGTRAP).
Proof.
  intros H0 H1 H9. unfold step_machine. rewrite H0, H1, H9. reflexivity.
Qed.

(** The target on the planted [syscall], asked for [munmap]. *)
Lemma step_munmap (m : machine) :
  mem m (rip (regs m)) = 15 ->
  mem m (wrap64 (rip (regs m) + 1)) = 5 ->
  rax (regs m) = 11 ->
  step_machine o m =
  (let next := wrap64 (rip (regs m) + 2) in
   let res := wrap64 (syscall_ret o m) in
   mk_machine
     (set_rip next (set_r11 (eflags (regs m))
        (set_rcx next (set_rax res (regs m)))))
     (mem m),
   WStopped SIGTRAP).
Proof.
  intros H0 H1 H9. unfold step_machine. rewrite H0, H1, H9. reflexivity.
Qed.

(** The target on the planted [jmp *%rax]. *)
Lemma step_jmp (m : machine) :
  mem m (rip (regs m)) = 255 ->
  mem m (wrap64 (rip (regs m) + 1)) = 224 ->
  step_machine o m =
  (mk_machine (set_rip (rax (regs m)) (regs m)) (mem m), WStopped SIGTRAP).
Proof.
  intros H0 H1. unfold step_machine. rewrite H0, H1. reflexivity.
Qed.


(** *** The stretches of [getenv_process], one by one *)

Variable pid : Z.

Lemma attach_target_ok (w : world) :
  0 < pid ->
  attach_target o pid w
  = (Val (regs (target w)),
     mk_world (target w) None (3 + clock w)
              ((PTRACE_GETREGS, true) :: (WAITPID, true)
               :: (PTRACE_ATTACH, true) :: trace w)
              (poke_log w) (out w) (err w)).
Proof.
  intros Hpid. unfold attach_target.
  rewrite bind_unfold, (attach_ok pid w Hpid). cbv beta iota.
  change (negb (0 =? 0)) with false. rewrite bind_when_false.
  rewrite bind_unfold. erewrite waitpid_ok by reflexivity. cbv beta iota.
  destruct (Z.eqb_spec pid (-1)); [lia|]. rewrite bind_when_false.
  rewrite bind_unfold, getregs_ok. reflexivity.
Qed.

(** The remote [mmap], when the target sits on the planted stub (bytes
    [0f 05 ff e0] at its instruction pointer) and the new mapping leaves
    the stub alone. *)
Lemma remote_mmap_ok (newregs : user_regs_struct) (w : world) :
  let pc := rip newregs in
  let m1 := mk_machine newregs (mem (target w)) in
  let res := wrap64 (syscall_ret o m1) in
  let next := wrap64 (pc + 2) in
  let mem2 := if is_errno res then mem (target w)
              else fun a => if in_range res (rsi newregs) a then 0
                            else mem (target w) a in
  let regs2 := set_rip next (set_r11 (eflags newregs)
                 (set_rcx next (set_rax res newregs))) in
  let regs3 := set_rip res regs2 in
  rax newregs = 9 ->
  mem (target w) pc = 15 ->
  mem (target w) (wrap64 (pc + 1)) = 5 ->
  mem2 next = 255 ->
  mem2 (wrap64 (next + 1)) = 224 ->
  res <> wrap64 (-1) ->
  remote_mmap o pid newregs w
  = (Val (res, regs3),
     mk_world (mk_machine regs3 mem2) None (7 + clock w)
              ((PTRACE_GETREGS, true) :: (WAIT, true)
               :: (PTRACE_SINGLESTEP, true) :: (PTRACE_GETREGS, true)
               :: (WAIT, true) :: (PTRACE_SINGLESTEP, true)
               :: (PTRACE_SETREGS newregs, true) :: trace w)
              (poke_log w) (out w) (err w)).
Proof.
  intros pc m1 res next mem2 regs2 regs3 Hrax H0 H1 H2 H3 Hres.
  unfold remote_mmap.
  rewrite bind_unfold, setregs_ok. cbv beta iota.
  change (negb (0 =? 0)) with false. rewrite bind_when_false.
  assert (S1 : step_machine o (mk_machine newregs (mem (target w)))
               = (mk_machine regs2 mem2, WStopped SIGTRAP)).
  { rewrite step_mmap; [reflexivity | exact H0 | exact H1 | exact Hrax]. }
  rewrite bind_unfold, singlestep_ok;
    cbn [target issue]; rewrite S1; [|reflexivity].
  cbn [fst snd]. cbv beta iota.
  change (negb (0 =? 0)) with false. rewrite bind_when_false.
  rewrite bind_unfold, getregs_ok. cbv beta iota.
  rewrite bind_ret. cbn [target issue regs].
  replace (rax regs2) with res by reflexivity.
  destruct (Z.eqb_spec res (wrap64 (-1))); [contradiction|].
  rewrite bind_when_false.
  assert (S2 : step_machine o (mk_machine regs2 mem2)
               = (mk_machine regs3 mem2, WStopped SIGTRAP)).
  { rewrite step_jmp; [reflexivity | exact H2 | exact H3]. }
  rewrite bind_unfold, singlestep_ok;
    cbn [target issue]; rewrite S2; [|reflexivity].
  cbn [fst snd]. cbv beta iota.
  change (negb (0 =? 0)) with false. rewrite bind_when_false.
  rewrite bind_unfold, getregs_ok. cbv beta iota.
  rewrite bind_ret. cbn [target issue regs].
  replace (rip regs3) with res by reflexivity.
  rewrite Z.eqb_refl. cbn [negb]. rewrite bind_when_false.
  reflexivity.
Qed.


Lemma find_library_ok (p : Z) (libname : list Z) (lines : list (list Z))
    (v : Z) (w : world) :
  maps o p = Some lines -> find_in_lines lines libname = Some v ->
  find_library o p libname w = (Val v, w).
Proof. intros H1 H2. unfold find_library. now rewrite H1, H2. Qed.

Lemma compute_jmp_ok (from to : Z) (w : world) :
  INT_MIN <= signed64 (signed64 to - signed64 from - REL32_SZ) <= INT_MAX ->
  compute_jmp from to w
  = (Val (signed64 (signed64 to - signed64 from - REL32_SZ)), w).
Proof.
  intros H. unfold compute_jmp.
  destruct (Z.ltb_spec (signed64 (signed64 to - signed64 from - REL32_SZ)) INT_MIN);
    [lia|].
  destruct (Z.gtb_spec (signed64 (signed64 to - signed64 from - REL32_SZ)) INT_MAX);
    [lia | reflexivity].
Qed.

(** Writing the call, the trap and the name, once [getenv] has been
    located and the block has its size [B]. *)
Lemma write_trampoline_ok (fuel : nat) (rip_ : Z) (new_word : list Z)
    (mmap_memory : Z) (env : list Z) (lt lc : list (list Z))
    (tl ol B : Z) (w : world) :
  let their_getenv := wrap64 (tl + (getenv_local o - ol)) in
  let delta := signed64 (signed64 their_getenv - signed64 mmap_memory
                         - REL32_SZ) in
  let new_text := fst (trampoline B delta env) in
  maps o pid = Some lt -> find_in_lines lt libc_string = Some tl ->
  maps o (self_pid o) = Some lc -> find_in_lines lc libc_string = Some ol ->
  (forall w', grow_block fuel 32 (wrap64 (strlen env + 6)) w' = (Val B, w')) ->
  B mod 8 = 0 ->
  INT_MIN <= delta <= INT_MAX ->
  write_trampoline o fuel pid rip_ new_word mmap_memory env w
  = (Val 6,
     mk_world
       (mk_machine (regs (target w))
          (store8 (poked_mem (mem (target w)) mmap_memory new_text
                             (Z.to_nat (B / 8)) 0)
                  (wrap64 rip_) (le_word (buf_read new_word 0 8))))
       (pending w) (S (Z.to_nat (B / 8) + clock w))
       ((PTRACE_POKETEXT (wrap64 rip_) (le_word (buf_read new_word 0 8)), true)
        :: poked_trace mmap_memory new_text (Z.to_nat (B / 8)) 0 ++ trace w)
       ((rip_, 8) :: (mmap_memory, B) :: poke_log w) (out w) (err w)).
Proof.
  intros their_getenv delta new_text Hm1 Hf1 Hm2 Hf2 Hg HB Hd.
  unfold write_trampoline.
  rewrite bind_unfold, (find_library_ok _ _ _ _ _ Hm1 Hf1). cbv beta iota.
  rewrite bind_unfold, (find_library_ok _ _ _ _ _ Hm2 Hf2). cbv beta iota.
  rewrite bind_unfold, Hg. cbv beta iota.
  rewrite bind_unfold, compute_jmp_ok by exact Hd. cbv beta iota.
  fold their_getenv. fold delta.
  unfold trampoline in new_text. cbn [fst] in new_text.
  unfold trampoline. cbv zeta.
  rewrite bind_unfold, poke_text_ok by exact HB. cbv beta iota.
  change (negb (0 =? 0)) with false. rewrite bind_when_false.
  rewrite bind_unfold, poke_word_ok. cbv beta iota.
  change (negb (0 =? 0)) with false. rewrite bind_when_false.
  reflexivity.
Qed.

(** The call itself, when the target runs into a trap. *)
Lemma remote_call_ok (mmap_memory offset : Z) (newregs : user_regs_struct)
    (w : world) :
  let regs_in := set_rdi (wrap64 (mmap_memory + offset)) (set_rax 0 newregs) in
  let m_in := mk_machine regs_in (mem (target w)) in
  snd (run o m_in) = WStopped SIGTRAP ->
  remote_call o pid mmap_memory offset newregs w
  = (Val (regs (fst (run o m_in))),
     mk_world (fst (run o m_in)) None (4 + clock w)
              ((PTRACE_GETREGS, true) :: (WAIT, true) :: (PTRACE_CONT, true)
               :: (PTRACE_SETREGS regs_in, true) :: trace w)
              (poke_log w) (out w) (err w)).
Proof.
  intros regs_in m_in Hst. unfold remote_call. cbv zeta.
  rewrite bind_unfold, setregs_ok. cbv beta iota.
  change (negb (0 =? 0)) with false. rewrite bind_when_false.
  rewrite bind_unfold, cont_ok. cbv beta iota.
  cbn [target issue]. fold regs_in. fold m_in.
  rewrite bind_unfold, do_wait_trap by (cbn [pending issue]; now rewrite Hst).
  cbv beta iota. change (negb (0 =? 0)) with false. rewrite bind_when_false.
  rewrite bind_unfold, getregs_ok. reflexivity.
Qed.

(** Nothing is read or printed when [getenv] returned null. *)
Lemma read_result_absent (fuel : nat) (newregs : user_regs_struct)
    (w : world) :
  rax newregs = 0 -> read_result o fuel pid newregs w = (Val tt, w).
Proof. intros H. unfold read_result. rewrite H. reflexivity. Qed.

Lemma jmp_word_bytes (new_word : list Z) :
  all_bytes new_word ->
  exists b2 b3 b4 b5 b6 b7,
    buf_read (jmp_word new_word) 0 8 = [255; 224; b2; b3; b4; b5; b6; b7] /\
    all_bytes [255; 224; b2; b3; b4; b5; b6; b7].
Proof.
  intros H. unfold jmp_word, buf_set, buf_write.
  change (Z.to_nat 0) with 0%nat. change (Z.to_nat 1) with 1%nat.
  cbn [firstn skipn List.length Nat.add app].
  destruct new_word as [|x0 new_word]; cbn [skipn firstn app].
  { repeat eexists. cbv. repeat constructor; discriminate. }
  apply Forall_inv_tail in H.
  destruct new_word as [|x1 t]; cbn [skipn firstn app].
  { repeat eexists. cbv. repeat constructor; discriminate. }
  apply Forall_inv_tail in H.
  unfold buf_read. cbn [seq map]. unfold buf_get.
  cbn [Z.ltb Z.compare Z.add Z.of_nat Z.to_nat Pos.to_nat Pos.iter_op Nat.add nth Pos.of_succ_nat Pos.succ].
  do 6 eexists. split; [reflexivity|].
  assert (G : forall k, 0 <= nth k t 0 < 256).
  { intros k. destruct (Nat.lt_ge_cases k (List.length t)).
    - rewrite Forall_forall in H. apply H. now apply nth_In.
    - rewrite nth_overflow by lia. lia. }
  repeat constructor; try lia; apply G.
Qed.

(** The jump back always lands on the old instruction pointer. *)
Lemma jump_back_ok (rip_ : Z) (new_word : list Z)
    (newregs : user_regs_struct) (w : world) :
  let data := le_word (buf_read (jmp_word new_word) 0 8) in
  let mem' := store8 (mem (target w)) (wrap64 (rip newregs)) data in
  let regs' := set_rip rip_ (set_rax rip_ newregs) in
  all_bytes new_word ->
  jump_back o pid rip_ new_word newregs w
  = (Val regs',
     mk_world (mk_machine regs' mem') None (5 + clock w)
              ((PTRACE_GETREGS, true) :: (WAIT, true)
               :: (PTRACE_SINGLESTEP, true)
               :: (PTRACE_POKETEXT (wrap64 (rip newregs)) data, true)
               :: (PTRACE_SETREGS (set_rax rip_ newregs), true) :: trace w)
              ((rip newregs, 8) :: poke_log w) (out w) (err w)).
Proof.
  intros data mem' regs' Hb. unfold jump_back. cbv zeta.
  rewrite bind_unfold, setregs_ok. cbv beta iota.
  change (negb (0 =? 0)) with false. rewrite bind_when_false.
  replace (rip (set_rax rip_ newregs)) with (rip newregs) by reflexivity.
  rewrite bind_unfold, poke_word_ok. cbv beta iota.
  fold data. cbn [target issue regs mem]. fold mem'.
  destruct (jmp_word_bytes new_word Hb) as (b2 & b3 & b4 & b5 & b6 & b7 & Hw & Hall).
  assert (S1 : step_machine o (mk_machine (set_rax rip_ newregs) mem')
               = (mk_machine regs' mem', WStopped SIGTRAP)).
  { rewrite step_jmp; [reflexivity | |]; cbn [regs mem];
      replace (rip (set_rax rip_ newregs)) with (rip newregs) by reflexivity;
      unfold mem'; rewrite store8_inside.
    - replace (wrap64 (rip newregs - wrap64 (rip newregs))) with 0 by wrap_lia.
      subst data. rewrite Hw. apply (byte_at_le_word _ 0 Hall). simpl; lia.
    - wrap_lia.
    - replace (wrap64 (wrap64 (rip newregs + 1) - wrap64 (rip newregs)))
        with 1 by wrap_lia.
      subst data. rewrite Hw. apply (byte_at_le_word _ 1 Hall). simpl; lia.
    - wrap_lia. }
  rewrite bind_unfold, singlestep_ok;
    cbn [target]; rewrite S1; [|reflexivity].
  cbn [fst snd]. cbv beta iota.
  change (negb (0 =? 0)) with false. rewrite bind_when_false.
  rewrite bind_unfold, getregs_ok. cbv beta iota.
  rewrite bind_ret. cbn [target issue regs].
  replace (rip regs') with rip_ by reflexivity.
  rewrite Z.eqb_refl. cbn [negb]. rewrite bind_when_false.
  reflexivity.
Qed.

(** The remote [munmap], when the stub is still at the old instruction
    pointer. *)
Lemma remote_munmap_ok (mmap_memory : Z) (newregs : user_regs_struct)
    (w : world) :
  let regs_in := set_rsi PAGE_SIZE (set_rdi mmap_memory (set_rax 11 newregs)) in
  let m_in := mk_machine regs_in (mem (target w)) in
  let next := wrap64 (rip newregs + 2) in
  let regs' := set_rip next (set_r11 (eflags newregs)
                 (set_rcx next (set_rax (wrap64 (syscall_ret o m_in)) regs_in))) in
  mem (target w) (rip newregs) = 15 ->
  mem (target w) (wrap64 (rip newregs + 1)) = 5 ->
  remote_munmap o pid mmap_memory newregs w
  = (Val tt,
     mk_world (mk_machine regs' (mem (target w))) None (4 + clock w)
              ((PTRACE_GETREGS, true) :: (WAIT, true)
               :: (PTRACE_SINGLESTEP, true)
               :: (PTRACE_SETREGS regs_in, true) :: trace w)
              (poke_log w) (out w) (err w)).
Proof.
  intros regs_in m_in next regs' H0 H1. unfold remote_munmap. cbv zeta.
  rewrite bind_unfold, setregs_ok. cbv beta iota.
  change (negb (0 =? 0)) with false. rewrite bind_when_false.
  cbn [target issue]. fold regs_in. fold m_in.
  assert (S1 : step_machine o m_in
               = (mk_machine regs' (mem (target w)), WStopped SIGTRAP)).
  { rewrite step_munmap; [reflexivity | exact H0 | exact H1 | reflexivity]. }
  rewrite bind_unfold, singlestep_ok;
    cbn [target issue]; rewrite S1; [|reflexivity].
  cbn [fst snd]. cbv beta iota.
  change (negb (0 =? 0)) with false. rewrite bind_when_false.
  rewrite bind_unfold, getregs_ok. reflexivity.
Qed.

(** The last stretch: old text, old registers, detach. *)
Lemma restore_and_detach_ok (rip_ : Z) (old_word : list Z)
    (oldregs : user_regs_struct) (w : world) :
  let data := le_word (buf_read old_word 0 8) in
  restore_and_detach o pid rip_ old_word oldregs w
  = (Ret 0,
     mk_world (mk_machine oldregs (store8 (mem (target w)) (wrap64 rip_) data))
              (pending w) (3 + clock w)
              ((PTRACE_DETACH, true) :: (PTRACE_SETREGS oldregs, true)
               :: (PTRACE_POKETEXT (wrap64 rip_) data, true) :: trace w)
              ((rip_, 8) :: poke_log w) (out w) (err w)).
Proof.
  intros data. unfold restore_and_detach.
  rewrite bind_unfold, poke_word_ok. cbv beta iota.
  rewrite bind_unfold, setregs_ok. cbv beta iota.
  change (negb (0 =? 0)) with false. rewrite bind_when_false.
  rewrite bind_unfold, detach_ok. cbv beta iota.
  change (negb (0 =? 0)) with false. rewrite bind_when_false.
  reflexivity.
Qed.

End NoFault.

(** ** The jump back to the old instruction pointer *)

Lemma issued_app (w w' : world) (new : list (request * bool)) :
  trace w' = new ++ trace w -> issued w w' = rev new.
Proof.
  intros H. unfold issued. rewrite H, length_app.
  replace (List.length new + List.length (trace w) - List.length (trace w))%nat
    with (List.length new + 0)%nat by lia.
  rewrite firstn_app_2. cbn [firstn]. now rewrite app_nil_r.
Qed.

Ltac new_part t w :=
  lazymatch t with
  | trace w => constr:(@nil (request * bool))
  | ?e :: ?r => let n := new_part r w in constr:(e :: n)
  end.

Ltac crunch :=
  cbv - [wrap64 le_word buf_read jmp_word store8 step_machine byte_at fault
         issued rev firstn List.length app Nat.sub SIGTRAP Z.eqb Z.add
         set_rax set_rip set_rdi set_rsi
         r15 r14 r13 r12 rbp rbx r11 r10 r9 r8 rax rcx rdx rsi rdi orig_rax
         rip cs eflags rsp ss fs_base gs_base ds es fs gs
         target pending clock trace poke_log out err regs mem];
  cbn [target pending clock trace poke_log out err regs mem fst snd].

Ltac split_faults o :=
  repeat (crunch;
          match goal with
          | |- context [fault o ?c] => destruct (fault o c) eqn:?
          | |- context [step_machine o ?m] =>
              destruct (step_machine o m) as [? ?] eqn:?
          | |- context [match ?st with WStopped _ => _ | _ => _ end] =>
              destruct st
          | |- context [?a =? ?b] =>
              destruct (Z.eqb_spec a b); try discriminate; try (exfalso; lia)
          end).

(** C8 (as amended).  After the breakpoint, [getenv_process] installs the
    working registers with [rax] set to the old instruction pointer, then
    writes, without capture and without looking at the result, one word
    that begins with the two bytes of [jmp *%rax] at the instruction
    pointer it read after the trap (not at the old instruction pointer),
    then single-steps once.  It goes on only if the registers read after
    the step show the old instruction pointer, which is then where the
    target is; in every other case it goes to the fail label.  When no
    request fails it always goes on. *)
Theorem jump_back_lands_or_fails (o : oracle) (pid rip_ : Z)
    (new_word : list Z) (newregs : user_regs_struct) (w : world) :
  let res := jump_back o pid rip_ new_word newregs w in
  let site := wrap64 (rip newregs) in
  let data := le_word (buf_read (jmp_word new_word) 0 8) in
  (fst res = Fail \/
   exists regs', fst res = Val regs' /\ rip regs' = rip_ /\
                 regs (target (snd res)) = regs') /\
  (issued w (snd res) = [(PTRACE_SETREGS (set_rax rip_ newregs), false)] \/
   exists ok2 ok3 rest,
     issued w (snd res)
     = (PTRACE_SETREGS (set_rax rip_ newregs), true)
       :: (PTRACE_POKETEXT site data, ok2)
       :: (PTRACE_SINGLESTEP, ok3) :: rest) /\
  (all_bytes new_word -> byte_at 0 data = 255 /\ byte_at 1 data = 224) /\
  ((forall i, fault o i = false) -> all_bytes new_word ->
   fst res = Val (set_rip rip_ (set_rax rip_ newregs))).
Proof.
  intros res site data. split; [|split; [|split]].
  - subst res. unfold jump_back, poke_text, poke_words, singlestep, do_wait,
      ptrace_setregs, ptrace_poketext, ptrace_singlestep, ptrace_getregs,
      sys_wait, bind, when, ret, goto_fail, perror, eprint.
    change (negb (8 mod 8 =? 0)) with false.
    change (Z.to_nat (8 / 8)) with 1%nat.
    split_faults o; try (left; reflexivity).
    all: try (right; eexists; split; [reflexivity|]; split; [assumption | reflexivity]).
  - subst res. unfold jump_back, poke_text, poke_words, singlestep, do_wait,
      ptrace_setregs, ptrace_poketext, ptrace_singlestep, ptrace_getregs,
      sys_wait, bind, when, ret, goto_fail, perror, eprint.
    change (negb (8 mod 8 =? 0)) with false.
    change (Z.to_nat (8 / 8)) with 1%nat.
    split_faults o.
    all: rewrite ?Z.add_0_r.
    all: match goal with
         | |- context [issued ?w0 ?W] =>
             let t := eval cbn [trace] in (trace W) in
             let n := new_part t w0 in
             rewrite (issued_app w0 W n) by reflexivity
         end; cbn [rev app].
    all: first [ left; reflexivity | right; do 3 eexists; reflexivity ].
  - intros Hb. destruct (jmp_word_bytes new_word Hb)
      as (b2 & b3 & b4 & b5 & b6 & b7 & Hw & Hall).
    subst data. rewrite Hw. split.
    + apply (byte_at_le_word _ 0 Hall). simpl; lia.
    + apply (byte_at_le_word _ 1 Hall). simpl; lia.
  - intros Hnf Hb. subst res. now rewrite (jump_back_ok o Hnf pid).
Qed.

(** The theorem at work on the harness, where no request fails. *)
Lemma jump_back_lands_or_fails_witness :
  fst (jump_back Harness.oracle0 Harness.target_pid Harness.text_base
         (syscall_word Harness.oracle0) Harness.regs0 Harness.world0)
  = Val (set_rip Harness.text_base
           (set_rax Harness.text_base Harness.regs0)).
Proof.
  apply (jump_back_lands_or_fails Harness.oracle0 Harness.target_pid
           Harness.text_base (syscall_word Harness.oracle0) Harness.regs0
           Harness.world0).
  - intros i. reflexivity.
  - apply Forall_forall. intros b Hin. vm_compute in Hin.
    repeat (destruct Hin as [<- | Hin]; [lia|]). destruct Hin.
Defined.

(** ** How [getenv_process] can end *)

Lemma bind_ret_inv {A B : Type} (m : M A) (k : A -> M B) (w w' : world)
    (z : Z) :
  bind m k w = (Ret z, w') ->
  m w = (Ret z, w') \/ exists a w1, m w = (Val a, w1) /\ k a w1 = (Ret z, w').
Proof.
  unfold bind. destruct (m w) as [[a|r| | | |] w1]; intros H;
    try discriminate.
  - right. eauto.
  - left. injection H as -> ->. reflexivity.
Qed.

Lemma bind_val_inv {A B : Type} (m : M A) (k : A -> M B) (w w' : world)
    (b : B) :
  bind m k w = (Val b, w') ->
  exists a w1, m w = (Val a, w1) /\ k a w1 = (Val b, w').
Proof.
  unfold bind. destruct (m w) as [[a|r| | | |] w1]; intros H;
    try discriminate.
  eauto.
Qed.

(** What a stretch returns early, read off its [steps] lemma. *)
Lemma returns_in {A : Type} (S : Z -> Prop) (m : M A) (V : A -> Prop)
    (w w' : world) (z : Z) :
  steps anyhow S m V -> m w = (Ret z, w') -> S z.
Proof. intros H E. destruct (H w) as [_ H2]. now rewrite E in H2. Qed.

Lemma falls_in {A : Type} (S : Z -> Prop) (m : M A) (V : A -> Prop)
    (w w' : world) (a : A) :
  steps anyhow S m V -> m w = (Val a, w') -> V a.
Proof. intros H E. destruct (H w) as [_ H2]. now rewrite E in H2. Qed.

Ltac shape L := eapply L; intros; first [exact I | reflexivity].

(** [H] says that a statement covered by the [steps] lemma [L] returned
    early with a value it never returns. *)
Ltac no_ret H L :=
  exfalso;
  first [ eapply (returns_in (fun _ => False)) in H;
          [ exact H | shape L ]
        | eapply (returns_in (eq (-1))) in H;
          [ discriminate H | shape L ]
        | eapply (returns_in (eq 1)) in H;
          [ discriminate H | shape L ] ].

(** Peeling one statement off a run that ends in [return z]. *)
Ltac peel H L :=
  let a := fresh "a" in
  let w1 := fresh "w" in
  apply bind_ret_inv in H as [H | (a & w1 & _ & H)];
  [ no_ret H L | ].

Section Shape.

Variable o : oracle.

Lemma when_ret_inv (c : bool) (body : M unit) (w w' : world) (z : Z) :
  when c body w = (Ret z, w') -> c = true /\ body w = (Ret z, w').
Proof. destruct c; [now split | discriminate]. Qed.

(** [return 0] is reached only right after a detach that succeeded. *)
Lemma restore_and_detach_zero (pid rip_ : Z) (old_word : list Z)
    (oldregs : user_regs_struct) (w w' : world) (z : Z) :
  restore_and_detach o pid rip_ old_word oldregs w = (Ret z, w') ->
  z = 0 /\
  exists w9, fault o (clock w9) = false /\
             w' = issue PTRACE_DETACH true (target w9) (pending w9) w9.
Proof.
  unfold restore_and_detach. intros H.
  peel H steps_poke_text.
  peel H steps_setregs.
  apply bind_ret_inv in H as [H | (? & w3 & _ & H)].
  { apply when_ret_inv in H as [_ H].
    apply bind_ret_inv in H as [H | (? & ? & _ & H)]; discriminate. }
  apply bind_ret_inv in H as [H | (r' & w4 & Hd & H)].
  { no_ret H steps_detach. }
  apply bind_ret_inv in H as [H | (? & w5 & Hw & H)].
  { apply when_ret_inv in H as [_ H].
    apply bind_ret_inv in H as [H | (? & ? & _ & H)]; discriminate. }
  injection H as <- <-. split; [reflexivity|].
  unfold ptrace_detach in Hd. exists w3.
  destruct (fault o (clock w3)); injection Hd as <- <-.
  - discriminate Hw.
  - injection Hw as <-. now split.
Qed.

Lemma session_zero (fuel : nat) (pid : Z) (env : list Z)
    (oldregs : user_regs_struct) (old_word new_word : list Z)
    (w w' : world) :
  session o fuel pid env oldregs old_word new_word w = (Ret 0, w') ->
  exists w9, fault o (clock w9) = false /\
             w' = issue PTRACE_DETACH true (target w9) (pending w9) w9.
Proof.
  unfold session. intros H.
  apply bind_ret_inv in H as [H | ([mmap_memory newregs] & w1 & _ & H)].
  { no_ret H steps_remote_mmap. }
  peel H steps_write_trampoline.
  peel H steps_remote_call.
  peel H steps_read_result.
  peel H steps_jump_back.
  peel H steps_remote_munmap.
  now apply restore_and_detach_zero in H as [_ H].
Qed.

Lemma with_fail_label_ret_inv {A : Type} (body handler : M A)
    (w w' : world) (z : Z) :
  with_fail_label body handler w = (Ret z, w') ->
  body w = (Ret z, w') \/
  exists w1, body w = (Fail, w1) /\ handler w1 = (Ret z, w').
Proof.
  unfold with_fail_label.
  destruct (body w) as [[a|r| | | |] w1]; intros H; try discriminate.
  - now left.
  - right. eauto.
Qed.

(** [getenv_process] gives 0 only through the [return 0] of its last
    line, right after a detach that succeeded. *)
Lemma getenv_process_zero (fuel : nat) (pid : Z) (env : list Z)
    (w w' : world) :
  getenv_process o fuel pid env w = (Val 0, w') ->
  exists w9, fault o (clock w9) = false /\
             w' = issue PTRACE_DETACH true (target w9) (pending w9) w9.
Proof.
  unfold getenv_process, call.
  match goal with |- context [match ?b w with _ => _ end] =>
    destruct (b w) as [[a|r| | | |] w1] eqn:H end;
    intros E; try discriminate E.
  { exfalso. clear E.
    apply bind_val_inv in H as (oldregs & w2 & _ & H). cbv zeta in H.
    apply bind_val_inv in H as ([r saved] & w3 & _ & H).
    unfold with_fail_label in H.
    match type of H with context [match ?b w3 with _ => _ end] =>
      destruct (b w3) as [[a'|r'| | | |] w4] eqn:Hb end;
      try discriminate H.
    - injection H as -> ->.
      apply bind_val_inv in Hb as (? & w5 & _ & Hb).
      eapply falls_in in Hb; [exact Hb | shape steps_session].
    - eapply falls_in in H; [exact H | shape steps_fail_path]. }
  injection E as -> ->.
  apply bind_ret_inv in H as [H | (oldregs & w2 & _ & H)].
  { no_ret H steps_attach_target. }
  cbv zeta in H.
  apply bind_ret_inv in H as [H | ([r saved] & w3 & _ & H)].
  { no_ret H steps_poke_text. }
  apply with_fail_label_ret_inv in H as [H | (w4 & _ & H)].
  - apply bind_ret_inv in H as [H | (? & w4 & _ & H)].
    { apply when_ret_inv in H as [_ H]. discriminate H. }
    now apply session_zero in H.
  - no_ret H steps_fail_path.
Qed.

End Shape.

(** ** The exit status *)

(** The statements under [fail:], whatever the kernel says. *)
Lemma fail_path_run (o : oracle) (pid rip_ : Z) (old_word : list Z)
    (w : world) :
  fail_path o pid rip_ old_word w
  = (Ret 1,
     mk_world
       (mk_machine (regs (target w))
          (if fault o (clock w) then mem (target w)
           else store8 (mem (target w)) (wrap64 rip_)
                       (le_word (buf_read old_word 0 8))))
       (pending w) (2 + clock w)
       ((PTRACE_DETACH, negb (fault o (S (clock w))))
        :: (PTRACE_POKETEXT (wrap64 rip_)
              (le_word (buf_read old_word 0 8)), negb (fault o (clock w)))
        :: trace w)
       ((rip_, 8) :: poke_log w) (out w)
       ((err w ++ if fault o (clock w) then ["PTRACE_POKETEXT"%string]
                  else [])
        ++ if fault o (S (clock w)) then ["PTRACE_DETACH"%string] else [])).
Proof.
  unfold fail_path, poke_text, bind.
  change (negb (8 mod 8 =? 0)) with false. cbv iota.
  change (Z.to_nat (8 / 8)) with 1%nat. cbn [poke_words].
  unfold bind, ret, ptrace_poketext, ptrace_detach, refused, issue, when,
    perror, eprint, return_.
  cbn [target pending clock trace poke_log out err].
  rewrite Z.add_0_r.
  destruct (fault o (clock w)); cbn [fst snd Z.ltb Z.compare];
    cbn [target pending clock trace poke_log out err];
    destruct (fault o (S (clock w))); cbn [negb Z.eqb];
    rewrite ?app_nil_r; try reflexivity.
  all: now destruct w as [[rg m] p c t l ou e].
Qed.

Section ExitStatus.

Variable o : oracle.

Lemma with_fail_label_val {A : Type} (body handler : M A) (w w' : world)
    (r : outcome A) :
  body w = (r, w') -> r <> Fail -> with_fail_label body handler w = (r, w').
Proof.
  unfold with_fail_label. intros -> H. destruct r; congruence.
Qed.


(** When the options are turned down, [main] returns what the loop
    returned. *)
Lemma main_rejected (fuel : nat) (opts : list getopt_result)
    (w w1 : world) (z : Z) :
  parse_options opts (-1) None 0 w = (Ret z, w1) ->
  main o fuel opts w = (Val z, w1).
Proof.
  intros H. unfold main, call. rewrite bind_unfold, H. reflexivity.
Qed.

(** When they are accepted, [main] returns what [getenv_process]
    returns, for the pid cut down to [pid_t]. *)
Lemma main_accepted (fuel : nat) (opts : list getopt_result)
    (w w1 : world) (pid : Z) (env : list Z) :
  parse_options opts (-1) None 0 w = (Val (pid, Some env), w1) ->
  (pid =? -1) = false ->
  main o fuel opts w = getenv_process o fuel (to_pid_t pid) env w1.
Proof.
  intros H Hp. unfold main, call at 1. rewrite bind_unfold, H.
  cbv beta iota. rewrite Hp, bind_when_false. rewrite bind_unfold.
  assert (Hs := steps_getenv_process anyhow (fun _ => I)
                  (fun _ _ _ _ _ => I) (fun _ _ _ _ _ => I)
                  (fun _ _ _ => I) (fun _ _ _ _ => I) o fuel
                  (to_pid_t pid) env w1).
  destruct Hs as [_ Hs].
  destruct (getenv_process o fuel (to_pid_t pid) env w1)
    as [[a|r| | | |] w2]; try reflexivity.
  contradiction.
Qed.



(** An early return of the first stretch is the result of
    [getenv_process]. *)
Lemma attach_target_returned (fuel : nat) (pid : Z) (env : list Z)
    (w w1 : world) (z : Z) :
  attach_target o pid w = (Ret z, w1) ->
  getenv_process o fuel pid env w = (Val z, w1).
Proof.
  intros H. unfold getenv_process, call. rewrite bind_unfold, H.
  reflexivity.
Qed.





End ExitStatus.





(** ** Reading the result leaves the target alone *)

Section Peeks.

Variable o : oracle.
Variable pid : Z.

(** A relation between worlds that holds across a request which does
    not touch the target. *)
Variable P : world -> world -> Prop.
Hypothesis P_refl : forall w, P w w.
Hypothesis P_trans : forall w1 w2 w3, P w1 w2 -> P w2 w3 -> P w1 w3.
Hypothesis P_peek : forall addr ok w,
  P w (issue (PTRACE_PEEKDATA addr) ok (target w) (pending w) w).

Lemma across_bind {A B : Type} (m : M A) (k : A -> M B) :
  (forall w, P w (snd (m w))) ->
  (forall a w, P w (snd (k a w))) ->
  forall w, P w (snd (bind m k w)).
Proof.
  intros Hm Hk w. unfold bind. specialize (Hm w).
  destruct (m w) as [[a|r| |c| |] w1]; cbn [snd] in *; try exact Hm.
  eapply P_trans; [exact Hm | apply Hk].
Qed.

Lemma across_peekdata (addr : Z) (w : world) :
  P w (snd (ptrace_peekdata o pid addr w)).
Proof.
  unfold ptrace_peekdata, refused.
  destruct (fault o (clock w)); apply P_peek.
Qed.

Lemma across_scan_loop (fuel : nat) (offs : Z) (w : world) :
  P w (snd (scan_loop o fuel pid offs w)).
Proof.
  revert offs w; induction fuel as [|fuel IH]; intros offs w;
    cbn [scan_loop]; [apply P_refl|].
  apply across_bind; [apply across_peekdata|].
  intros v w1. destruct (scan_break (wrap32 v)); [apply P_refl | apply IH].
Qed.

Lemma across_copy_loop (n : nat) (offs : Z) (buf : list Z) (i : Z)
    (w : world) :
  P w (snd (copy_loop o n pid offs buf i w)).
Proof.
  revert offs buf i w; induction n as [|n IH]; intros offs buf i w;
    cbn [copy_loop]; [apply P_refl|].
  apply across_bind; [apply across_peekdata|].
  intros v w1. apply IH.
Qed.

End Peeks.

Section ReadResult.

Variable o : oracle.
Variable pid : Z.

Lemma keeps_refl (w : world) : keeps w w.
Proof. now repeat split. Qed.

Lemma keeps_trans (w1 w2 w3 : world) :
  keeps w1 w2 -> keeps w2 w3 -> keeps w1 w3.
Proof.
  intros (A1 & A2 & A3) (B1 & B2 & B3). repeat split; congruence.
Qed.

Lemma keeps_peek (addr : Z) (ok : bool) (w : world) :
  keeps w (issue (PTRACE_PEEKDATA addr) ok (target w) (pending w) w).
Proof. now repeat split. Qed.

Lemma only_peeks_refl (w : world) : only_peeks w w.
Proof. exists []. now split. Qed.

Lemma only_peeks_trans (w1 w2 w3 : world) :
  only_peeks w1 w2 -> only_peeks w2 w3 -> only_peeks w1 w3.
Proof.
  intros (n1 & E1 & F1) (n2 & E2 & F2). exists (n2 ++ n1). split.
  - now rewrite E2, E1, app_assoc.
  - apply Forall_app. now split.
Qed.

Lemma only_peeks_peek (addr : Z) (ok : bool) (w : world) :
  only_peeks w (issue (PTRACE_PEEKDATA addr) ok (target w) (pending w) w).
Proof.
  exists [(PTRACE_PEEKDATA addr, ok)]. split; [reflexivity|].
  constructor; [exact I | constructor].
Qed.

(** Reading the result issues nothing but reads. *)
Lemma read_result_only_peeks (fuel : nat) (newregs : user_regs_struct)
    (w : world) :
  only_peeks w (snd (read_result o fuel pid newregs w)).
Proof.
  unfold read_result.
  destruct (negb (rax newregs =? 0)); [|apply only_peeks_refl].
  cbn [when]. revert w.
  apply (across_bind only_peeks only_peeks_trans);
    [apply (across_scan_loop o pid only_peeks only_peeks_refl
              only_peeks_trans only_peeks_peek)|].
  intros offs. apply (across_bind only_peeks only_peeks_trans);
    [apply (across_copy_loop o pid only_peeks only_peeks_refl
              only_peeks_trans only_peeks_peek)|].
  intros buf w. unfold print_line.
  destruct (cstring buf); exists []; now split.
Qed.

Lemma print_line_keeps (buf : list Z) (w : world) :
  keeps w (snd (print_line buf w)).
Proof.
  unfold print_line. destruct (cstring buf); now repeat split.
Qed.

Lemma read_result_keeps (fuel : nat) (newregs : user_regs_struct)
    (w : world) :
  keeps w (snd (read_result o fuel pid newregs w)).
Proof.
  unfold read_result. destruct (negb (rax newregs =? 0)); [|apply keeps_refl].
  cbn [when]. revert w.
  apply (across_bind keeps keeps_trans);
    [apply (across_scan_loop o pid keeps keeps_refl keeps_trans keeps_peek)|].
  intros offs. apply (across_bind keeps keeps_trans);
    [apply (across_copy_loop o pid keeps keeps_refl keeps_trans keeps_peek)|].
  intros buf. apply print_line_keeps.
Qed.

(** The two loops print nothing and leave the target alone. *)
Lemma loops_quiet (w w' : world) :
  (exists fuel offs, w' = snd (scan_loop o fuel pid offs w)) \/
  (exists n offs buf i, w' = snd (copy_loop o n pid offs buf i w)) ->
  out w' = out w /\ target w' = target w.
Proof.
  set (Q := fun w w' : world => out w' = out w /\ target w' = target w).
  assert (Qr : forall w, Q w w) by (now split).
  assert (Qt : forall w1 w2 w3, Q w1 w2 -> Q w2 w3 -> Q w1 w3).
  { intros w1 w2 w3 [A1 A2] [B1 B2]. split; congruence. }
  assert (Qp : forall addr ok w,
             Q w (issue (PTRACE_PEEKDATA addr) ok (target w) (pending w) w))
    by (now split).
  intros [(fuel & offs & ->) | (n & offs & buf & i & ->)].
  - apply (across_scan_loop o pid Q Qr Qt Qp).
  - apply (across_copy_loop o pid Q Qr Qt Qp).
Qed.

End ReadResult.

(** ** A lookup in which no request fails *)

(** The doubling loop ends within seven rounds when the name fits a page;
    the block then fits the page too. *)
Lemma grow_block_page (fuel : nat) (memsize : Z) (w : world) :
  (7 <= fuel)%nat -> memsize <= PAGE_SIZE ->
  exists B, grow_block fuel 32 memsize w = (Val B, w) /\
            B mod 8 = 0 /\ 32 <= B <= PAGE_SIZE /\ memsize <= B.
Proof.
  intros Hf Hm. unfold PAGE_SIZE in *.
  do 7 (destruct fuel as [|fuel]; [lia|]). clear Hf.
  cbn [grow_block].
  change (wrap64 (Z.shiftl 32 1)) with 64.
  change (wrap64 (Z.shiftl 64 1)) with 128.
  change (wrap64 (Z.shiftl 128 1)) with 256.
  change (wrap64 (Z.shiftl 256 1)) with 512.
  change (wrap64 (Z.shiftl 512 1)) with 1024.
  change (wrap64 (Z.shiftl 1024 1)) with 2048.
  change (wrap64 (Z.shiftl 2048 1)) with 4096.
  repeat match goal with
         | |- context [?a <? memsize] =>
             destruct (Z.ltb_spec a memsize);
             [|eexists; split; [reflexivity|];
               split; [reflexivity | lia]]
         end.
  destruct fuel; cbn [grow_block];
    (destruct (Z.ltb_spec 4096 memsize); [lia|]);
    (eexists; split; [reflexivity|]; split; [reflexivity | lia]).
Qed.

Lemma block_size_page (fuel : nat) (env : list Z) (w w' : world) :
  (7 <= fuel)%nat -> strlen env + 6 <= PAGE_SIZE ->
  let B := block_size fuel env w in
  grow_block fuel 32 (wrap64 (strlen env + 6)) w' = (Val B, w') /\
  B mod 8 = 0 /\ 32 <= B <= PAGE_SIZE.
Proof.
  intros Hf Hn B.
  assert (Hs : 0 <= strlen env) by (unfold strlen; lia).
  assert (Hw : wrap64 (strlen env + 6) <= PAGE_SIZE).
  { rewrite wrap64_small; [exact Hn | unfold PAGE_SIZE in Hn; lia]. }
  destruct (grow_block_page fuel _ w Hf Hw) as (B1 & E1 & H1 & H2 & _).
  destruct (grow_block_page fuel _ w' Hf Hw) as (B2 & E2 & _).
  assert (EB : B = B1) by (unfold B, block_size; now rewrite E1).
  assert (E12 : B1 = B2).
  { clear - E1 E2. revert E1 E2.
    generalize (wrap64 (strlen env + 6)). generalize 32.
    induction fuel as [|fuel IH]; intros b m; cbn [grow_block];
      destruct (b <? m).
    - discriminate.
    - unfold ret. congruence.
    - apply IH.
    - unfold ret. congruence. }
  rewrite EB, E12 at 1. rewrite EB. auto.
Qed.

(** [poke_text] leaves alone what lies outside the block it writes. *)
Lemma poked_mem_outside (m : Z -> Z) (where_ : Z) (new_text : list Z)
    (n : nat) (copied a : Z) :
  (forall j, 0 <= j < 8 * Z.of_nat n -> a <> wrap64 (where_ + copied + j)) ->
  0 <= a < 2 ^ 64 ->
  poked_mem m where_ new_text n copied a = m a.
Proof.
  revert m copied; induction n as [|n IH]; intros m copied H Ha;
    [reflexivity|].
  cbn [poked_mem]. rewrite IH.
  - apply store8_outside.
    destruct (Z.lt_ge_cases (wrap64 (a - wrap64 (where_ + copied))) 8)
      as [Hlt|]; [|assumption].
    exfalso. apply (H (wrap64 (a - wrap64 (where_ + copied)))).
    + split; [wrap_lia | lia].
    + wrap_lia.
  - intros j Hj. replace (where_ + (copied + 8) + j)
      with (where_ + copied + (8 + j)) by lia.
    apply H. lia.
  - exact Ha.
Qed.

(** Where [poke_text] writes. *)
Lemma poked_trace_addresses (where_ : Z) (new_text : list Z) (n : nat)
    (copied : Z) :
  Forall (fun e => match fst e with
                   | PTRACE_POKETEXT a _ =>
                       exists i, (i < n)%nat /\
                         a = wrap64 (where_ + (copied + 8 * Z.of_nat i))
                   | _ => False
                   end)
         (poked_trace where_ new_text n copied).
Proof.
  revert copied; induction n as [|n IH]; intros copied; cbn [poked_trace];
    [constructor|].
  apply Forall_app. split.
  - eapply Forall_impl; [|apply IH]. intros [rq ok]. cbn [fst].
    destruct rq; try contradiction. intros (i & Hi & ->).
    exists (S i). split; [lia|]. f_equal. lia.
  - constructor; [|constructor]. cbn [fst]. exists O. split; [lia|].
    f_equal. lia.
Qed.

Section Stub.

Variable o : oracle.

Lemma uninit_all_bytes (base : Z) (n : nat) : all_bytes (uninit o base n).
Proof.
  apply Forall_forall. intros b Hb. apply in_map_iff in Hb as [k [<- _]].
  apply Z.mod_pos_bound. lia.
Qed.

Lemma syscall_word_shape :
  exists b4 b5 b6 b7,
    syscall_word o = [15; 5; 255; 224; b4; b5; b6; b7] /\
    all_bytes [15; 5; 255; 224; b4; b5; b6; b7].
Proof.
  unfold syscall_word.
  assert (H := uninit_all_bytes 8 8). revert H.
  unfold uninit. cbn [seq map]. intros H.
  do 4 eexists. split; [reflexivity|].
  do 4 apply Forall_inv_tail in H.
  repeat (constructor; [lia|]). exact H.
Qed.

Lemma syscall_word_all_bytes : all_bytes (syscall_word o).
Proof.
  destruct syscall_word_shape as (b4 & b5 & b6 & b7 & -> & H). exact H.
Qed.

Lemma stub_word_bytes :
  byte_at 0 (stub_word o) = 15 /\ byte_at 1 (stub_word o) = 5 /\
  byte_at 2 (stub_word o) = 255 /\ byte_at 3 (stub_word o) = 224.
Proof.
  unfold stub_word.
  destruct syscall_word_shape as (b4 & b5 & b6 & b7 & -> & H).
  change (buf_read [15; 5; 255; 224; b4; b5; b6; b7] 0 8)
    with [15; 5; 255; 224; b4; b5; b6; b7].
  repeat apply conj.
  - apply (byte_at_le_word _ 0 H). simpl; lia.
  - apply (byte_at_le_word _ 1 H). simpl; lia.
  - apply (byte_at_le_word _ 2 H). simpl; lia.
  - apply (byte_at_le_word _ 3 H). simpl; lia.
Qed.

(** The saved word, read back, is the word that was in memory. *)
Lemma saved_word_read (m : Z -> Z) (pc : Z) :
  le_word (buf_read (saved_word o m pc) 0 8) = load8 m (wrap64 pc).
Proof.
  unfold saved_word, buf_write. change (Z.to_nat 0) with 0%nat.
  cbn [firstn app]. rewrite le_bytes_length.
  unfold uninit. rewrite skipn_all2 by (rewrite length_map, length_seq; cbn; lia).
  rewrite app_nil_r.
  assert (E : buf_read (le_bytes 8 (load8 m (wrap64 pc))) 0 8
              = le_bytes 8 (load8 m (wrap64 pc))).
  { cbn [le_bytes]. reflexivity. }
  rewrite E, le_word_le_bytes. change (256 ^ Z.of_nat 8) with (2 ^ 64).
  apply Z.mod_small. apply load8_range.
Qed.

End Stub.

Lemma mem_bytes_nth (m : Z -> Z) (a : Z) (n k : nat) :
  (k < n)%nat -> nth k (mem_bytes m a n) 0 = m (wrap64 (a + Z.of_nat k)).
Proof.
  intros H. unfold mem_bytes.
  rewrite (nth_indep _ 0 ((fun k => m (wrap64 (a + Z.of_nat k))) 0%nat))
    by (rewrite length_map, length_seq; exact H).
  rewrite (map_nth (fun k => m (wrap64 (a + Z.of_nat k)))).
  now rewrite seq_nth.
Qed.

Lemma mem_bytes_ext (m m' : Z -> Z) (a : Z) (n : nat) :
  (forall k, (k < n)%nat ->
             m (wrap64 (a + Z.of_nat k)) = m' (wrap64 (a + Z.of_nat k))) ->
  mem_bytes m a n = mem_bytes m' a n.
Proof.
  intros H. unfold mem_bytes. apply map_ext_in. intros k Hk.
  apply in_seq in Hk. apply H. lia.
Qed.

Lemma call_ext (body body' : M Z) (w w' : world) :
  body w = body' w' -> call body w = call body' w'.
Proof. unfold call. now intros ->. Qed.

Lemma with_fail_label_ext {A : Type} (body body' handler : M A)
    (w w' : world) :
  body w = body' w' ->
  with_fail_label body handler w = with_fail_label body' handler w'.
Proof. unfold with_fail_label. now intros ->. Qed.

Section Lookup.

Variable o : oracle.
Variable fuel : nat.
Variable pid : Z.
Variable env : list Z.
Variable w : world.

Hypothesis no_fault : forall i, fault o i = false.
Hypothesis wb : well_behaved o fuel pid env w.

Lemma page_bounds :
  0 <= scratch_page o w /\ scratch_page o w + PAGE_SIZE <= 2 ^ 64.
Proof.
  assert (H := wb_page _ _ _ _ _ wb). unfold is_errno in H.
  apply Z.leb_gt in H.
  assert (H' := wrap64_range (syscall_ret o
                  (mk_machine (mmap_regs (regs (target w))) (patched_mem o w)))).
  fold (scratch_page o w) in H'. unfold PAGE_SIZE. lia.
Qed.

(** The sixteen bytes of text lie outside the page. *)
Lemma text_outside_page (a : Z) :
  rip (regs (target w)) <= a < rip (regs (target w)) + 16 ->
  PAGE_SIZE <= wrap64 (a - scratch_page o w).
Proof.
  intros Ha. destruct page_bounds as [P1 P2].
  destruct (wb_rip _ _ _ _ _ wb) as [R1 R2].
  destruct (wb_apart _ _ _ _ _ wb) as [H | H];
    unfold PAGE_SIZE in *; wrap_lia.
Qed.

Lemma text_addr (k : Z) :
  0 <= k < 16 ->
  wrap64 (rip (regs (target w)) + k) = rip (regs (target w)) + k.
Proof.
  intros Hk. destruct (wb_rip _ _ _ _ _ wb) as [R1 R2].
  apply wrap64_small. lia.
Qed.

Lemma patched_mem_stub (k : Z) :
  0 <= k < 8 ->
  patched_mem o w (rip (regs (target w)) + k) = byte_at k (stub_word o).
Proof.
  intros Hk. destruct (wb_rip _ _ _ _ _ wb) as [R1 R2].
  unfold patched_mem. rewrite store8_inside.
  - f_equal. wrap_lia.
  - wrap_lia.
Qed.

Lemma mapped_mem_text (k : Z) :
  0 <= k < 16 ->
  mapped_mem o w (rip (regs (target w)) + k)
  = patched_mem o w (rip (regs (target w)) + k).
Proof.
  intros Hk. unfold mapped_mem, in_range.
  assert (H := text_outside_page (rip (regs (target w)) + k) ltac:(lia)).
  destruct (Z.ltb_spec (wrap64 (rip (regs (target w)) + k - scratch_page o w))
              PAGE_SIZE); [lia | reflexivity].
Qed.

Lemma trampoline_mem_text (k : Z) :
  0 <= k < 16 ->
  trampoline_mem o fuel pid env w (rip (regs (target w)) + k)
  = patched_mem o w (rip (regs (target w)) + k).
Proof.
  intros Hk. destruct (wb_rip _ _ _ _ _ wb) as [R1 R2].
  destruct page_bounds as [P1 P2].
  destruct (block_size_page fuel env w w (wb_fuel _ _ _ _ _ wb)
              (wb_name _ _ _ _ _ wb)) as (_ & B8 & B1 & B2).
  unfold trampoline_mem. cbv zeta.
  destruct (Z.lt_ge_cases k 8) as [Hk8 | Hk8].
  - rewrite store8_inside by wrap_lia. unfold patched_mem.
    rewrite store8_inside by wrap_lia. reflexivity.
  - rewrite store8_outside by wrap_lia.
    rewrite poked_mem_outside.
    + now apply mapped_mem_text.
    + intros j Hj.
      assert (Hj' : 0 <= j < PAGE_SIZE).
      { rewrite Z2Nat.id in Hj by (apply Z.div_pos; lia).
        assert (8 * (block_size fuel env w / 8) <= block_size fuel env w)
          by (apply Z.mul_div_le; lia).
        lia. }
      rewrite Z.add_0_r.
      assert (H := text_outside_page (rip (regs (target w)) + k) ltac:(lia)).
      unfold PAGE_SIZE in *. intros E. rewrite E in H. wrap_lia.
    + lia.
Qed.

Lemma library_base_found (p : Z) :
  library_base o p <> None ->
  exists lines v, maps o p = Some lines /\
                  find_in_lines lines libc_string = Some v /\
                  library_base o p = Some v.
Proof.
  unfold library_base. destruct (maps o p) as [lines|]; [|congruence].
  destruct (find_in_lines lines libc_string) as [v|] eqn:E; [|congruence].
  intros _. exists lines, v. repeat split. exact E.
Qed.

Lemma rip_mmap_regs (r : user_regs_struct) : rip (mmap_regs r) = rip r.
Proof. reflexivity. Qed.

Lemma rsi_mmap_regs (r : user_regs_struct) : rsi (mmap_regs r) = PAGE_SIZE.
Proof. reflexivity. Qed.

(** The run of [getenv_process] up to the stop on the trap. *)
Lemma lookup_to_stop :
  getenv_process o fuel pid env w
  = call (with_fail_label
            (read_result o fuel pid (regs (stopped o fuel pid env w)) ;;
             newregs <- jump_back o pid (rip (regs (target w)))
                          (syscall_word o)
                          (regs (stopped o fuel pid env w)) ;;
             remote_munmap o pid (scratch_page o w) newregs ;;
             restore_and_detach o pid (rip (regs (target w)))
               (saved_word o (mem (target w)) (rip (regs (target w))))
               (regs (target w)))
            (fail_path o pid (rip (regs (target w)))
               (saved_word o (mem (target w)) (rip (regs (target w))))))
         (stop_world o fuel pid env w).
Proof.
  destruct (wb_rip _ _ _ _ _ wb) as [R1 R2].
  destruct page_bounds as [P1 P2].
  destruct (library_base_found pid (wb_their_libc _ _ _ _ _ wb))
    as (lt & tl & Hm1 & Hf1 & Hl1).
  destruct (library_base_found _ (wb_our_libc _ _ _ _ _ wb))
    as (lc & ol & Hm2 & Hf2 & Hl2).
  assert (Hd := wb_reach _ _ _ _ _ wb).
  unfold call_delta in Hd. rewrite Hl1, Hl2 in Hd.
  assert (Edelta : signed64 (signed64 (wrap64 (tl + (getenv_local o - ol)))
                             - signed64 (scratch_page o w) - REL32_SZ)
                   = call_delta o pid w).
  { unfold call_delta. now rewrite Hl1, Hl2. }
  destruct (stub_word_bytes o) as (S0 & S1 & S2 & S3).
  assert (T0 := patched_mem_stub 0 ltac:(lia)).
  assert (T1 := patched_mem_stub 1 ltac:(lia)).
  assert (T2 := patched_mem_stub 2 ltac:(lia)).
  assert (T3 := patched_mem_stub 3 ltac:(lia)).
  rewrite <- (mapped_mem_text 2), S2 in T2 by lia.
  rewrite <- (mapped_mem_text 3), S3 in T3 by lia.
  rewrite S0 in T0. rewrite S1 in T1. rewrite Z.add_0_r in T0.
  destruct (block_size_page fuel env w w (wb_fuel _ _ _ _ _ wb)
              (wb_name _ _ _ _ _ wb)) as (_ & B8 & B1 & B2).
  unfold getenv_process. apply call_ext.
  rewrite bind_unfold, (attach_target_ok o no_fault pid w (wb_pid _ _ _ _ _ wb)).
  cbv beta iota zeta.
  rewrite bind_unfold, poke_word_capture_ok by exact no_fault.
  cbv beta iota. cbn [target pending clock trace poke_log out err regs mem].
  apply with_fail_label_ext.
  change (negb (0 =? 0)) with false. rewrite bind_when_false.
  unfold session. cbv zeta.
  fold (stub_word o). fold (patched_mem o w).
  rewrite bind_unfold, remote_mmap_ok; try exact no_fault;
    cbn [target pending clock trace poke_log out err regs mem];
    rewrite ?rip_mmap_regs, ?rsi_mmap_regs;
    fold (scratch_page o w);
    rewrite ?(wb_page _ _ _ _ _ wb);
    fold (mapped_mem o w).
  2:{ reflexivity. }
  2:{ exact T0. }
  2:{ rewrite text_addr by lia. exact T1. }
  2:{ rewrite text_addr by lia. exact T2. }
  2:{ rewrite (text_addr 2) by lia.
      replace (rip (regs (target w)) + 2 + 1)
        with (rip (regs (target w)) + 3) by lia.
      rewrite text_addr by lia. exact T3. }
  2:{ assert (H := wb_page _ _ _ _ _ wb). intros E. rewrite E in H.
      discriminate H. }
  rewrite bind_unfold,
    (write_trampoline_ok o no_fault pid fuel _ _ _ _ lt lc tl ol
       (block_size fuel env w) _ Hm1 Hf1 Hm2 Hf2
       (fun w' => proj1 (block_size_page fuel env w w'
                           (wb_fuel _ _ _ _ _ wb) (wb_name _ _ _ _ _ wb)))
       B8 Hd).
  cbv beta iota.
  cbn [target pending clock trace poke_log out err regs mem].
  rewrite Edelta. fold (stub_word o).
  rewrite bind_unfold, remote_call_ok; try exact no_fault;
    cbn [target pending clock trace poke_log out err regs mem].
  2:{ assert (Htrap := wb_trap _ _ _ _ _ wb).
      unfold call_machine, trampoline_mem, page_regs in Htrap.
      cbv zeta in Htrap. rewrite ?rip_mmap_regs in Htrap. exact Htrap. }
  cbv beta iota.
  unfold stop_world, requests_to_stop, stopped, call_machine, trampoline_mem,
    page_regs.
  cbv zeta. rewrite ?rip_mmap_regs.
  match goal with
  | |- ?f ?W1 = ?g ?W2 => assert (EW : W1 = W2)
  end.
  { f_equal.
    - lia.
    - cbn [app]. rewrite <- app_assoc. reflexivity. }
  rewrite EW. reflexivity.
Qed.

(** The text is still patched when the target stops, and after the
    jump word is written. *)
Lemma text_at_stop (k : Z) :
  0 <= k < 16 ->
  mem (stopped o fuel pid env w) (rip (regs (target w)) + k)
  = patched_mem o w (rip (regs (target w)) + k).
Proof.
  intros Hk. rewrite <- trampoline_mem_text by exact Hk.
  assert (H := f_equal (fun l => nth (Z.to_nat k) l 0)
                       (wb_text _ _ _ _ _ wb)).
  cbv beta in H. rewrite !mem_bytes_nth in H by lia.
  rewrite Z2Nat.id, text_addr in H by lia. exact H.
Qed.

Lemma text_after_jump_word (data : Z) (k : Z) :
  0 <= k < 16 ->
  store8 (mem (stopped o fuel pid env w))
         (wrap64 (rip (regs (stopped o fuel pid env w)))) data
         (rip (regs (target w)) + k)
  = patched_mem o w (rip (regs (target w)) + k).
Proof.
  intros Hk. destruct (wb_rip _ _ _ _ _ wb) as [R1 R2].
  destruct page_bounds as [P1 P2].
  rewrite store8_outside; [now apply text_at_stop|].
  rewrite (wb_after_trap _ _ _ _ _ wb).
  destruct (wb_apart _ _ _ _ _ wb); unfold PAGE_SIZE in *; wrap_lia.
Qed.

(** The run of [getenv_process] after the result is read. *)
Lemma lookup_from_stop (w' : world) :
  target w' = stopped o fuel pid env w -> pending w' = None ->
  (newregs <- jump_back o pid (rip (regs (target w))) (syscall_word o)
                (regs (stopped o fuel pid env w)) ;;
   remote_munmap o pid (scratch_page o w) newregs ;;
   restore_and_detach o pid (rip (regs (target w)))
     (saved_word o (mem (target w)) (rip (regs (target w))))
     (regs (target w))) w'
  = (Ret 0, end_world o fuel pid env w w').
Proof.
  intros Ht Hp.
  rewrite bind_unfold, jump_back_ok
    by (first [exact no_fault | apply syscall_word_all_bytes]).
  cbv beta iota. rewrite Ht.
  destruct (stub_word_bytes o) as (S0 & S1 & _).
  rewrite bind_unfold, remote_munmap_ok; try exact no_fault;
    cbn [target pending clock trace poke_log out err regs mem].
  2:{ change (rip (set_rip (rip (regs (target w)))
                     (set_rax (rip (regs (target w)))
                        (regs (stopped o fuel pid env w)))))
        with (rip (regs (target w))).
      rewrite <- (Z.add_0_r (rip (regs (target w)))).
      rewrite text_after_jump_word, patched_mem_stub by lia. exact S0. }
  2:{ change (rip (set_rip (rip (regs (target w)))
                     (set_rax (rip (regs (target w)))
                        (regs (stopped o fuel pid env w)))))
        with (rip (regs (target w))).
      rewrite text_addr by lia.
      rewrite text_after_jump_word, patched_mem_stub by lia. exact S1. }
  cbv beta iota.
  rewrite restore_and_detach_ok by exact no_fault.
  cbn [target pending clock trace poke_log out err regs mem].
  unfold end_world, requests_from_stop, final_mem. cbv zeta.
  f_equal.
Qed.

(** The sixteen bytes of text are back when the target is detached. *)
Lemma final_mem_text :
  all_bytes (mem_bytes (mem (target w)) (rip (regs (target w))) 8) ->
  mem_bytes (final_mem o fuel pid env w) (rip (regs (target w))) 16
  = mem_bytes (mem (target w)) (rip (regs (target w))) 16.
Proof.
  intros Hb. destruct (wb_rip _ _ _ _ _ wb) as [R1 R2].
  apply mem_bytes_ext. intros k Hk. rewrite text_addr by lia.
  unfold final_mem.
  destruct (Nat.lt_ge_cases k 8) as [Hk8 | Hk8].
  - rewrite store8_inside by wrap_lia.
    rewrite saved_word_read.
    replace (wrap64 (rip (regs (target w)) + Z.of_nat k
                     - wrap64 (rip (regs (target w)))))
      with (Z.of_nat k) by wrap_lia.
    rewrite byte_at_load8 by exact Hk8.
    rewrite wrap64_add_l, text_addr by lia.
    apply Z.mod_small.
    unfold all_bytes in Hb. rewrite Forall_forall in Hb.
    rewrite <- (text_addr (Z.of_nat k)) by lia.
    rewrite <- (mem_bytes_nth _ _ 8) by exact Hk8.
    apply Hb. apply nth_In. unfold mem_bytes.
    rewrite length_map, length_seq. exact Hk8.
  - rewrite store8_outside by wrap_lia.
    rewrite text_after_jump_word by lia.
    unfold patched_mem. apply store8_outside. wrap_lia.
Qed.

(** Every write of the session goes to the old instruction pointer or
    into the page. *)
Lemma requests_to_stop_split :
  exists front,
    requests_to_stop o fuel pid env w
    = front ++ [(PTRACE_POKETEXT (rip (regs (target w))) (stub_word o), true);
                (PTRACE_PEEKTEXT (rip (regs (target w))), true);
                (PTRACE_GETREGS, true); (WAITPID, true);
                (PTRACE_ATTACH, true)] /\
    Forall (writes_within (rip (regs (target w))) (scratch_page o w)) front.
Proof.
  destruct (wb_rip _ _ _ _ _ wb) as [R1 R2].
  destruct page_bounds as [P1 P2].
  destruct (block_size_page fuel env w w (wb_fuel _ _ _ _ _ wb)
              (wb_name _ _ _ _ _ wb)) as (_ & B8 & B1 & B2).
  assert (Epc : wrap64 (rip (regs (target w))) = rip (regs (target w)))
    by (apply wrap64_small; lia).
  unfold requests_to_stop. cbv zeta. rewrite Epc.
  eexists. split.
  - rewrite app_assoc.
    change [(PTRACE_GETREGS, true); (WAIT, true); (PTRACE_SINGLESTEP, true);
            (PTRACE_GETREGS, true); (WAIT, true); (PTRACE_SINGLESTEP, true);
            (PTRACE_SETREGS (mmap_regs (regs (target w))), true);
            (PTRACE_POKETEXT (rip (regs (target w))) (stub_word o), true);
            (PTRACE_PEEKTEXT (rip (regs (target w))), true);
            (PTRACE_GETREGS, true); (WAITPID, true); (PTRACE_ATTACH, true)]
      with ([(PTRACE_GETREGS, true); (WAIT, true); (PTRACE_SINGLESTEP, true);
             (PTRACE_GETREGS, true); (WAIT, true); (PTRACE_SINGLESTEP, true);
             (PTRACE_SETREGS (mmap_regs (regs (target w))), true)]
            ++ [(PTRACE_POKETEXT (rip (regs (target w))) (stub_word o), true);
                (PTRACE_PEEKTEXT (rip (regs (target w))), true);
                (PTRACE_GETREGS, true); (WAITPID, true);
                (PTRACE_ATTACH, true)]).
    rewrite app_assoc. reflexivity.
  - apply Forall_app. split; [apply Forall_app; split|].
    + repeat (constructor; [first [exact I | now left]|]). constructor.
    + eapply Forall_impl; [|apply poked_trace_addresses].
      intros [rq ok]. unfold writes_within. cbn [fst].
      destruct rq; try contradiction. intros (i & Hi & ->). right.
      assert (8 * (block_size fuel env w / 8) <= block_size fuel env w)
        by (apply Z.mul_div_le; lia).
      assert (Z.of_nat i < block_size fuel env w / 8) by lia.
      unfold PAGE_SIZE in *. rewrite wrap64_small; lia.
    + repeat (constructor; [exact I|]). constructor.
Qed.

Lemma requests_from_stop_split :
  exists back,
    requests_from_stop o fuel pid env w
    = [(PTRACE_DETACH, true); (PTRACE_SETREGS (regs (target w)), true);
       (PTRACE_POKETEXT (rip (regs (target w)))
          (load8 (mem (target w)) (rip (regs (target w)))), true)]
      ++ back /\
    Forall (writes_within (rip (regs (target w))) (scratch_page o w)) back.
Proof.
  destruct (wb_rip _ _ _ _ _ wb) as [R1 R2].
  destruct page_bounds as [P1 P2].
  assert (Epc : wrap64 (rip (regs (target w))) = rip (regs (target w)))
    by (apply wrap64_small; lia).
  unfold requests_from_stop. cbv zeta.
  rewrite saved_word_read, Epc, (wb_after_trap _ _ _ _ _ wb).
  eexists. split; [reflexivity|].
  repeat (constructor; [first [exact I | idtac]|]); [|constructor].
  right. unfold writes_within, PAGE_SIZE in *. rewrite wrap64_small; lia.
Qed.

Lemma stop_world_target :
  target (stop_world o fuel pid env w) = stopped o fuel pid env w /\
  pending (stop_world o fuel pid env w) = None /\
  out (stop_world o fuel pid env w) = out w.
Proof. now repeat split. Qed.

(** When the result is read without mishap the lookup returns 0 ... *)
Lemma lookup_returns (w' : world) :
  read_result o fuel pid (regs (stopped o fuel pid env w))
              (stop_world o fuel pid env w) = (Val tt, w') ->
  getenv_process o fuel pid env w = (Val 0, end_world o fuel pid env w w').
Proof.
  intros Hr. rewrite lookup_to_stop.
  destruct (read_result_keeps o pid fuel (regs (stopped o fuel pid env w))
              (stop_world o fuel pid env w)) as (K1 & K2 & _).
  rewrite Hr in K1, K2. cbn [snd] in K1, K2.
  unfold call, with_fail_label. rewrite bind_unfold, Hr. cbv beta iota.
  rewrite lookup_from_stop; [reflexivity | exact K1 | exact K2].
Qed.

(** ... and it returns 0 in no other way. *)
Lemma lookup_returned (w1 : world) :
  getenv_process o fuel pid env w = (Val 0, w1) ->
  exists w', read_result o fuel pid (regs (stopped o fuel pid env w))
                         (stop_world o fuel pid env w) = (Val tt, w') /\
             w1 = end_world o fuel pid env w w'.
Proof.
  intros H.
  destruct (read_result o fuel pid (regs (stopped o fuel pid env w))
              (stop_world o fuel pid env w)) as [[[]|r| |c| |] w'] eqn:Hr.
  - exists w'. split; [reflexivity|].
    rewrite (lookup_returns w' Hr) in H. now injection H.
  - exfalso. no_ret Hr steps_read_result.
  - exfalso. rewrite lookup_to_stop in H.
    unfold call, with_fail_label in H. rewrite bind_unfold, Hr in H.
    cbv beta iota in H.
    match type of H with context [fail_path ?a ?b ?c ?d ?e] =>
      destruct (fail_path a b c d e) as [[x|r| |c'| |] w2] eqn:Hf end;
      try discriminate H.
    + eapply falls_in in Hf; [exact Hf | shape steps_fail_path].
    + eapply (returns_in (eq 1)) in Hf; [|shape steps_fail_path].
      subst r. discriminate H.
  - exfalso. rewrite lookup_to_stop in H.
    unfold call, with_fail_label in H. rewrite bind_unfold, Hr in H.
    discriminate H.
  - exfalso. rewrite lookup_to_stop in H.
    unfold call, with_fail_label in H. rewrite bind_unfold, Hr in H.
    discriminate H.
  - exfalso. rewrite lookup_to_stop in H.
    unfold call, with_fail_label in H. rewrite bind_unfold, Hr in H.
    discriminate H.
Qed.

(** What a lookup that returned 0 has done to the target. *)
Lemma lookup_restores (w1 : world) :
  getenv_process o fuel pid env w = (Val 0, w1) ->
  let pc := rip (regs (target w)) in
  regs (target w1) = regs (target w) /\
  (all_bytes (mem_bytes (mem (target w)) pc 8) ->
   mem_bytes (mem (target w1)) pc 16 = mem_bytes (mem (target w)) pc 16) /\
  exists mid,
    trace w1
    = [(PTRACE_DETACH, true); (PTRACE_SETREGS (regs (target w)), true);
       (PTRACE_POKETEXT pc (load8 (mem (target w)) pc), true)]
      ++ mid
      ++ [(PTRACE_POKETEXT pc (stub_word o), true);
          (PTRACE_PEEKTEXT pc, true);
          (PTRACE_GETREGS, true); (WAITPID, true); (PTRACE_ATTACH, true)]
      ++ trace w /\
    Forall (writes_within pc (scratch_page o w)) mid.
Proof.
  intros H pc. destruct (lookup_returned w1 H) as (w' & Hr & ->).
  split; [reflexivity|]. split; [exact final_mem_text|].
  destruct (read_result_only_peeks o pid fuel
              (regs (stopped o fuel pid env w)) (stop_world o fuel pid env w))
    as (new & En & Fn).
  rewrite Hr in En. cbn [snd] in En.
  destruct requests_to_stop_split as (front & Ef & Ff).
  destruct requests_from_stop_split as (back & Eb & Fb).
  exists (back ++ new ++ front). split.
  - cbn [end_world trace]. rewrite En. cbn [stop_world trace].
    rewrite Eb, Ef. rewrite <- !app_assoc. reflexivity.
  - apply Forall_app. split; [exact Fb|].
    apply Forall_app. split; [|exact Ff].
    eapply Forall_impl; [|exact Fn].
    intros [rq ok]. unfold is_peekdata, writes_within. cbn [fst].
    now destruct rq.
Qed.

End Lookup.

(** ** Reading a string out of the target *)

Lemma le_bytes_le_word (bs : list Z) :
  all_bytes bs -> le_bytes (List.length bs) (le_word bs) = bs.
Proof.
  induction 1 as [|b bs Hb _ IH]; [reflexivity|].
  cbn [List.length le_bytes le_word]. f_equal.
  - rewrite (Z.mul_comm 256), Z.mod_add by lia. now apply Z.mod_small.
  - rewrite (Z.mul_comm 256), Z.div_add by lia.
    rewrite Z.div_small by exact Hb. exact IH.
Qed.

Lemma low_bytes_cons (m : Z -> Z) (a : Z) (n : nat) :
  low_bytes m a (S n) = m (wrap64 a) mod 256 :: low_bytes m (a + 1) n.
Proof.
  unfold low_bytes, mem_bytes. cbn [seq map]. rewrite Z.add_0_r. f_equal.
  rewrite <- seq_shift, !map_map. apply map_ext. intros k.
  replace (a + Z.of_nat (S k)) with (a + 1 + Z.of_nat k) by lia.
  reflexivity.
Qed.

Lemma low_bytes_app (m : Z -> Z) (a : Z) (n k : nat) :
  low_bytes m a (n + k) = low_bytes m a n ++ low_bytes m (a + Z.of_nat n) k.
Proof.
  revert a; induction n as [|n IH]; intros a.
  - cbn [Nat.add]. unfold low_bytes at 2, mem_bytes. cbn [seq map app].
    now rewrite Z.add_0_r.
  - cbn [Nat.add]. rewrite !low_bytes_cons, IH. cbn [app].
    replace (a + 1 + Z.of_nat n) with (a + Z.of_nat (S n)) by lia.
    reflexivity.
Qed.

Lemma low_bytes_wrap (m : Z -> Z) (a : Z) (n : nat) :
  low_bytes m (wrap64 a) n = low_bytes m a n.
Proof.
  unfold low_bytes, mem_bytes. rewrite !map_map. apply map_ext. intros k.
  now rewrite wrap64_add_l.
Qed.

Lemma low_bytes_length (m : Z -> Z) (a : Z) (n : nat) :
  List.length (low_bytes m a n) = n.
Proof. unfold low_bytes, mem_bytes. now rewrite !length_map, length_seq. Qed.

Lemma low_bytes_nth (m : Z -> Z) (a : Z) (n k : nat) :
  (k < n)%nat ->
  nth k (low_bytes m a n) 0 = m (wrap64 (a + Z.of_nat k)) mod 256.
Proof.
  intros H. unfold low_bytes.
  change 0 with ((fun b => b mod 256) 0) at 1.
  rewrite map_nth. now rewrite mem_bytes_nth.
Qed.

(** The four bytes the loops take from one peek. *)
Lemma le_bytes_load8 (m : Z -> Z) (a : Z) :
  le_bytes 4 (wrap32 (load8 m a)) = low_bytes m a 4.
Proof.
  rewrite load8_bytes, wrap32_le8 by (apply Z.mod_pos_bound; lia).
  set (b0 := m (wrap64 (a + 0)) mod 256). set (b1 := m (wrap64 (a + 1)) mod 256).
  set (b2 := m (wrap64 (a + 2)) mod 256). set (b3 := m (wrap64 (a + 3)) mod 256).
  assert (H : all_bytes [b0; b1; b2; b3]).
  { repeat constructor; apply Z.mod_pos_bound; lia. }
  replace (b0 + 256 * b1 + 65536 * b2 + 16777216 * b3)
    with (le_word [b0; b1; b2; b3]) by (cbn [le_word]; lia).
  change 4%nat with (List.length [b0; b1; b2; b3]) at 1.
  rewrite (le_bytes_le_word _ H).
  unfold low_bytes, mem_bytes. cbn [seq map]. reflexivity.
Qed.

Lemma cstring_app (v rest : list Z) :
  Forall (fun b => 1 <= b < 256) v -> cstring (v ++ 0 :: rest) = Some v.
Proof.
  induction 1 as [|b v Hb _ IH]; [reflexivity|].
  cbn [app cstring]. destruct (Z.eqb_spec b 0); [lia|]. now rewrite IH.
Qed.

Section ReadString.

Variable o : oracle.
Variable pid : Z.
Hypothesis no_fault : forall i, fault o i = false.

Lemma load8_add_wrap (m : Z -> Z) (a b : Z) :
  load8 m (wrap64 a + b) = load8 m (a + b).
Proof.
  rewrite <- (load8_wrap m (wrap64 a + b)), wrap64_add_l. apply load8_wrap.
Qed.

(** The scan, when the first [n] words it reads have no zero byte and
    the next one has. *)
Lemma scan_loop_value (n fuel : nat) (offs : Z) (w : world) :
  (n < fuel)%nat ->
  (forall k, (k < n)%nat ->
     scan_break (wrap32 (load8 (mem (target w)) (offs + 4 * Z.of_nat k)))
     = false) ->
  scan_break (wrap32 (load8 (mem (target w)) (offs + 4 * Z.of_nat n))) = true ->
  fst (scan_loop o fuel pid offs w)
  = Val (wrap64 (offs + 4 * Z.of_nat (S n))).
Proof.
  revert fuel offs w; induction n as [|n IH]; intros fuel offs w Hf Hk Hn;
    (destruct fuel as [|fuel]; [lia|]); cbn [scan_loop];
    rewrite bind_unfold, (peekdata_ok o no_fault); cbv beta iota zeta.
  - rewrite Z.add_0_r in Hn. rewrite Hn. unfold ret. cbn [fst].
    replace (4 * Z.of_nat 1) with 4 by lia. reflexivity.
  - assert (H0 := Hk O ltac:(lia)). rewrite Z.add_0_r in H0. rewrite H0.
    rewrite IH.
    + rewrite wrap64_add_l.
      replace (offs + 4 + 4 * Z.of_nat (S n))
        with (offs + 4 * Z.of_nat (S (S n))) by lia.
      reflexivity.
    + lia.
    + intros k Hlt. cbn [target issue mem]. rewrite load8_add_wrap.
      replace (offs + 4 + 4 * Z.of_nat k) with (offs + 4 * Z.of_nat (S k))
        by lia.
      apply Hk. lia.
    + cbn [target issue mem]. rewrite load8_add_wrap.
      replace (offs + 4 + 4 * Z.of_nat n) with (offs + 4 * Z.of_nat (S n))
        by lia.
      exact Hn.
Qed.

(** The copy: [n] words of memory over the buffer, from word [j] on. *)
Lemma copy_loop_value (n j : nat) (offs : Z) (buf : list Z) (w : world) :
  (4 * (j + n) <= List.length buf)%nat ->
  fst (copy_loop o n pid offs buf (Z.of_nat j) w)
  = Val (firstn (4 * j) buf ++ low_bytes (mem (target w)) offs (4 * n)
         ++ skipn (4 * (j + n)) buf).
Proof.
  revert j offs buf w; induction n as [|n IH]; intros j offs buf w Hlen.
  - cbn [copy_loop]. unfold ret. cbn [fst]. f_equal.
    rewrite Nat.add_0_r. change (low_bytes _ _ (4 * 0)) with (@nil Z).
    cbn [app]. now rewrite firstn_skipn.
  - cbn [copy_loop].
    rewrite bind_unfold, (peekdata_ok o no_fault). cbv beta iota zeta.
    replace (Z.of_nat j + 1) with (Z.of_nat (S j)) by lia.
    rewrite IH.
    + cbn [target issue mem]. f_equal.
      rewrite le_bytes_load8.
      unfold buf_write. rewrite low_bytes_length.
      replace (Z.to_nat (4 * Z.of_nat j)) with (4 * j)%nat by lia.
      replace (4 * S n)%nat with (4 + 4 * n)%nat by lia.
      rewrite low_bytes_app, low_bytes_wrap.
      replace (4 * S j)%nat with (4 * j + 4)%nat by lia.
      rewrite firstn_app, firstn_firstn, length_firstn.
      replace (Nat.min (4 * j + 4) (4 * j)) with (4 * j)%nat by lia.
      replace (Nat.min (4 * j) (List.length buf)) with (4 * j)%nat by lia.
      replace (4 * j + 4 - 4 * j)%nat with 4%nat by lia.
      change (Z.of_nat 4) with 4.
      set (A := firstn (4 * j) buf).
      set (W := low_bytes (mem (target w)) offs 4).
      set (C := skipn (4 * j + 4) buf).
      assert (LA : List.length A = (4 * j)%nat)
        by (unfold A; rewrite length_firstn; lia).
      assert (LW : List.length W = 4%nat) by apply low_bytes_length.
      assert (E1 : firstn 4 (W ++ C) = W).
      { rewrite firstn_app, LW, Nat.sub_diag, firstn_O, app_nil_r.
        apply firstn_all2. lia. }
      assert (E2 : skipn (4 * (S j + n)) (A ++ W ++ C)
                   = skipn (4 * (j + S n)) buf).
      { rewrite app_assoc, skipn_app.
        rewrite skipn_all2 by (rewrite length_app; lia).
        cbn [app]. rewrite length_app, LA, LW. unfold C.
        rewrite skipn_skipn. f_equal. lia. }
      rewrite E1, E2, <- !app_assoc. reflexivity.
    + unfold buf_write. rewrite !length_app, length_firstn, length_skipn.
      rewrite le_bytes_length. lia.
Qed.

Lemma string_in_low_bytes (m : Z -> Z) (p : Z) (v : list Z) :
  string_in m p v ->
  low_bytes m p (List.length v) = v /\
  low_bytes m (p + Z.of_nat (List.length v)) 1 = [0].
Proof.
  intros (Hv & Hb & Hz). split.
  - apply (nth_ext _ _ 0 0); [apply low_bytes_length|].
    intros k Hk. rewrite low_bytes_length in Hk.
    rewrite low_bytes_nth, Hv by exact Hk.
    apply Z.mod_small. rewrite Forall_forall in Hb.
    assert (H := Hb _ (nth_In v 0 Hk)). cbv beta in H. lia.
  - unfold low_bytes, mem_bytes. cbn [seq map].
    now rewrite Z.add_0_r, Hz.
Qed.

(** On a string the scan stops at the first word that holds a zero byte,
    which is the word the terminator is in. *)
Lemma scan_loop_string (fuel : nat) (p : Z) (v : list Z) (w : world) :
  string_in (mem (target w)) p v ->
  (List.length v / 4 < fuel)%nat ->
  fst (scan_loop o fuel pid p w)
  = Val (wrap64 (p + 4 * Z.of_nat (S (List.length v / 4)))) /\
  (forall k, (k < List.length v / 4)%nat ->
     scan_break (wrap32 (load8 (mem (target w)) (p + 4 * Z.of_nat k)))
     = false) /\
  scan_break (wrap32 (load8 (mem (target w))
                        (p + 4 * Z.of_nat (List.length v / 4)))) = true.
Proof.
  intros (Hv & Hb & Hz) Hfuel.
  set (L := List.length v) in *.
  set (n := (L / 4)%nat) in *.
  assert (Hn : (4 * n <= L < 4 * n + 4)%nat).
  { unfold n. assert (H := Nat.div_mod_eq L 4).
    assert (H' := Nat.mod_upper_bound L 4 ltac:(lia)). lia. }
  assert (Hnz : forall k, (k < L)%nat ->
                  mem (target w) (wrap64 (p + Z.of_nat k)) mod 256 <> 0).
  { intros k Hk. rewrite Hv by exact Hk. rewrite Forall_forall in Hb.
    assert (H := Hb _ (nth_In v 0 Hk)). cbv beta in H.
    rewrite Z.mod_small; lia. }
  assert (H1 : forall k, (k < n)%nat ->
     scan_break (wrap32 (load8 (mem (target w)) (p + 4 * Z.of_nat k)))
     = false).
  { intros k Hk.
    destruct (scan_break (wrap32 (load8 (mem (target w))
                                        (p + 4 * Z.of_nat k)))) eqn:E;
      [|reflexivity].
    exfalso. apply scan_break_load8 in E as (j & Hj & E).
    apply (Hnz (4 * k + Z.to_nat j)%nat); [lia|].
    rewrite <- E. do 3 f_equal. lia. }
  assert (H2 : scan_break (wrap32 (load8 (mem (target w))
                                     (p + 4 * Z.of_nat n))) = true).
  { apply scan_break_load8. exists (Z.of_nat (L - 4 * n)). split; [lia|].
    rewrite <- Hz. do 3 f_equal. lia. }
  split; [|split; assumption].
  now apply scan_loop_value.
Qed.

(** The value of a variable that is set comes out whole, followed by a
    newline. *)
Lemma read_result_string (fuel : nat) (newregs : user_regs_struct)
    (v : list Z) (w : world) :
  rax newregs <> 0 ->
  string_in (mem (target w)) (rax newregs) v ->
  Z.of_nat (List.length v) + 4 < 2 ^ 64 ->
  (List.length v / 4 < fuel)%nat ->
  exists w', read_result o fuel pid newregs w = (Val tt, w') /\
             out w' = out w ++ v ++ [10].
Proof.
  intros Hp Hs Hlen Hfuel.
  set (p := rax newregs) in *.
  set (L := List.length v) in *.
  set (n := (L / 4)%nat) in *.
  assert (Hn : (4 * n <= L < 4 * n + 4)%nat).
  { unfold n. assert (H := Nat.div_mod_eq L 4).
    assert (H' := Nat.mod_upper_bound L 4 ltac:(lia)). lia. }
  destruct Hs as (Hv & Hb & Hz).
  assert (Hnz : forall k, (k < L)%nat ->
                  mem (target w) (wrap64 (p + Z.of_nat k)) mod 256 <> 0).
  { intros k Hk. rewrite Hv by exact Hk. rewrite Forall_forall in Hb.
    assert (H := Hb _ (nth_In v 0 Hk)). cbv beta in H.
    rewrite Z.mod_small; lia. }
  unfold read_result. fold p.
  destruct (Z.eqb_spec p 0) as [|_]; [contradiction|]. cbn [negb when].
  destruct (scan_loop_string fuel p v w (conj Hv (conj Hb Hz)) Hfuel)
    as (Hscan & _). fold L in Hscan. fold n in Hscan.
  assert (Hq := loops_quiet o pid w (snd (scan_loop o fuel pid p w))
                  (or_introl (ex_intro _ fuel (ex_intro _ p eq_refl)))).
  rewrite bind_unfold.
  destruct (scan_loop o fuel pid p w) as [r1 w1]. cbn [fst snd] in Hscan, Hq.
  destruct Hq as [Ho1 Ht1].
  rewrite Hscan.
  cbv beta iota zeta.
  assert (Eslen : wrap64 (wrap64 (p + 4 * Z.of_nat (S n)) - p)
                  = 4 * Z.of_nat (S n)).
  { assert (0 <= 4 * Z.of_nat (S n) < 2 ^ 64) by lia.
    generalize dependent (4 * Z.of_nat (S n)). intros c _ Hc. wrap_lia. }
  rewrite Eslen.
  replace (Z.to_nat (4 * Z.of_nat (S n) / 4)) with (S n)
    by (rewrite (Z.mul_comm 4), Z.div_mul by lia; lia).
  set (buf := map (fun k => heap_junk o (Z.of_nat k) mod 256)
                  (seq 0 (Z.to_nat (4 * Z.of_nat (S n) + 1)))).
  assert (Lbuf : List.length buf = (4 * S n + 1)%nat).
  { unfold buf. rewrite length_map, length_seq. lia. }
  assert (Hcopy := copy_loop_value (S n) 0 p buf w1 ltac:(lia)).
  assert (Hq := loops_quiet o pid w1 (snd (copy_loop o (S n) pid p buf 0 w1))
                  (or_intror (ex_intro _ (S n) (ex_intro _ p
                     (ex_intro _ buf (ex_intro _ 0 eq_refl)))))).
  change (Z.of_nat 0) with 0 in Hcopy.
  rewrite bind_unfold.
  destruct (copy_loop o (S n) pid p buf 0 w1) as [r2 w2].
  cbn [fst snd] in Hcopy, Hq. destruct Hq as [Ho2 Ht2].
  rewrite Hcopy. cbv beta iota.
  rewrite Ht1. change (firstn (4 * 0) buf) with (@nil Z). cbn [app].
  destruct (string_in_low_bytes (mem (target w)) p v
              (conj Hv (conj Hb Hz))) as [Ev E0].
  fold L in Ev, E0.
  replace (4 * S n)%nat with (L + (1 + (4 * S n - L - 1)))%nat by lia.
  rewrite !low_bytes_app, Ev. change (Z.of_nat 1) with 1. rewrite E0.
  rewrite <- !app_assoc. cbn [app].
  unfold print_line. rewrite cstring_app by exact Hb.
  eexists. split; [reflexivity|]. cbn [out]. now rewrite Ho2, Ho1.
Qed.

End ReadString.

(** ** A variable the target has not set *)

(** Options that are accepted leave no trace at all. *)
Lemma parse_options_accepts (opts : list getopt_result) (pid : Z)
    (env : option (list Z)) (errno : Z) (w : world)
    (x : Z * option (list Z)) :
  fst (parse_options opts pid env errno w) = Val x ->
  snd (parse_options opts pid env errno w) = w.
Proof.
  revert pid env errno.
  induction opts as [|[ |optarg|optarg|optopt] opts IH];
    intros pid env errno; cbn [parse_options].
  - reflexivity.
  - discriminate.
  - destruct (strtol optarg 10) as [v ov].
    match goal with |- context [if ?c then _ else _] => destruct c end;
      [discriminate|].
    destruct (v <? 0); [discriminate | apply IH].
  - apply IH.
  - destruct (optopt =? 112); [discriminate|].
    destruct (optopt =? 101); [discriminate|].
    destruct ((32 <=? optopt) && (optopt <=? 126)); discriminate.
Qed.

(** [main] on accepted options is [getenv_process] on the same world. *)
Lemma main_runs_lookup (o : oracle) (fuel : nat) (opts : list getopt_result)
    (w : world) (p : Z) (env : list Z) :
  fst (parse_options opts (-1) None 0 w) = Val (p, Some env) -> p <> -1 ->
  main o fuel opts w = getenv_process o fuel (to_pid_t p) env w.
Proof.
  intros Hp Hn. apply main_accepted; [|now apply Z.eqb_neq].
  assert (Hw := parse_options_accepts _ _ _ _ _ _ Hp).
  destruct (parse_options opts (-1) None 0 w) as [r w1].
  cbn in Hp, Hw. now subst.
Qed.

(** C5.  When no request fails, the target is well behaved and its
    [getenv] returns null, [getenv_process] returns 0 and writes nothing
    to standard output; the requests it issues end with the whole
    restoration sequence (the jump back, the [munmap], the old text,
    the old registers, the detach), and [main] exits with status 0. *)
Theorem absent_variable_is_success (o : oracle) (fuel : nat) (pid : Z)
    (env : list Z) (w : world) :
  (forall i, fault o i = false) ->
  well_behaved o fuel pid env w ->
  rax (regs (stopped o fuel pid env w)) = 0 ->
  let res := getenv_process o fuel pid env w in
  fst res = Val 0 /\
  out (snd res) = out w /\
  trace (snd res)
  = requests_from_stop o fuel pid env w
    ++ requests_to_stop o fuel pid env w ++ trace w /\
  hd_error (requests_from_stop o fuel pid env w) = Some (PTRACE_DETACH, true) /\
  regs (target (snd res)) = regs (target w) /\
  (forall opts p,
     fst (parse_options opts (-1) None 0 w) = Val (p, Some env) ->
     p <> -1 -> to_pid_t p = pid ->
     exit_status (fst (main o fuel opts w)) = Some 0 /\
     out (snd (main o fuel opts w)) = out w).
Proof.
  intros Hnf Hwb Hrax res.
  assert (E : res = (Val 0, end_world o fuel pid env w
                              (stop_world o fuel pid env w))).
  { apply (lookup_returns o fuel pid env w Hnf Hwb).
    now apply read_result_absent. }
  split; [now rewrite E|]. split; [now rewrite E|].
  split; [now rewrite E|]. split; [reflexivity|].
  split; [now rewrite E|].
  intros opts p Hp Hn Hpid.
  rewrite (main_runs_lookup o fuel opts w p env Hp Hn), Hpid.
  fold res. rewrite E. now split.
Qed.

(** ** The harness is well behaved *)

(** One field of [well_behaved] after the other, by computation. *)
Ltac harness_well_behaved :=
  constructor;
  [ reflexivity
  | vm_compute; lia
  | vm_compute; discriminate
  | vm_compute; split; discriminate
  | vm_compute; reflexivity
  | left; vm_compute; discriminate
  | vm_compute; discriminate
  | vm_compute; discriminate
  | vm_compute; split; discriminate
  | vm_compute; reflexivity
  | vm_compute; reflexivity
  | vm_compute; reflexivity ].

Lemma harness_absent_well_behaved :
  well_behaved Harness.oracle0 100 Harness.target_pid (bytes "BAZ")
               Harness.world0.
Proof. harness_well_behaved. Qed.

(** The theorem at work: [BAZ] is not in the environment of the harness
    target. *)
Lemma absent_variable_is_success_witness :
  let res := getenv_process Harness.oracle0 100 Harness.target_pid
               (bytes "BAZ") Harness.world0 in
  fst res = Val 0 /\ out (snd res) = [] /\
  exit_status (fst (main Harness.oracle0 100
                      [Opt_p (bytes "1234"); Opt_e (bytes "BAZ")]
                      Harness.world0)) = Some 0.
Proof.
  destruct (absent_variable_is_success Harness.oracle0 100
              Harness.target_pid (bytes "BAZ") Harness.world0
              (fun _ => eq_refl) harness_absent_well_behaved
              ltac:(vm_compute; reflexivity))
    as (A & B & _ & _ & _ & C).
  split; [exact A|]. split; [exact B|].
  apply (C [Opt_p (bytes "1234"); Opt_e (bytes "BAZ")] 1234);
    [reflexivity | discriminate | reflexivity].
Defined.

(** ** A variable the target has set *)

(** When no request fails, the target is well behaved and its
    [getenv] returns the address of a string [v] of non-zero bytes with
    a zero after it, the scan passes over every word before the one the
    terminator is in and stops on that one, and exactly the bytes of [v]
    followed by one newline are added to standard output;
    [getenv_process] returns 0 and [main] exits with status 0. *)
Lemma returned_string_is_printed (o : oracle) (fuel : nat) (pid : Z)
    (env : list Z) (w : world) (v : list Z) :
  (forall i, fault o i = false) ->
  well_behaved o fuel pid env w ->
  let t := stopped o fuel pid env w in
  let p := rax (regs t) in
  p <> 0 ->
  string_in (mem t) p v ->
  Z.of_nat (List.length v) + 4 < 2 ^ 64 ->
  (List.length v / 4 < fuel)%nat ->
  let res := getenv_process o fuel pid env w in
  fst res = Val 0 /\
  out (snd res) = out w ++ v ++ [10] /\
  fst (scan_loop o fuel pid p (stop_world o fuel pid env w))
  = Val (wrap64 (p + 4 * Z.of_nat (S (List.length v / 4)))) /\
  (forall k, (k < List.length v / 4)%nat ->
     scan_break (wrap32 (load8 (mem t) (p + 4 * Z.of_nat k))) = false) /\
  (forall opts q,
     fst (parse_options opts (-1) None 0 w) = Val (q, Some env) ->
     q <> -1 -> to_pid_t q = pid ->
     exit_status (fst (main o fuel opts w)) = Some 0 /\
     out (snd (main o fuel opts w)) = out w ++ v ++ [10]).
Proof.
  intros Hnf Hwb t p Hp Hs Hlen Hfuel res.
  destruct (read_result_string o pid Hnf fuel (regs t) v
              (stop_world o fuel pid env w) Hp Hs Hlen Hfuel)
    as (w' & Hr & Ho).
  assert (E : res = (Val 0, end_world o fuel pid env w w')).
  { apply (lookup_returns o fuel pid env w Hnf Hwb). exact Hr. }
  destruct (scan_loop_string o pid Hnf fuel p v
              (stop_world o fuel pid env w) Hs Hfuel) as (S1 & S2 & _).
  split; [now rewrite E|]. split; [rewrite E; exact Ho|].
  split; [exact S1|]. split; [exact S2|].
  intros opts q Hq Hn Hpid.
  rewrite (main_runs_lookup o fuel opts w q env Hq Hn), Hpid.
  fold res. rewrite E. split; [reflexivity | exact Ho].
Qed.

(** A string in memory, checked byte by byte. *)
Lemma string_in_checked (m : Z -> Z) (a : Z) (v : list Z) :
  forallb (fun k => m (wrap64 (a + Z.of_nat k)) =? nth k v 0)
          (seq 0 (List.length v)) = true ->
  forallb (fun b => (1 <=? b) && (b <? 256)) v = true ->
  m (wrap64 (a + Z.of_nat (List.length v))) mod 256 = 0 ->
  string_in m a v.
Proof.
  intros H1 H2 H3. split; [|split; [|exact H3]].
  - intros k Hk. rewrite forallb_forall in H1.
    apply Z.eqb_eq. apply H1. apply in_seq. lia.
  - apply Forall_forall. intros b Hb. rewrite forallb_forall in H2.
    specialize (H2 b Hb). apply andb_true_iff in H2 as [A B]. lia.
Qed.

Lemma harness_long_well_behaved :
  well_behaved Harness.oracle0 100 Harness.target_pid (bytes "LONGVAR")
               Harness.world0.
Proof. harness_well_behaved. Qed.

(** ** Runs in which the first requests do not fail *)

Lemma step_machine_clean (o : oracle) (m : machine) :
  step_machine (clean o) m = step_machine o m.
Proof. reflexivity. Qed.

Lemma uninit_clean (o : oracle) (base : Z) (n : nat) :
  uninit (clean o) base n = uninit o base n.
Proof. reflexivity. Qed.

Lemma syscall_word_clean (o : oracle) : syscall_word (clean o) = syscall_word o.
Proof. reflexivity. Qed.

Lemma find_library_clean (o : oracle) (p : Z) (libname : list Z) :
  find_library (clean o) p libname = find_library o p libname.
Proof. reflexivity. Qed.

Lemma check_yama_clean (o : oracle) : check_yama (clean o) = check_yama o.
Proof. reflexivity. Qed.

Section Agree.

Variable o : oracle.
Variable n : nat.
Hypothesis below : forall i, (i < n)%nat -> fault o i = false.

Lemma agree_quiet {A : Type} (m : M A) :
  (forall w, clock (snd (m w)) = clock w) -> agree n m m.
Proof. intros H w. rewrite H. split; [lia | reflexivity]. Qed.

Lemma agree_ret {A : Type} (a : A) : agree n (ret a) (ret a).
Proof. now apply agree_quiet. Qed.

Lemma agree_return {A : Type} (r : Z) : agree n (@return_ A r) (return_ r).
Proof. now apply agree_quiet. Qed.

Lemma agree_goto_fail {A : Type} : agree n (@goto_fail A) goto_fail.
Proof. now apply agree_quiet. Qed.

Lemma agree_exit {A : Type} (c : Z) : agree n (@exit_ A c) (exit_ c).
Proof. now apply agree_quiet. Qed.

Lemma agree_diverge {A : Type} : agree n (@diverge A) diverge.
Proof. now apply agree_quiet. Qed.

Lemma agree_undefined {A : Type} : agree n (@undefined A) undefined.
Proof. now apply agree_quiet. Qed.

Lemma agree_eprint (msg : string) : agree n (eprint msg) (eprint msg).
Proof. now apply agree_quiet. Qed.

Lemma agree_perror (msg : string) : agree n (perror msg) (perror msg).
Proof. now apply agree_quiet. Qed.

Lemma agree_print (bs : list Z) : agree n (print bs) (print bs).
Proof. now apply agree_quiet. Qed.

Lemma agree_bind {A B : Type} (m m' : M A) (k k' : A -> M B) :
  agree n m m' -> (forall a, agree n (k a) (k' a)) ->
  agree n (bind m k) (bind m' k').
Proof.
  intros Hm Hk w. unfold bind. destruct (Hm w) as [M1 M2].
  destruct (m w) as [[a|r| |c| |] w1] eqn:E; cbn [snd] in *;
    try (split; [exact M1 | intros Hc; now rewrite (M2 Hc)]).
  destruct (Hk a w1) as [K1 K2]. split; [lia|].
  intros Hc. rewrite (M2 ltac:(lia)). now apply K2.
Qed.

Lemma agree_when (c : bool) (body body' : M unit) :
  agree n body body' -> agree n (when c body) (when c body').
Proof. intros H. destruct c; [exact H | apply agree_ret]. Qed.

Lemma agree_call (body body' : M Z) :
  agree n body body' -> agree n (call body) (call body').
Proof.
  intros H w. unfold call. destruct (H w) as [H1 H2].
  destruct (body w) as [[a|r| |c| |] w1]; cbn [snd] in *;
    (split; [exact H1 | intros Hc; now rewrite (H2 Hc)]).
Qed.

Lemma agree_with_fail_label {A : Type} (body body' handler handler' : M A) :
  agree n body body' -> agree n handler handler' ->
  agree n (with_fail_label body handler) (with_fail_label body' handler').
Proof.
  intros Hb Hh w. unfold with_fail_label. destruct (Hb w) as [B1 B2].
  destruct (body w) as [[a|r| |c| |] w1] eqn:E; cbn [snd] in *;
    try (split; [exact B1 | intros Hc; now rewrite (B2 Hc)]).
  destruct (Hh w1) as [H1 H2]. split; [lia|].
  intros Hc. rewrite (B2 ltac:(lia)). now apply H2.
Qed.

(** A request is the same under both kernels when its turn is below
    [n]. *)
Ltac request :=
  intros w;
  unfold ptrace_attach, ptrace_detach, ptrace_getregs, ptrace_setregs,
    ptrace_peektext, ptrace_peekdata, ptrace_poketext, ptrace_singlestep,
    ptrace_cont, sys_waitpid, sys_wait, refused, issue;
  rewrite ?step_machine_clean;
  cbn [clean fault run];
  destruct (fault o (clock w)) eqn:E;
  rewrite ?orb_true_r, ?orb_false_r;
  repeat match goal with
         | |- context [match ?x with _ => _ end] => destruct x
         end;
  cbn [snd clock]; (split; [lia|]); intros Hc;
  first [ reflexivity
        | rewrite below in E by lia; discriminate E ].

Lemma agree_attach pid : agree n (ptrace_attach o pid) (ptrace_attach (clean o) pid).
Proof. request. Qed.
Lemma agree_detach pid : agree n (ptrace_detach o pid) (ptrace_detach (clean o) pid).
Proof. request. Qed.
Lemma agree_getregs pid : agree n (ptrace_getregs o pid) (ptrace_getregs (clean o) pid).
Proof. request. Qed.
Lemma agree_setregs pid r : agree n (ptrace_setregs o pid r) (ptrace_setregs (clean o) pid r).
Proof. request. Qed.
Lemma agree_peektext pid a : agree n (ptrace_peektext o pid a) (ptrace_peektext (clean o) pid a).
Proof. request. Qed.
Lemma agree_peekdata pid a : agree n (ptrace_peekdata o pid a) (ptrace_peekdata (clean o) pid a).
Proof. request. Qed.
Lemma agree_poketext pid a d : agree n (ptrace_poketext o pid a d) (ptrace_poketext (clean o) pid a d).
Proof. request. Qed.
Lemma agree_singlestep_request pid : agree n (ptrace_singlestep o pid) (ptrace_singlestep (clean o) pid).
Proof. request. Qed.
Lemma agree_cont pid : agree n (ptrace_cont o pid) (ptrace_cont (clean o) pid).
Proof. request. Qed.
Lemma agree_waitpid pid : agree n (sys_waitpid o pid) (sys_waitpid (clean o) pid).
Proof. request. Qed.
Lemma agree_wait : agree n (sys_wait o) (sys_wait (clean o)).
Proof. request. Qed.

Ltac leaf2 :=
  first [ apply agree_ret | apply agree_return | apply agree_goto_fail
        | apply agree_exit | apply agree_diverge | apply agree_undefined
        | apply agree_eprint | apply agree_perror | apply agree_print
        | apply agree_attach | apply agree_detach | apply agree_getregs
        | apply agree_setregs | apply agree_peektext | apply agree_peekdata
        | apply agree_poketext | apply agree_singlestep_request
        | apply agree_cont | apply agree_waitpid | apply agree_wait ].

Ltac same_oracle :=
  rewrite ?uninit_clean, ?syscall_word_clean, ?find_library_clean,
    ?check_yama_clean;
  cbn [clean maps self_pid getenv_local heap_junk stack_junk yama_file].

Ltac walk2 known :=
  repeat first
    [ leaf2 | known
    | apply agree_when
    | apply agree_bind; [ | intros ?; cbv beta zeta ]
    | match goal with
      | |- agree _ (if ?c then _ else _) _ => destruct c
      | |- agree _ (match ?x with _ => _ end) _ => destruct x
      end ].

Ltac nothing2 := fail.

Lemma agree_find_library (p : Z) (libname : list Z) :
  agree n (find_library o p libname) (find_library (clean o) p libname).
Proof.
  rewrite find_library_clean. unfold find_library. walk2 nothing2.
Qed.

Lemma agree_check_yama : agree n (check_yama o) (check_yama (clean o)).
Proof. rewrite check_yama_clean. unfold check_yama. walk2 nothing2. Qed.

Lemma agree_compute_jmp (from to : Z) :
  agree n (compute_jmp from to) (compute_jmp from to).
Proof. unfold compute_jmp. walk2 nothing2. Qed.

Lemma agree_grow_block (fuel : nat) (b m : Z) :
  agree n (grow_block fuel b m) (grow_block fuel b m).
Proof.
  revert b; induction fuel as [|fuel IH]; intros b; cbn [grow_block];
    walk2 ltac:(apply IH).
Qed.

Lemma agree_print_line (buf : list Z) :
  agree n (print_line buf) (print_line buf).
Proof. unfold print_line. walk2 nothing2. Qed.

Lemma agree_poke_words (k : nat) (pid where_ : Z) (new_text : list Z)
    (old_text : option (list Z)) (copied : Z) :
  agree n (poke_words o k pid where_ new_text old_text copied)
          (poke_words (clean o) k pid where_ new_text old_text copied).
Proof.
  revert old_text copied; induction k as [|k IH]; intros old_text copied;
    cbn [poke_words]; walk2 ltac:(apply IH).
Qed.

Lemma agree_poke_text (pid where_ : Z) (new_text : list Z)
    (old_text : option (list Z)) (len : Z) :
  agree n (poke_text o pid where_ new_text old_text len)
          (poke_text (clean o) pid where_ new_text old_text len).
Proof.
  unfold poke_text. apply agree_bind; [now apply agree_quiet | intros _].
  walk2 ltac:(apply agree_poke_words).
Qed.

Lemma agree_do_wait (name : string) :
  agree n (do_wait o name) (do_wait (clean o) name).
Proof. unfold do_wait. walk2 nothing2. Qed.

Lemma agree_singlestep (pid : Z) :
  agree n (singlestep o pid) (singlestep (clean o) pid).
Proof. unfold singlestep. walk2 ltac:(apply agree_do_wait). Qed.

Lemma agree_scan_loop (fuel : nat) (pid offs : Z) :
  agree n (scan_loop o fuel pid offs) (scan_loop (clean o) fuel pid offs).
Proof.
  revert offs; induction fuel as [|fuel IH]; intros offs; cbn [scan_loop];
    walk2 ltac:(apply IH).
Qed.

Lemma agree_copy_loop (k : nat) (pid offs : Z) (buf : list Z) (i : Z) :
  agree n (copy_loop o k pid offs buf i) (copy_loop (clean o) k pid offs buf i).
Proof.
  revert offs buf i; induction k as [|k IH]; intros offs buf i;
    cbn [copy_loop]; walk2 ltac:(apply IH).
Qed.

Ltac blocks2 :=
  first [ apply agree_find_library | apply agree_check_yama
        | apply agree_compute_jmp | apply agree_grow_block
        | apply agree_print_line | apply agree_poke_text
        | apply agree_do_wait | apply agree_singlestep
        | apply agree_scan_loop | apply agree_copy_loop ].

Lemma agree_fail_path (pid rip_ : Z) (old_word : list Z) :
  agree n (fail_path o pid rip_ old_word) (fail_path (clean o) pid rip_ old_word).
Proof. unfold fail_path. walk2 blocks2. Qed.

Lemma agree_attach_target (pid : Z) :
  agree n (attach_target o pid) (attach_target (clean o) pid).
Proof. unfold attach_target. walk2 blocks2. Qed.

Lemma agree_remote_mmap (pid : Z) (newregs : user_regs_struct) :
  agree n (remote_mmap o pid newregs) (remote_mmap (clean o) pid newregs).
Proof. unfold remote_mmap. walk2 blocks2. Qed.

Lemma agree_write_trampoline (fuel : nat) (pid rip_ : Z) (new_word : list Z)
    (mmap_memory : Z) (env : list Z) :
  agree n (write_trampoline o fuel pid rip_ new_word mmap_memory env)
          (write_trampoline (clean o) fuel pid rip_ new_word mmap_memory env).
Proof. unfold write_trampoline. same_oracle. walk2 blocks2. Qed.

Lemma agree_remote_call (pid mmap_memory offset : Z)
    (newregs : user_regs_struct) :
  agree n (remote_call o pid mmap_memory offset newregs)
          (remote_call (clean o) pid mmap_memory offset newregs).
Proof. unfold remote_call. walk2 blocks2. Qed.

Lemma agree_read_result (fuel : nat) (pid : Z) (newregs : user_regs_struct) :
  agree n (read_result o fuel pid newregs)
          (read_result (clean o) fuel pid newregs).
Proof. unfold read_result. same_oracle. walk2 blocks2. Qed.

Lemma agree_jump_back (pid rip_ : Z) (new_word : list Z)
    (newregs : user_regs_struct) :
  agree n (jump_back o pid rip_ new_word newregs)
          (jump_back (clean o) pid rip_ new_word newregs).
Proof. unfold jump_back. walk2 blocks2. Qed.

Lemma agree_remote_munmap (pid mmap_memory : Z) (newregs : user_regs_struct) :
  agree n (remote_munmap o pid mmap_memory newregs)
          (remote_munmap (clean o) pid mmap_memory newregs).
Proof. unfold remote_munmap. walk2 blocks2. Qed.

Lemma agree_restore_and_detach (pid rip_ : Z) (old_word : list Z)
    (oldregs : user_regs_struct) :
  agree n (restore_and_detach o pid rip_ old_word oldregs)
          (restore_and_detach (clean o) pid rip_ old_word oldregs).
Proof. unfold restore_and_detach. walk2 blocks2. Qed.

Ltac stretches2 :=
  first [ blocks2 | apply agree_fail_path | apply agree_attach_target
        | apply agree_remote_mmap | apply agree_write_trampoline
        | apply agree_remote_call | apply agree_read_result
        | apply agree_jump_back | apply agree_remote_munmap
        | apply agree_restore_and_detach ].

Lemma agree_session (fuel : nat) (pid : Z) (env : list Z)
    (oldregs : user_regs_struct) (old_word new_word : list Z) :
  agree n (session o fuel pid env oldregs old_word new_word)
          (session (clean o) fuel pid env oldregs old_word new_word).
Proof. unfold session. walk2 stretches2. Qed.

Lemma agree_getenv_process (fuel : nat) (pid : Z) (env : list Z) :
  agree n (getenv_process o fuel pid env)
          (getenv_process (clean o) fuel pid env).
Proof.
  unfold getenv_process. same_oracle. apply agree_call.
  apply agree_bind; [apply agree_attach_target | intros oldregs].
  cbv beta zeta.
  apply agree_bind; [apply agree_poke_text | intros [r saved]].
  cbv beta iota zeta.
  apply agree_with_fail_label; [|apply agree_fail_path].
  apply agree_bind; [walk2 nothing2 | intros _].
  apply agree_session.
Qed.

End Agree.

(** ** The target after a lookup that returned 0 *)

Section CleanCourse.

Variable o : oracle.
Variable fuel : nat.
Variable pid : Z.
Variable env : list Z.
Variable w : world.

Lemma stub_word_clean : stub_word (clean o) = stub_word o.
Proof. reflexivity. Qed.

Lemma patched_mem_clean : patched_mem (clean o) w = patched_mem o w.
Proof. reflexivity. Qed.

Lemma scratch_page_clean : scratch_page (clean o) w = scratch_page o w.
Proof. reflexivity. Qed.

Lemma library_base_clean (p : Z) :
  library_base (clean o) p = library_base o p.
Proof. reflexivity. Qed.

Lemma call_delta_clean : call_delta (clean o) pid w = call_delta o pid w.
Proof. reflexivity. Qed.

Lemma trampoline_mem_clean :
  trampoline_mem (clean o) fuel pid env w = trampoline_mem o fuel pid env w.
Proof. reflexivity. Qed.

Lemma call_machine_clean :
  call_machine (clean o) fuel pid env w = call_machine o fuel pid env w.
Proof. reflexivity. Qed.

Lemma stopped_clean :
  stopped (clean o) fuel pid env w = stopped o fuel pid env w.
Proof. reflexivity. Qed.

Lemma well_behaved_clean :
  well_behaved o fuel pid env w -> well_behaved (clean o) fuel pid env w.
Proof.
  intros [H1 H2 H3 H4 H5 H6 H7 H8 H9 H10 H11 H12].
  constructor;
    rewrite ?stopped_clean, ?call_machine_clean, ?trampoline_mem_clean,
      ?call_delta_clean, ?library_base_clean, ?scratch_page_clean;
    assumption.
Qed.

End CleanCourse.

(** With faults that persist, a run that ends in a successful detach
    has met no fault at all. *)
Lemma no_fault_before_success (o : oracle) (fuel : nat) (pid : Z)
    (env : list Z) (w w' : world) :
  persistent o ->
  getenv_process o fuel pid env w = (Val 0, w') ->
  getenv_process (clean o) fuel pid env w = (Val 0, w').
Proof.
  intros Hp H.
  destruct (getenv_process_zero o fuel pid env w w' H) as (w9 & Hf & Ew).
  assert (below : forall i, (i < clock w')%nat -> fault o i = false).
  { intros i Hi. rewrite Ew in Hi. cbn [clock issue] in Hi.
    destruct (fault o i) eqn:E; [|reflexivity].
    rewrite (Hp i (clock w9) ltac:(lia) E) in Hf. discriminate Hf. }
  destruct (agree_getenv_process o (clock w') below fuel pid env w)
    as [_ Ha].
  rewrite H in Ha. cbn [snd] in Ha. rewrite (Ha (Nat.le_refl _)).
  reflexivity.
Qed.

(** X24.  Let the kernel's failures persist (once a request has failed,
    every later one fails), let the target be well behaved (the name
    and the six bytes before it fit the page among other things) and
    let memory hold bytes at the old instruction pointer.  After
    [getenv_process] has returned 0 the target has the registers it had
    before the attach and the sixteen bytes at its old instruction
    pointer are what they were.  The session began with the attach, the
    capture of the eight bytes at the old instruction pointer
    ([PTRACE_PEEKTEXT]) and only then their first overwrite; it ended
    with those eight bytes written back, the old registers reinstalled
    and the detach, in this order; and every write in between went to
    those eight bytes or into the scratch page. *)
Theorem successful_lookup_restores_target (o : oracle) (fuel : nat)
    (pid : Z) (env : list Z) (w w' : world) :
  persistent o ->
  well_behaved o fuel pid env w ->
  all_bytes (mem_bytes (mem (target w)) (rip (regs (target w))) 8) ->
  getenv_process o fuel pid env w = (Val 0, w') ->
  let pc := rip (regs (target w)) in
  regs (target w') = regs (target w) /\
  mem_bytes (mem (target w')) pc 16 = mem_bytes (mem (target w)) pc 16 /\
  exists mid,
    trace w'
    = [(PTRACE_DETACH, true); (PTRACE_SETREGS (regs (target w)), true);
       (PTRACE_POKETEXT pc (load8 (mem (target w)) pc), true)]
      ++ mid
      ++ [(PTRACE_POKETEXT pc (stub_word o), true);
          (PTRACE_PEEKTEXT pc, true);
          (PTRACE_GETREGS, true); (WAITPID, true); (PTRACE_ATTACH, true)]
      ++ trace w /\
    Forall (writes_within pc (scratch_page o w)) mid.
Proof.
  intros Hp Hwb Hb H pc.
  apply no_fault_before_success in H; [|exact Hp].
  destruct (lookup_restores (clean o) fuel pid env w (fun _ => eq_refl)
              (well_behaved_clean o fuel pid env w Hwb) w' H)
    as (A & B & mid & C & D).
  rewrite stub_word_clean in C. rewrite scratch_page_clean in D.
  split; [exact A|]. split; [exact (B Hb)|].
  exists mid. split; [exact C | exact D].
Qed.

Lemma harness_foo_well_behaved :
  well_behaved Harness.oracle0 100 Harness.target_pid (bytes "FOO")
               Harness.world0.
Proof. harness_well_behaved. Qed.

Lemma harness_persistent : persistent Harness.oracle0.
Proof. intros i j _ H. discriminate H. Qed.

Lemma harness_text_bytes :
  all_bytes (mem_bytes (mem (target Harness.world0))
                       (rip (regs (target Harness.world0))) 8).
Proof.
  apply Forall_forall. intros b Hb. vm_compute in Hb.
  repeat (destruct Hb as [<- | Hb]; [lia|]). destruct Hb.
Qed.

(** The theorem at work: after the lookup of [FOO] the harness target
    has its registers and its text back. *)
Lemma successful_lookup_restores_target_witness :
  let res := getenv_process Harness.oracle0 100 Harness.target_pid
               (bytes "FOO") Harness.world0 in
  regs (target (snd res)) = Harness.regs0 /\
  mem_bytes (mem (target (snd res))) Harness.text_base 16
  = Harness.text_bytes.
Proof.
  intros res.
  assert (H : getenv_process Harness.oracle0 100 Harness.target_pid
                (bytes "FOO") Harness.world0 = (Val 0, snd res)).
  { rewrite (surjective_pairing (getenv_process _ _ _ _ _)).
    replace (fst (getenv_process Harness.oracle0 100 Harness.target_pid
                    (bytes "FOO") Harness.world0))
      with (@Val Z 0) by (vm_compute; reflexivity).
    reflexivity. }
  destruct (successful_lookup_restores_target Harness.oracle0 100
              Harness.target_pid (bytes "FOO") Harness.world0 (snd res)
              harness_persistent harness_foo_well_behaved
              harness_text_bytes H) as (A & B & _).
  split; [exact A | exact B].
Defined.

(** C1: the claim holds of the specification, not of the code.  The
    result of the [poke_text] that writes the old word back (line 414)
    is not looked at, unlike that of every [poke_text] before the call.
    On the harness, when that request (number 32 of the run) is refused
    and the two after it succeed, [getenv_process] installs the old
    registers, detaches and returns 0, and the first bytes at the old
    instruction pointer are the [syscall] stub instead of the text of
    the program. *)
Theorem unchecked_restore_returns_success :
  let res := getenv_process (Harness.fail_at 32) 100 Harness.target_pid
               (bytes "FOO") Harness.world0 in
  fst res = Val 0 /\
  firstn 3 (trace (snd res))
  = [(PTRACE_DETACH, true); (PTRACE_SETREGS Harness.regs0, true);
     (PTRACE_POKETEXT Harness.text_base
        (le_word (firstn 8 Harness.text_bytes)), false)] /\
  regs (target (snd res)) = Harness.regs0 /\
  mem_bytes (mem (target (snd res))) Harness.text_base 4 = [15; 5; 255; 224] /\
  mem_bytes Harness.memory0 Harness.text_base 4 = [235; 254; 144; 144] /\
  out (snd res) = bytes "bar" ++ [10].
Proof. vm_compute. repeat split. Qed.

(** * The functions one by one *)

(** ** Waiting and stepping *)

(** X1.  [do_wait] returns 0 exactly when the status it collects is a
    stop by [SIGTRAP]; a failed [wait], a stop by any other signal, a
    kill and an exit all give -1 with one message on standard error; it
    blocks for ever exactly when [wait] is in order and the target has
    nothing to report.  It never touches the target. *)
Theorem do_wait_outcome (o : oracle) (name : string) (w : world) :
  let res := do_wait o name w in
  (fst res = Val 0 <->
   fault o (clock w) = false /\ pending w = Some (WStopped SIGTRAP)) /\
  (fst res = Diverge <-> fault o (clock w) = false /\ pending w = None) /\
  (fst res = Val 0 \/ fst res = Val (-1) \/ fst res = Diverge) /\
  target (snd res) = target w /\
  (exists msg, err (snd res)
               = if match fst res with Val r => r =? -1 | _ => false end
                 then err w ++ [msg] else err w).
Proof.
  unfold do_wait, sys_wait, bind, refused, issue, perror, eprint, ret.
  cbv zeta.
  destruct (fault o (clock w)).
  { cbn. split; [|split; [|split; [|split]]];
      try solve [intuition (try discriminate; try congruence)].
    eexists. reflexivity. }
  destruct (pending w) as [[sig|sig|code]|]; cbn [fst snd];
    change (0 =? -1) with false; cbv iota;
    try destruct (Z.eqb_spec sig SIGTRAP) as [->|Hs]; cbn;
    (split; [|split; [|split; [|split]]]);
    try solve [intuition (try discriminate; try congruence)];
    first [ eexists; reflexivity | exists ""%string; reflexivity ].
Qed.

(** X2.  [singlestep] returns 0 exactly when the step request and the
    [wait] after it both succeed and the target stops by [SIGTRAP].
    When the request itself is refused nothing is waited for: that one
    request is all it issues and the target has not moved.  When the
    request went through, the target has stepped whatever [singlestep]
    returns. *)
Theorem singlestep_outcome (o : oracle) (pid : Z) (w : world) :
  let res := singlestep o pid w in
  let stepped := step_machine o (target w) in
  (fst res = Val 0 <->
   fault o (clock w) = false /\ fault o (S (clock w)) = false /\
   snd stepped = WStopped SIGTRAP) /\
  target (snd res) = (if fault o (clock w) then target w else fst stepped) /\
  trace (snd res)
  = (if fault o (clock w) then [(PTRACE_SINGLESTEP, false)]
     else [(WAIT, negb (fault o (S (clock w)))); (PTRACE_SINGLESTEP, true)])
    ++ trace w.
Proof.
  unfold singlestep, ptrace_singlestep, do_wait, sys_wait, bind, refused,
    issue, perror, eprint, ret.
  cbv zeta.
  destruct (fault o (clock w)).
  { cbn. split; [|split]; try reflexivity.
    intuition (try discriminate; try congruence). }
  destruct (step_machine o (target w)) as [m st]. cbn [fst snd].
  change (negb (0 =? 0)) with false. cbv iota. cbn [clock pending].
  destruct (fault o (S (clock w))).
  { cbn. split; [|split]; try reflexivity.
    intuition (try discriminate; try congruence). }
  cbn [fst snd]. change (0 =? -1) with false. cbv iota.
  destruct st as [sig|sig|code];
    try destruct (Z.eqb_spec sig SIGTRAP) as [->|Hs]; cbn;
    (split; [|split]); try reflexivity;
    intuition (try discriminate; try congruence).
Qed.

Lemma prefixb_refl (a : list Z) : prefixb a a = true.
Proof. induction a as [|x a IH]; cbn; [reflexivity|]. now rewrite Z.eqb_refl. Qed.

Lemma prefixb_antisym (a b : list Z) :
  prefixb a b && prefixb b a = true <-> a = b.
Proof.
  split; [|intros ->; now rewrite prefixb_refl].
  revert b; induction a as [|x a IH]; intros [|y b]; cbn;
    try reflexivity; try discriminate.
  intros H. apply andb_true_iff in H as [H1 H2].
  apply andb_true_iff in H1 as [E1 P1]. apply andb_true_iff in H2 as [_ P2].
  apply Z.eqb_eq in E1. subst y. f_equal. apply IH.
  now rewrite P1, P2.
Qed.

(** X3.  [check_yama] writes to standard error and does nothing else;
    it stays silent exactly when the file cannot be opened or when what
    it reads from it, as a C string, is ["0\n"]. *)
Theorem check_yama_silent_iff (o : oracle) (w : world) :
  let res := check_yama o w in
  fst res = Val tt /\
  target (snd res) = target w /\ trace (snd res) = trace w /\
  clock (snd res) = clock w /\ out (snd res) = out w /\
  (err (snd res) = err w <->
   match yama_file o with
   | None => True
   | Some content => until_nul (firstn 8 content) = [48; 10]
   end).
Proof.
  unfold check_yama. destruct (yama_file o) as [content|];
    [|cbn; repeat apply conj; auto; tauto].
  cbv zeta. generalize (firstn 8 content). intros got.
  assert (Hgrow : forall l1 l2 : list string, l2 <> [] -> l1 ++ l2 <> l1).
  { intros l1 l2 H2 H. apply (f_equal (@List.length string)) in H.
    rewrite length_app in H. destruct l2; [contradiction | cbn in H; lia]. }
  destruct (prefixb (until_nul got) [48; 10]
            && prefixb [48; 10] (until_nul got)) eqn:E.
  - apply prefixb_antisym in E.
    assert (Hl : Nat.eqb (List.length got) 0 = false).
    { destruct got as [|c r]; [discriminate E | reflexivity]. }
    rewrite Hl. cbn. do 5 (split; [reflexivity|]). tauto.
  - assert (Hne : until_nul got <> [48; 10]).
    { intros H. apply prefixb_antisym in H. congruence. }
    destruct (Nat.eqb (List.length got) 0); cbn;
      do 5 (split; [reflexivity|]);
      (split; [intros H; exfalso | intros H; contradiction]);
      rewrite <- ?app_assoc in H;
      (apply Hgrow in H; [exact H | discriminate]).
Qed.

(** ** The displacement, the fail label and the attach *)

(** X4.  [compute_jmp] either exits with status 1, leaving one message
    on standard error, or returns a displacement that fits 32 bits and
    with which a five-byte [call] placed at [from] reaches [to]; it
    returns exactly when the signed distance fits. *)
Theorem compute_jmp_lands (from to : Z) (w : world) :
  let res := compute_jmp from to w in
  let dist := signed64 (signed64 to - signed64 from - REL32_SZ) in
  (INT_MIN <= dist <= INT_MAX ->
   res = (Val dist, w) /\ wrap64 (from + REL32_SZ + dist) = wrap64 to) /\
  (~ INT_MIN <= dist <= INT_MAX ->
   fst res = Exit 1 /\ trace (snd res) = trace w /\
   target (snd res) = target w /\ exists msg, err (snd res) = err w ++ [msg]).
Proof.
  intros res dist. subst res. unfold compute_jmp. fold dist. split.
  - intros H.
    destruct (Z.ltb_spec dist INT_MIN); [lia|].
    destruct (Z.gtb_spec dist INT_MAX); [lia|]. cbn [orb].
    split; [reflexivity|].
    subst dist. unfold signed64, REL32_SZ.
    repeat match goal with
           | |- context [if ?c then _ else _] => destruct c
           end; wrap_lia.
  - intros H.
    assert (E : (dist <? INT_MIN) || (dist >? INT_MAX) = true).
    { destruct (Z.ltb_spec dist INT_MIN); [reflexivity|].
      destruct (Z.gtb_spec dist INT_MAX); [reflexivity | lia]. }
    rewrite E. cbn. repeat split. eexists. reflexivity.
Qed.

(** The displacement from the scratch page of the harness to the
    [getenv] of its target. *)
Lemma compute_jmp_lands_witness :
  compute_jmp Harness.page (Harness.their_libc_base + Harness.getenv_offset)
              Harness.world0
  = (Val 2658987, Harness.world0) /\
  wrap64 (Harness.page + REL32_SZ + 2658987)
  = wrap64 (Harness.their_libc_base + Harness.getenv_offset).
Proof.
  change 2658987
    with (signed64 (signed64 (Harness.their_libc_base + Harness.getenv_offset)
                    - signed64 Harness.page - REL32_SZ)).
  apply (proj1 (compute_jmp_lands Harness.page
                  (Harness.their_libc_base + Harness.getenv_offset)
                  Harness.world0)).
  vm_compute. split; discriminate.
Defined.

(** X5.  The statements under the [fail:] label always return 1.  They
    issue two requests whatever happens to the first: the attempt to
    write [old_word] back and the attempt to detach.  The registers of
    the target are not touched: nothing here puts the old registers
    back. *)
Theorem fail_path_writes_back_and_detaches (o : oracle) (pid rip_ : Z)
    (old_word : list Z) (w : world) :
  let res := fail_path o pid rip_ old_word w in
  let data := le_word (buf_read old_word 0 8) in
  fst res = Ret 1 /\
  trace (snd res)
  = (PTRACE_DETACH, negb (fault o (S (clock w))))
    :: (PTRACE_POKETEXT (wrap64 rip_) data, negb (fault o (clock w)))
    :: trace w /\
  regs (target (snd res)) = regs (target w) /\
  mem (target (snd res))
  = (if fault o (clock w) then mem (target w)
     else store8 (mem (target w)) (wrap64 rip_) data) /\
  out (snd res) = out w.
Proof.
  unfold fail_path, poke_text, bind.
  change (negb (8 mod 8 =? 0)) with false. cbv iota.
  change (Z.to_nat (8 / 8)) with 1%nat. cbn [poke_words].
  unfold bind, ret, ptrace_poketext, ptrace_detach, refused, issue, when,
    perror, eprint, return_.
  cbn [target pending clock trace poke_log out err].
  rewrite Z.add_0_r.
  destruct (fault o (clock w)); cbn [fst snd Z.ltb Z.compare];
    cbn [target pending clock trace poke_log out err];
    destruct (fault o (S (clock w))); cbn;
    repeat split.
Qed.

Lemma check_yama_frame (o : oracle) (w : world) :
  fst (check_yama o w) = Val tt /\
  target (snd (check_yama o w)) = target w /\
  trace (snd (check_yama o w)) = trace w /\
  out (snd (check_yama o w)) = out w.
Proof.
  unfold check_yama. destruct (yama_file o) as [content|]; [|now cbn].
  destruct (Nat.eqb _ 0);
    destruct (negb _); cbn; repeat apply conj; reflexivity.
Qed.

(** X6.  [attach_target] never writes to the target, and what it
    issues is decided by the first request that fails: a refused attach
    is the only request; a failed [waitpid] is followed by no detach; a
    failed [PTRACE_GETREGS] is followed by an attempt to detach; each of
    the three ends in [return -1].  When all three succeed the registers
    read are those of the target. *)
Theorem attach_target_outcomes (o : oracle) (pid : Z) (w : world) :
  let res := attach_target o pid w in
  let c := clock w in
  target (snd res) = target w /\ out (snd res) = out w /\
  (fst res, trace (snd res))
  = (if (pid <=? 0) || fault o c
     then (Ret (-1), (PTRACE_ATTACH, false) :: trace w)
     else if fault o (S c)
     then (Ret (-1), (WAITPID, false) :: (PTRACE_ATTACH, true) :: trace w)
     else if fault o (S (S c))
     then (Ret (-1),
           (PTRACE_DETACH, negb (fault o (S (S (S c)))))
           :: (PTRACE_GETREGS, false) :: (WAITPID, true)
           :: (PTRACE_ATTACH, true) :: trace w)
     else (Val (regs (target w)),
           (PTRACE_GETREGS, true) :: (WAITPID, true)
           :: (PTRACE_ATTACH, true) :: trace w)).
Proof.
  intros res c. subst res c.
  destruct (attach_target o pid w) as [r w'] eqn:E. cbn [fst snd].
  unfold attach_target in E. rewrite bind_unfold in E.
  unfold ptrace_attach in E.
  destruct ((pid <=? 0) || fault o (clock w)) eqn:Ha.
  { cbv beta iota in E. rewrite bind_unfold in E.
    change (negb (-1 =? 0)) with true in E. unfold when in E.
    rewrite bind_unfold in E. unfold perror at 1, eprint at 1 in E.
    cbv beta iota in E. rewrite bind_unfold in E.
    match type of E with context [check_yama o ?w0] =>
      destruct (check_yama_frame o w0) as (Y1 & Y2 & Y3 & Y5);
      destruct (check_yama o w0) as [r1 w1] end.
    cbn [fst snd] in Y1, Y2, Y3, Y5. subst r1. cbv beta iota in E.
    unfold return_ in E. injection E as <- <-. rewrite Y2, Y3, Y5.
    repeat split. }
  apply orb_false_iff in Ha as [Hp Hf].
  cbv beta iota in E. change (negb (0 =? 0)) with false in E.
  rewrite bind_when_false, bind_unfold in E.
  unfold sys_waitpid in E. cbn [clock issue pending] in E.
  destruct (fault o (S (clock w))) eqn:Hw.
  { cbv beta iota in E. rewrite bind_unfold in E. cbn in E.
    injection E as <- <-. repeat split. }
  cbv beta iota in E.
  assert (Hpid : (pid =? -1) = false) by (apply Z.leb_gt in Hp; lia).
  rewrite Hpid, bind_when_false, bind_unfold in E.
  unfold ptrace_getregs in E. cbn [clock issue] in E.
  destruct (fault o (S (S (clock w)))) eqn:Hg.
  { cbv beta iota in E. rewrite bind_unfold in E.
    unfold perror at 1, eprint at 1 in E.
    cbv beta iota in E. rewrite bind_unfold in E.
    unfold ptrace_detach in E. cbn [clock refused issue] in E.
    destruct (fault o (S (S (S (clock w))))); cbn in E;
      injection E as <- <-; repeat split. }
  cbn in E. injection E as <- <-. repeat split.
Qed.

(** ** Reading the result *)

Lemma cstring_no_nul (buf s : list Z) :
  cstring buf = Some s -> Forall (fun b => b <> 0) s.
Proof.
  revert s; induction buf as [|b buf IH]; intros s; cbn [cstring];
    [discriminate|].
  destruct (Z.eqb_spec b 0); [intros [= <-]; constructor|].
  destruct (cstring buf) as [s'|]; [|discriminate].
  intros [= <-]. constructor; [assumption | now apply IH].
Qed.

(** X7.  Whatever the kernel refuses and whatever the target holds,
    [read_result] leaves the registers and the memory of the target
    alone and issues nothing but [PTRACE_PEEKDATA] requests; it writes
    nothing to standard error, and to standard output either nothing or
    one line: bytes none of which is zero, then a newline. *)
Theorem read_result_only_reads (o : oracle) (fuel : nat) (pid : Z)
    (newregs : user_regs_struct) (w : world) :
  let res := read_result o fuel pid newregs w in
  keeps w (snd res) /\ only_peeks w (snd res) /\
  err (snd res) = err w /\
  (out (snd res) = out w \/
   exists s, out (snd res) = out w ++ s ++ [10] /\
             Forall (fun b => b <> 0) s).
Proof.
  intros res. subst res.
  split; [apply read_result_keeps|]. split; [apply read_result_only_peeks|].
  set (Q := fun w w' : world => out w' = out w /\ err w' = err w).
  assert (Qr : forall w, Q w w) by (now split).
  assert (Qt : forall w1 w2 w3, Q w1 w2 -> Q w2 w3 -> Q w1 w3).
  { intros w1 w2 w3 [A1 A2] [B1 B2]. split; congruence. }
  assert (Qp : forall addr ok w,
             Q w (issue (PTRACE_PEEKDATA addr) ok (target w) (pending w) w))
    by (now split).
  unfold read_result.
  destruct (negb (rax newregs =? 0)); [|cbn; auto].
  cbn [when]. rewrite bind_unfold.
  assert (H1 := across_scan_loop o pid Q Qr Qt Qp fuel (rax newregs) w).
  destruct (scan_loop o fuel pid (rax newregs) w) as [[offs|r| |c| |] w1];
    cbn [snd] in H1; destruct H1 as [O1 E1]; try (cbn; auto; fail).
  cbv zeta. rewrite bind_unfold.
  match goal with |- context [copy_loop o ?n pid ?a ?b ?i w1] =>
    assert (H2 := across_copy_loop o pid Q Qr Qt Qp n a b i w1);
    destruct (copy_loop o n pid a b i w1) as [[buf|r| |c| |] w2]
  end;
    cbn [snd] in H2; destruct H2 as [O2 E2];
    try (cbn [snd]; split; [congruence | left; congruence]).
  unfold print_line. destruct (cstring buf) as [s|] eqn:Es.
  - cbn. split; [congruence|]. right. exists s. split.
    + now rewrite O2, O1.
    + now apply (cstring_no_nul buf).
  - cbn. split; [congruence | left; congruence].
Qed.

(** ** Writing text *)

Lemma buf_read_nth (buf : list Z) (off : Z) (n k : nat) :
  (k < n)%nat -> 0 <= off ->
  nth k (buf_read buf off n) 0 = nth (Z.to_nat (off + Z.of_nat k)) buf 0.
Proof.
  intros Hk Hoff. unfold buf_read.
  rewrite (nth_indep _ 0 (buf_get buf (off + Z.of_nat 0)))
    by (rewrite length_map, length_seq; exact Hk).
  rewrite (map_nth (fun k => buf_get buf (off + Z.of_nat k))).
  rewrite seq_nth by exact Hk. cbn [Nat.add]. unfold buf_get.
  destruct (Z.ltb_spec (off + Z.of_nat k) 0); [lia | reflexivity].
Qed.

Lemma buf_read_bytes (buf : list Z) (off : Z) (n : nat) :
  0 <= off ->
  (forall j, off <= j < off + Z.of_nat n ->
             0 <= nth (Z.to_nat j) buf 0 < 256) ->
  all_bytes (buf_read buf off n).
Proof.
  intros Hoff H. apply Forall_forall. intros b Hb.
  apply in_map_iff in Hb as [k [<- Hk]]. apply in_seq in Hk.
  unfold buf_get. destruct (Z.ltb_spec (off + Z.of_nat k) 0); [lia|].
  apply H. lia.
Qed.

(** The words written while no request fails. *)
Lemma poke_words_prefix (o : oracle) (pid where_ : Z) (new_text : list Z)
    (k : nat) :
  forall (n : nat) (copied : Z) (w : world),
  (forall i, (i < k)%nat -> fault o (clock w + i) = false) ->
  poke_words o (k + n) pid where_ new_text None copied w
  = poke_words o n pid where_ new_text None (copied + 8 * Z.of_nat k)
      (mk_world (mk_machine (regs (target w))
                   (poked_mem (mem (target w)) where_ new_text k copied))
                (pending w) (k + clock w)
                (poked_trace where_ new_text k copied ++ trace w)
                (poke_log w) (out w) (err w)).
Proof.
  induction k as [|k IH]; intros n copied w Hf.
  - cbn [poked_mem poked_trace Nat.add app].
    replace (copied + 8 * Z.of_nat 0) with copied by lia.
    now destruct w as [[r m] p c t l ou e].
  - cbn [Nat.add poke_words poked_mem poked_trace].
    rewrite bind_unfold. unfold ret at 1. cbv beta iota.
    rewrite bind_unfold. unfold ptrace_poketext.
    assert (F0 := Hf 0%nat ltac:(lia)). rewrite Nat.add_0_r in F0.
    rewrite F0. cbv beta iota.
    change (0 <? 0) with false. cbv iota. rewrite IH.
    + unfold issue.
      cbn [target pending clock trace poke_log out err regs mem].
      rewrite <- app_assoc, Nat.add_succ_r.
      replace (copied + 8 + 8 * Z.of_nat k)
        with (copied + 8 * Z.of_nat (S k)) by lia.
      reflexivity.
    + intros i Hi. unfold issue. cbn [clock].
      replace (S (clock w) + i)%nat with (clock w + S i)%nat by lia.
      apply Hf. lia.
Qed.

(** Memory outside the block written is as it was. *)
Lemma poked_mem_beyond (where_ : Z) (new_text : list Z) (n : nat) :
  forall (m : Z -> Z) (copied a : Z),
  8 * Z.of_nat n <= 2 ^ 64 ->
  8 * Z.of_nat n <= wrap64 (a - where_ - copied) ->
  poked_mem m where_ new_text n copied a = m a.
Proof.
  induction n as [|n IH]; intros m copied a Hn Ha; [reflexivity|].
  cbn [poked_mem].
  assert (Hr := wrap64_range (a - where_ - copied)).
  rewrite IH.
  - apply store8_outside.
    replace (wrap64 (a - wrap64 (where_ + copied)))
      with (wrap64 (a - where_ - copied)) by wrap_lia.
    lia.
  - lia.
  - replace (wrap64 (a - where_ - (copied + 8)))
      with (wrap64 (a - where_ - copied) - 8) by wrap_lia.
    lia.
Qed.

(** Memory inside the block written holds the bytes of the buffer. *)
Lemma poked_mem_within (where_ : Z) (new_text : list Z) (n : nat) :
  forall (m : Z -> Z) (copied a : Z),
  0 <= copied ->
  8 * Z.of_nat n <= 2 ^ 64 ->
  (forall j, copied <= j < copied + 8 * Z.of_nat n ->
             0 <= nth (Z.to_nat j) new_text 0 < 256) ->
  wrap64 (a - where_ - copied) < 8 * Z.of_nat n ->
  poked_mem m where_ new_text n copied a
  = nth (Z.to_nat (copied + wrap64 (a - where_ - copied))) new_text 0.
Proof.
  induction n as [|n IH]; intros m copied a Hc Hn Hb Ha.
  - assert (Hr := wrap64_range (a - where_ - copied)). lia.
  - cbn [poked_mem].
    assert (Hr := wrap64_range (a - where_ - copied)).
    destruct (Z.ltb_spec (wrap64 (a - where_ - copied)) 8) as [Hd|Hd].
    + rewrite poked_mem_beyond.
      * rewrite store8_inside
          by (replace (wrap64 (a - wrap64 (where_ + copied)))
                with (wrap64 (a - where_ - copied)) by wrap_lia; exact Hd).
        replace (wrap64 (a - wrap64 (where_ + copied)))
          with (wrap64 (a - where_ - copied)) by wrap_lia.
        rewrite <- (Z2Nat.id (wrap64 (a - where_ - copied))) at 1 by lia.
        rewrite byte_at_le_word.
        -- rewrite buf_read_nth by lia. now rewrite Z2Nat.id by lia.
        -- apply buf_read_bytes; [exact Hc|]. intros j Hj. apply Hb. lia.
        -- unfold buf_read. rewrite length_map, length_seq. lia.
      * lia.
      * replace (wrap64 (a - where_ - (copied + 8)))
          with (wrap64 (a - where_ - copied) - 8 + 2 ^ 64) by wrap_lia.
        lia.
    + assert (E : wrap64 (a - where_ - (copied + 8))
                  = wrap64 (a - where_ - copied) - 8) by wrap_lia.
      rewrite IH.
      * rewrite E. f_equal. lia.
      * lia.
      * lia.
      * intros j Hj. apply Hb. lia.
      * rewrite E. lia.
Qed.

(** X8.  When none of its requests is refused, [poke_text] without a
    buffer for the old text returns 0 after one [PTRACE_POKETEXT] per
    word; afterwards the [len] bytes at [where] are the first [len]
    bytes of [new_text], every other byte of memory and every register
    is as before. *)
Theorem poke_text_writes_the_block (o : oracle) (pid where_ : Z)
    (new_text : list Z) (len : Z) (w : world) :
  len mod 8 = 0 -> 0 <= len <= 2 ^ 64 ->
  len <= Z.of_nat (List.length new_text) ->
  all_bytes new_text ->
  (forall i, (i < Z.to_nat (len / 8))%nat -> fault o (clock w + i) = false) ->
  let res := poke_text o pid where_ new_text None len w in
  fst res = Val (0, None) /\
  (forall j, 0 <= j < len ->
     mem (target (snd res)) (wrap64 (where_ + j))
     = nth (Z.to_nat j) new_text 0) /\
  (forall a, len <= wrap64 (a - where_) ->
     mem (target (snd res)) a = mem (target w) a) /\
  regs (target (snd res)) = regs (target w) /\
  clock (snd res) = (Z.to_nat (len / 8) + clock w)%nat /\
  out (snd res) = out w /\ err (snd res) = err w.
Proof.
  intros Hmod Hlen Hbuf Hbytes Hf res. subst res.
  assert (Hn : 8 * Z.of_nat (Z.to_nat (len / 8)) = len).
  { rewrite Z2Nat.id by (apply Z.div_pos; lia).
    rewrite (Z.div_mod len 8) at 2 by lia. lia. }
  unfold poke_text. rewrite bind_unfold. cbv beta iota.
  rewrite Hmod. change (negb (0 =? 0)) with false. cbv iota.
  replace (Z.to_nat (len / 8)) with (Z.to_nat (len / 8) + 0)%nat
    by apply Nat.add_0_r.
  rewrite poke_words_prefix by exact Hf.
  cbn [poke_words]. unfold ret.
  cbn [fst snd target mem regs clock out err].
  split; [reflexivity|].
  split; [|split; [|repeat split; rewrite ?app_nil_r; try reflexivity; lia]].
  - intros j Hj. rewrite poked_mem_within.
    + f_equal. f_equal. wrap_lia.
    + lia.
    + lia.
    + intros i Hi. apply (proj1 (Forall_forall _ _) Hbytes).
      apply nth_In. lia.
    + rewrite Hn. wrap_lia.
  - intros a Ha. apply poked_mem_beyond; [lia|].
    rewrite Hn, Z.sub_0_r. exact Ha.
Qed.

(** Sixteen bytes written over the loop of the harness. *)
Lemma poke_text_writes_the_block_witness :
  let res := poke_text Harness.oracle0 Harness.target_pid Harness.text_base
               [1; 2; 3; 4; 5; 6; 7; 8; 9; 10; 11; 12; 13; 14; 15; 16] None 16
               Harness.world0 in
  fst res = Val (0, None) /\
  mem (target (snd res)) (wrap64 (Harness.text_base + 9)) = 10.
Proof.
  intros res.
  destruct (poke_text_writes_the_block Harness.oracle0 Harness.target_pid
              Harness.text_base
              [1; 2; 3; 4; 5; 6; 7; 8; 9; 10; 11; 12; 13; 14; 15; 16] 16
              Harness.world0) as [H1 [H2 _]].
  - reflexivity.
  - split; discriminate.
  - vm_compute. discriminate.
  - repeat (constructor; [lia|]). constructor.
  - reflexivity.
  - split; [exact H1 | exact (H2 9 ltac:(lia))].
Defined.

(** X9.  [poke_text] stops at the first [PTRACE_POKETEXT] the kernel
    refuses and returns -1 with one message on standard error: the
    words before stay written, nothing after is attempted, and nothing
    puts back what the words before replaced. *)
Theorem poke_text_stops_at_first_failure (o : oracle) (pid where_ : Z)
    (new_text : list Z) (len : Z) (w : world) (k : nat) :
  len mod 8 = 0 -> 0 <= len <= 2 ^ 64 ->
  len <= Z.of_nat (List.length new_text) ->
  all_bytes new_text ->
  (k < Z.to_nat (len / 8))%nat ->
  (forall i, (i < k)%nat -> fault o (clock w + i) = false) ->
  fault o (clock w + k) = true ->
  let res := poke_text o pid where_ new_text None len w in
  fst res = Val (-1, None) /\
  (forall j, 0 <= j < 8 * Z.of_nat k ->
     mem (target (snd res)) (wrap64 (where_ + j))
     = nth (Z.to_nat j) new_text 0) /\
  (forall a, 8 * Z.of_nat k <= wrap64 (a - where_) ->
     mem (target (snd res)) a = mem (target w) a) /\
  regs (target (snd res)) = regs (target w) /\
  clock (snd res) = (S k + clock w)%nat /\
  err (snd res) = err w ++ ["PTRACE_POKETEXT"%string].
Proof.
  intros Hmod Hlen Hbuf Hbytes Hk Hf Hfail res. subst res.
  assert (Hn : 8 * Z.of_nat (Z.to_nat (len / 8)) = len).
  { rewrite Z2Nat.id by (apply Z.div_pos; lia).
    rewrite (Z.div_mod len 8) at 2 by lia. lia. }
  destruct (poke_text o pid where_ new_text None len w) as [r w'] eqn:E.
  unfold poke_text in E. rewrite bind_unfold in E. cbv beta iota in E.
  rewrite Hmod in E. change (negb (0 =? 0)) with false in E. cbv iota in E.
  replace (Z.to_nat (len / 8))
    with (k + S (Z.to_nat (len / 8) - S k))%nat in E by lia.
  rewrite poke_words_prefix in E by exact Hf.
  cbn [poke_words] in E. rewrite bind_unfold in E. unfold ret at 1 in E.
  cbv beta iota in E.
  rewrite bind_unfold in E. unfold ptrace_poketext in E. cbn [clock] in E.
  rewrite (Nat.add_comm k (clock w)), Hfail in E. cbv beta iota in E.
  change (-1 <? 0) with true in E. cbv iota in E.
  unfold perror, eprint, refused, issue, ret, bind in E.
  cbn [fst snd target mem regs clock out err pending trace poke_log] in E.
  injection E as <- <-.
  cbn [fst snd target mem regs clock out err pending trace poke_log].
  split; [reflexivity|].
  split; [|split; [|repeat split; first [reflexivity | lia]]].
  - intros j Hj. rewrite poked_mem_within.
    + f_equal. f_equal. wrap_lia.
    + lia.
    + lia.
    + intros i Hi. apply (proj1 (Forall_forall _ _) Hbytes).
      apply nth_In. lia.
    + wrap_lia.
  - intros a Ha. apply poked_mem_beyond; [lia|].
    rewrite Z.sub_0_r. exact Ha.
Qed.

(** The second of two words is refused. *)
Lemma poke_text_stops_at_first_failure_witness :
  let res := poke_text (Harness.fail_at 1) Harness.target_pid
               Harness.text_base
               [1; 2; 3; 4; 5; 6; 7; 8; 9; 10; 11; 12; 13; 14; 15; 16] None 16
               Harness.world0 in
  fst res = Val (-1, None) /\
  mem (target (snd res)) (wrap64 (Harness.text_base + 3)) = 4.
Proof.
  intros res.
  destruct (poke_text_stops_at_first_failure (Harness.fail_at 1)
              Harness.target_pid Harness.text_base
              [1; 2; 3; 4; 5; 6; 7; 8; 9; 10; 11; 12; 13; 14; 15; 16] 16
              Harness.world0 1) as [H1 [H2 _]].
  - reflexivity.
  - split; discriminate.
  - vm_compute. discriminate.
  - repeat (constructor; [lia|]). constructor.
  - vm_compute. lia.
  - intros i Hi. destruct i; [reflexivity | lia].
  - reflexivity.
  - split; [exact H1 | exact (H2 3 ltac:(lia))].
Defined.

(** *** Saving the old text *)

Lemma nth_firstn_below {A : Type} (l : list A) (n j : nat) (d : A) :
  (j < n)%nat -> nth j (firstn n l) d = nth j l d.
Proof.
  revert n j; induction l as [|x l IH]; intros n j H.
  - now rewrite firstn_nil.
  - destruct n; [lia|]. destruct j; [reflexivity|].
    cbn [firstn nth]. apply IH. lia.
Qed.

Lemma buf_write_length (buf : list Z) (off : Z) (src : list Z) :
  (Z.to_nat off + List.length src <= List.length buf)%nat ->
  List.length (buf_write buf off src) = List.length buf.
Proof.
  intros H. unfold buf_write.
  rewrite !length_app, length_firstn, length_skipn. lia.
Qed.

Lemma buf_write_before (buf : list Z) (off : Z) (src : list Z) (j : nat) :
  (Z.to_nat off + List.length src <= List.length buf)%nat ->
  (j < Z.to_nat off)%nat ->
  nth j (buf_write buf off src) 0 = nth j buf 0.
Proof.
  intros H Hj. unfold buf_write.
  rewrite app_nth1 by (rewrite length_firstn; lia).
  now apply nth_firstn_below.
Qed.

Lemma buf_write_within (buf : list Z) (off : Z) (src : list Z) (j : nat) :
  (Z.to_nat off + List.length src <= List.length buf)%nat ->
  (j < List.length src)%nat ->
  nth (Z.to_nat off + j) (buf_write buf off src) 0 = nth j src 0.
Proof.
  intros H Hj. unfold buf_write.
  rewrite app_nth2 by (rewrite length_firstn; lia).
  rewrite length_firstn.
  replace (Z.to_nat off + j - Nat.min (Z.to_nat off) (List.length buf))%nat
    with j by lia.
  now apply app_nth1.
Qed.

(** The words written and the old text saved while no request fails. *)
Lemma poke_words_capture (o : oracle) (pid where_ : Z) (new_text : list Z)
    (n : nat) :
  forall (copied : Z) (old : list Z) (w : world),
  0 <= copied -> 8 * Z.of_nat n <= 2 ^ 64 ->
  copied + 8 * Z.of_nat n <= Z.of_nat (List.length old) ->
  (forall i, (i < 2 * n)%nat -> fault o (clock w + i) = false) ->
  exists saved w',
    poke_words o n pid where_ new_text (Some old) copied w
    = (Val (0, Some saved), w') /\
    List.length saved = List.length old /\
    (forall j, (j < Z.to_nat copied)%nat -> nth j saved 0 = nth j old 0) /\
    (forall j, 0 <= j < 8 * Z.of_nat n ->
       nth (Z.to_nat (copied + j)) saved 0
       = mem (target w) (wrap64 (where_ + copied + j)) mod 256) /\
    target w' = mk_machine (regs (target w))
                  (poked_mem (mem (target w)) where_ new_text n copied) /\
    clock w' = (2 * n + clock w)%nat /\
    out w' = out w /\ err w' = err w.
Proof.
  induction n as [|n IH]; intros copied old w Hc Hn Hold Hf.
  - exists old, w. cbn [poke_words poked_mem]. unfold ret.
    repeat split; try reflexivity; [lia | now destruct (target w)].
  - cbn [poke_words].
    assert (F0 := Hf 0%nat ltac:(lia)). rewrite Nat.add_0_r in F0.
    assert (F1 := Hf 1%nat ltac:(lia)).
    replace (clock w + 1)%nat with (S (clock w)) in F1 by lia.
    set (addr := wrap64 (where_ + copied)).
    set (old1 := buf_write old copied (le_bytes 8 (load8 (mem (target w)) addr))).
    set (word := le_word (buf_read new_text copied 8)).
    set (w2 := issue (PTRACE_POKETEXT addr word) true
                 (mk_machine (regs (target w))
                             (store8 (mem (target w)) addr word))
                 (pending w)
                 (issue (PTRACE_PEEKTEXT addr) true (target w) (pending w) w)).
    assert (L1 : (Z.to_nat copied + List.length
                    (le_bytes 8 (load8 (mem (target w)) addr))
                  <= List.length old)%nat)
      by (rewrite le_bytes_length; lia).
    destruct (IH (copied + 8) old1 w2) as
      [saved [w' [E [Hlen [Hkeep [Hnew [Ht [Hck [Ho He]]]]]]]]].
    + lia.
    + lia.
    + unfold old1. rewrite buf_write_length by exact L1. lia.
    + intros i Hi. unfold w2, issue. cbn [clock].
      replace (S (S (clock w)) + i)%nat with (clock w + (2 + i))%nat by lia.
      apply Hf. lia.
    + exists saved, w'. split; [|split; [|split; [|split; [|split]]]].
      * rewrite bind_unfold, bind_unfold. unfold ptrace_peektext.
        rewrite F0. cbv beta iota. rewrite andb_false_r. cbv iota.
        unfold ret at 1. cbv beta iota.
        rewrite bind_unfold. unfold ptrace_poketext.
        unfold issue at 1. cbn [clock]. rewrite F1. cbv beta iota.
        change (0 <? 0) with false. cbv iota. exact E.
      * rewrite Hlen. unfold old1. now apply buf_write_length.
      * intros j Hj. rewrite Hkeep by lia. unfold old1.
        now apply buf_write_before.
      * intros j Hj. destruct (Z.ltb_spec j 8) as [H8|H8].
        -- rewrite Hkeep by lia. unfold old1.
           replace (Z.to_nat (copied + j))
             with (Z.to_nat copied + Z.to_nat j)%nat by lia.
           rewrite buf_write_within
             by (try exact L1; rewrite le_bytes_length; lia).
           rewrite nth_le_bytes by lia. rewrite byte_at_load8 by lia.
           rewrite Z2Nat.id by lia. f_equal. f_equal. unfold addr. wrap_lia.
        -- replace (copied + j) with (copied + 8 + (j - 8)) by lia.
           rewrite Hnew by lia. unfold w2, issue. cbn [target mem].
           rewrite store8_outside by (unfold addr; wrap_lia).
           f_equal. f_equal. f_equal. lia.
      * rewrite Ht. unfold w2, issue. cbn [target regs mem poked_mem].
        reflexivity.
      * rewrite Hck, Ho, He. unfold w2, issue. cbn [clock out err].
        repeat split. lia.
Qed.

(** X10.  What [poke_text] saves into [old_text] is what a second
    [poke_text] needs to undo the first: when both buffers have room for
    [len] bytes, no request is refused and the memory written holds
    bytes, writing the saved buffer back over the same place leaves
    every byte of memory and every register of the target as it was
    before the first call. *)
Theorem poke_text_saved_text_restores (o : oracle) (pid where_ : Z)
    (new_text old_text : list Z) (len : Z) (w : world) :
  len mod 8 = 0 -> 0 <= len <= 2 ^ 64 ->
  len <= Z.of_nat (List.length new_text) ->
  len <= Z.of_nat (List.length old_text) ->
  (forall j, 0 <= j < len ->
     0 <= mem (target w) (wrap64 (where_ + j)) < 256) ->
  (forall i, (i < 3 * Z.to_nat (len / 8))%nat ->
     fault o (clock w + i) = false) ->
  exists saved w1 w2,
    poke_text o pid where_ new_text (Some old_text) len w
    = (Val (0, Some saved), w1) /\
    poke_text o pid where_ saved None len w1 = (Val (0, None), w2) /\
    (forall a, 0 <= a < 2 ^ 64 -> mem (target w2) a = mem (target w) a) /\
    regs (target w2) = regs (target w).
Proof.
  intros Hmod Hlen Hnew Hold Hbytes Hf.
  assert (Hn : 8 * Z.of_nat (Z.to_nat (len / 8)) = len).
  { rewrite Z2Nat.id by (apply Z.div_pos; lia).
    rewrite (Z.div_mod len 8) at 2 by lia. lia. }
  set (n := Z.to_nat (len / 8)) in *.
  set (w0 := mk_world (target w) (pending w) (clock w) (trace w)
                      ((where_, len) :: poke_log w) (out w) (err w)).
  destruct (poke_words_capture o pid where_ new_text n 0 old_text w0)
    as [saved [w1 [E [Hl [_ [Hsaved [Ht [Hck _]]]]]]]].
  - lia.
  - lia.
  - lia.
  - intros i Hi. apply Hf. lia.
  - cbn [target clock w0] in Hsaved, Ht, Hck.
    set (w1' := mk_world (target w1) (pending w1) (clock w1) (trace w1)
                         ((where_, len) :: poke_log w1) (out w1) (err w1)).
    assert (Hf1 : forall i, (i < n)%nat -> fault o (clock w1' + i) = false).
    { intros i Hi. cbn [clock w1']. rewrite Hck.
      replace (2 * n + clock w + i)%nat with (clock w + (2 * n + i))%nat
        by lia.
      apply Hf. lia. }
    assert (E2 := poke_words_prefix o pid where_ saved n 0 0 w1' Hf1).
    rewrite Nat.add_0_r in E2. cbn [poke_words] in E2. unfold ret in E2.
    eexists saved, w1, _. split; [|split; [|split]].
    + unfold poke_text. rewrite bind_unfold. cbv beta iota.
      rewrite Hmod. change (negb (0 =? 0)) with false. cbv iota.
      fold n. exact E.
    + unfold poke_text. rewrite bind_unfold. cbv beta iota.
      rewrite Hmod. change (negb (0 =? 0)) with false. cbv iota.
      fold n. exact E2.
    + intros a Ha. cbn [target mem w1']. rewrite Ht. cbn [mem].
      destruct (Z.ltb_spec (wrap64 (a - where_)) len) as [Hin|Hout].
      * assert (Hr := wrap64_range (a - where_)).
        rewrite poked_mem_within.
        -- rewrite Z.sub_0_r. rewrite Hsaved by lia.
           rewrite Z.add_0_r.
           assert (Ea : wrap64 (where_ + wrap64 (a - where_)) = a)
             by wrap_lia.
           rewrite Ea. apply Z.mod_small.
           rewrite <- Ea. apply Hbytes. lia.
        -- lia.
        -- lia.
        -- intros j Hj. rewrite <- (Z.add_0_l j). rewrite Hsaved by lia.
           apply Z.mod_pos_bound. lia.
        -- rewrite Z.sub_0_r. lia.
      * rewrite poked_mem_beyond by (rewrite ?Z.sub_0_r; lia).
        apply poked_mem_beyond; rewrite ?Z.sub_0_r; lia.
    + cbn [target regs w1']. now rewrite Ht.
Qed.

(** The two-byte loop of the harness overwritten and put back. *)
Lemma poke_text_saved_text_restores_witness :
  exists saved w1 w2,
    poke_text Harness.oracle0 Harness.target_pid Harness.text_base
              [1; 2; 3; 4; 5; 6; 7; 8] (Some [0; 0; 0; 0; 0; 0; 0; 0]) 8
              Harness.world0
    = (Val (0, Some saved), w1) /\
    poke_text Harness.oracle0 Harness.target_pid Harness.text_base saved
              None 8 w1
    = (Val (0, None), w2) /\
    (forall a, 0 <= a < 2 ^ 64 ->
       mem (target w2) a = mem (target Harness.world0) a) /\
    regs (target w2) = regs (target Harness.world0).
Proof.
  apply (poke_text_saved_text_restores Harness.oracle0 Harness.target_pid
           Harness.text_base [1; 2; 3; 4; 5; 6; 7; 8]
           [0; 0; 0; 0; 0; 0; 0; 0] 8 Harness.world0).
  - reflexivity.
  - split; discriminate.
  - vm_compute. discriminate.
  - vm_compute. discriminate.
  - intros j Hj.
    assert (E : j = 0 \/ j = 1 \/ j = 2 \/ j = 3 \/
                j = 4 \/ j = 5 \/ j = 6 \/ j = 7) by lia.
    destruct E as [E|[E|[E|[E|[E|[E|[E|E]]]]]]]; rewrite E;
      vm_compute; (split; [discriminate | reflexivity]).
  - reflexivity.
Defined.

(** ** The block for the scratch page *)

Lemma grow_block_from (memsize : Z) (w : world) (fuel : nat) :
  forall k : nat,
  0 <= memsize <= 2 ^ 63 ->
  (58 <= k + fuel)%nat -> (k <= 58)%nat ->
  (k = 0%nat \/ 32 * 2 ^ (Z.of_nat k - 1) < memsize) ->
  exists k' : nat,
    (k' <= 58)%nat /\
    grow_block fuel (32 * 2 ^ Z.of_nat k) memsize w
    = (Val (32 * 2 ^ Z.of_nat k'), w) /\
    memsize <= 32 * 2 ^ Z.of_nat k' /\
    (k' = 0%nat \/ 32 * 2 ^ (Z.of_nat k' - 1) < memsize).
Proof.
  induction fuel as [|fuel IH]; intros k Hm Hf Hk Hprev.
  - assert (k = 58)%nat by lia. subst k.
    exists 58%nat. cbn [grow_block].
    change (32 * 2 ^ Z.of_nat 58) with (2 ^ 63) in *.
    destruct (Z.ltb_spec (2 ^ 63) memsize); [lia|].
    repeat split; [lia | lia | exact Hprev].
  - cbn [grow_block].
    destruct (Z.ltb_spec (32 * 2 ^ Z.of_nat k) memsize) as [Hlt|Hge].
    + assert (Hk' : (k < 58)%nat).
      { destruct (Nat.lt_ge_cases k 58) as [H|H]; [exact H|].
        assert (k = 58)%nat by lia. subst k.
        change (32 * 2 ^ Z.of_nat 58) with (2 ^ 63) in Hlt. lia. }
      assert (E : wrap64 (Z.shiftl (32 * 2 ^ Z.of_nat k) 1)
                  = 32 * 2 ^ Z.of_nat (S k)).
      { rewrite Z.shiftl_mul_pow2 by lia.
        rewrite Nat2Z.inj_succ, Z.pow_succ_r by lia.
        change (2 ^ 1) with 2.
        assert (2 ^ Z.of_nat k <= 2 ^ 57)
          by (apply Z.pow_le_mono_r; lia).
        change (2 ^ 57) with 144115188075855872 in *.
        rewrite wrap64_small;
          [lia | change (2 ^ 64) with 18446744073709551616; lia]. }
      rewrite E. apply IH; try lia.
      right. replace (Z.of_nat (S k) - 1) with (Z.of_nat k) by lia.
      exact Hlt.
    + exists k. repeat split; [exact Hk | lia | exact Hprev].
Qed.

(** X11.  For a size of at most 2^63 the loop that doubles [blocksize]
    ends, within 58 rounds, at the least of 32, 64, 128, ... that is not
    below the size: the block is larger than a page as soon as the size
    is. *)
Theorem grow_block_least_power (fuel : nat) (memsize : Z) (w : world) :
  0 <= memsize <= 2 ^ 63 -> (58 <= fuel)%nat ->
  exists k : nat,
    (k <= 58)%nat /\
    grow_block fuel 32 memsize w = (Val (32 * 2 ^ Z.of_nat k), w) /\
    memsize <= 32 * 2 ^ Z.of_nat k /\
    (k = 0%nat \/ 32 * 2 ^ (Z.of_nat k - 1) < memsize) /\
    (32 * 2 ^ Z.of_nat k <= PAGE_SIZE <-> memsize <= PAGE_SIZE).
Proof.
  intros Hm Hf.
  destruct (grow_block_from memsize w fuel 0 Hm ltac:(lia) ltac:(lia)
              ltac:(now left)) as [k [Hk [E [Hge Hleast]]]].
  exists k. change (32 * 2 ^ Z.of_nat 0) with 32 in E.
  repeat split; try assumption.
  - unfold PAGE_SIZE. lia.
  - intros Hp. unfold PAGE_SIZE in *.
    destruct Hleast as [-> | Hleast]; [cbn; lia|].
    destruct (Nat.le_gt_cases k 7) as [H7|H7].
    + assert (2 ^ Z.of_nat k <= 2 ^ 7) by (apply Z.pow_le_mono_r; lia).
      change (2 ^ 7) with 128 in *. lia.
    + assert (2 ^ 7 <= 2 ^ (Z.of_nat k - 1)) by (apply Z.pow_le_mono_r; lia).
      change (2 ^ 7) with 128 in *. lia.
Qed.

(** A name of 5000 bytes: the block is 8192 bytes long. *)
Lemma grow_block_least_power_witness :
  exists k : nat,
    (k <= 58)%nat /\
    grow_block 58 32 5006 Harness.world0
    = (Val (32 * 2 ^ Z.of_nat k), Harness.world0) /\
    5006 <= 32 * 2 ^ Z.of_nat k /\
    (k = 0%nat \/ 32 * 2 ^ (Z.of_nat k - 1) < 5006) /\
    (32 * 2 ^ Z.of_nat k <= PAGE_SIZE <-> 5006 <= PAGE_SIZE).
Proof.
  apply (grow_block_least_power 58 5006 Harness.world0).
  - split; [discriminate | vm_compute; discriminate].
  - lia.
Defined.

Lemma skipn_repeat {A : Type} (x : A) (n k : nat) :
  skipn k (repeat x n) = repeat x (n - k).
Proof.
  revert k; induction n as [|n IH]; intros k.
  - now rewrite skipn_nil.
  - destruct k; [reflexivity|]. cbn [repeat skipn Nat.sub]. apply IH.
Qed.

(** Writing into a zeroed buffer right after what it holds already. *)
Lemma buf_write_append (pre src : list Z) (n : nat) :
  (List.length src <= n)%nat ->
  buf_write (pre ++ repeat 0 n) (Z.of_nat (List.length pre)) src
  = (pre ++ src) ++ repeat 0 (n - List.length src).
Proof.
  intros H. unfold buf_write. rewrite Nat2Z.id.
  rewrite firstn_app, firstn_all, Nat.sub_diag, firstn_O, app_nil_r.
  rewrite skipn_app, skipn_all2 by lia. cbn [app].
  replace (List.length pre + List.length src - List.length pre)%nat
    with (List.length src) by lia.
  rewrite skipn_repeat. now rewrite <- app_assoc.
Qed.

Ltac side := rewrite ?le_bytes_length; cbn [List.length]; lia.

(** X12.  When the block has room for the name and the six bytes before
    it, it is laid out as: the opcode of [call], the four bytes of the
    displacement, the opcode of [int3], the name from offset 6 on, and
    zeros up to [blocksize].  A zero byte follows the name inside the
    block except when the name fills the block to its end. *)
Theorem trampoline_layout (blocksize getenv_delta : Z) (env : list Z) :
  strlen env + 6 <= blocksize ->
  trampoline blocksize getenv_delta env
  = ([232] ++ le_bytes 4 getenv_delta ++ [204] ++ until_nul env ++
     repeat 0 (Z.to_nat (blocksize - 6 - strlen env)), 6) /\
  Z.of_nat (List.length (fst (trampoline blocksize getenv_delta env)))
  = blocksize /\
  (nth (Z.to_nat (6 + strlen env))
       (fst (trampoline blocksize getenv_delta env)) 1 = 0
   <-> strlen env + 6 < blocksize).
Proof.
  intros H. unfold strlen in *.
  set (name := until_nul env) in *.
  set (n := Z.to_nat blocksize).
  assert (Hn : (6 + List.length name <= n)%nat) by lia.
  assert (E : trampoline blocksize getenv_delta env
              = ([232] ++ le_bytes 4 getenv_delta ++ [204] ++ name ++
                 repeat 0 (Z.to_nat (blocksize - 6
                                     - Z.of_nat (List.length name))), 6)).
  { unfold trampoline, buf_set. fold n. fold name.
    cbv zeta. f_equal.
    change (repeat 0 n) with ([] ++ repeat 0 n).
    change 0 with (Z.of_nat (List.length (@nil Z))) at 1.
    rewrite buf_write_append by side.
    change (Z.of_nat (List.length (@nil Z)) + 1)
      with (Z.of_nat (List.length ([] ++ [232]))).
    rewrite buf_write_append by side.
    replace (Z.of_nat (List.length ([] ++ [232])) + 4)
      with (Z.of_nat (List.length (([] ++ [232]) ++ le_bytes 4 getenv_delta)))
      by (rewrite length_app, le_bytes_length; cbn [List.length app]; lia).
    rewrite buf_write_append by side.
    replace (Z.of_nat (List.length
               (([] ++ [232]) ++ le_bytes 4 getenv_delta)) + 1)
      with (Z.of_nat (List.length
               ((([] ++ [232]) ++ le_bytes 4 getenv_delta) ++ [204])))
      by (rewrite !length_app, le_bytes_length; cbn [List.length app]; lia).
    rewrite buf_write_append by side.
    rewrite le_bytes_length. cbn [List.length app].
    rewrite <- !app_assoc. cbn [app].
    do 4 f_equal. f_equal. lia. }
  rewrite E. cbn [fst]. split; [reflexivity|]. split.
  - rewrite !length_app, le_bytes_length, repeat_length.
    cbn [List.length]. lia.
  - replace ([232] ++ le_bytes 4 getenv_delta ++ [204] ++ name ++
             repeat 0 (Z.to_nat (blocksize - 6
                                 - Z.of_nat (List.length name))))
      with ((([232] ++ le_bytes 4 getenv_delta ++ [204]) ++ name) ++
            repeat 0 (Z.to_nat (blocksize - 6
                                - Z.of_nat (List.length name))))
      by (rewrite <- !app_assoc; reflexivity).
    rewrite app_nth2
      by (rewrite !length_app, le_bytes_length; cbn [List.length]; lia).
    rewrite !length_app, le_bytes_length. cbn [List.length].
    replace (Z.to_nat (6 + Z.of_nat (List.length name))
             - (1 + (4 + 1) + List.length name))%nat with 0%nat by lia.
    destruct (Z.to_nat (blocksize - 6 - Z.of_nat (List.length name)))
      as [|r] eqn:Er; cbn [repeat nth]; split; intros; lia.
Qed.

(** The block for [FOO]. *)
Lemma trampoline_layout_witness :
  trampoline 32 2658987 [70; 79; 79]
  = ([232] ++ le_bytes 4 2658987 ++ [204] ++ until_nul [70; 79; 79] ++
     repeat 0 (Z.to_nat (32 - 6 - strlen [70; 79; 79])), 6) /\
  Z.of_nat (List.length (fst (trampoline 32 2658987 [70; 79; 79]))) = 32 /\
  (nth (Z.to_nat (6 + strlen [70; 79; 79]))
       (fst (trampoline 32 2658987 [70; 79; 79])) 1 = 0
   <-> strlen [70; 79; 79] + 6 < 32).
Proof.
  apply (trampoline_layout 32 2658987 [70; 79; 79]).
  vm_compute. discriminate.
Defined.

(** ** The command line *)

(** [strtol] reports an overflow only together with one of the two
    bounds of [long]. *)
Lemma strtol_overflow (s : list Z) (base v : Z) :
  strtol s base = (v, true) -> v = LONG_MAX \/ v = LONG_MIN.
Proof.
  unfold strtol. destruct (strtol_sign (skip_space s)) as [neg s2].
  repeat match goal with
         | |- context [if ?c then _ else _] => destruct c
         end; intros [= <-]; auto.
Qed.

Lemma strtol_range (s : list Z) (base v : Z) (ov : bool) :
  strtol s base = (v, ov) -> LONG_MIN <= v <= LONG_MAX.
Proof.
  unfold strtol. destruct (strtol_sign (skip_space s)) as [neg s2].
  cbv zeta.
  repeat match goal with
         | |- context [?a <? ?b] => destruct (Z.ltb_spec a b)
         end; intros [= <- _]; unfold LONG_MIN, LONG_MAX in *; lia.
Qed.

(** What the loop of [main] does with one [-p] while [errno] is 0,
    which it is as long as no [strtol] has overflowed. *)
Lemma parse_options_p (s : list Z) (rest : list getopt_result) (pid : Z)
    (env : option (list Z)) (w : world) :
  parse_options (Opt_p s :: rest) pid env 0 w
  = if snd (strtol s 10)
    then (perror "strtol" ;; return_ 1) w
    else if fst (strtol s 10) <? 0
         then (eprint "cannot accept negative pids" ;; return_ 1) w
         else parse_options rest (fst (strtol s 10)) env 0 w.
Proof.
  cbn [parse_options]. destruct (strtol s 10) as [v ov] eqn:E. cbn [fst snd].
  destruct ov.
  - change (ERANGE =? ERANGE) with true. cbn [andb].
    destruct (strtol_overflow _ _ _ E) as [-> | ->]; reflexivity.
  - change (0 =? ERANGE) with false. change (0 =? 0) with true.
    cbn [andb orb negb]. now destruct (v <? 0).
Qed.

(** X13.  The options are handled one after the other, and nothing but
    the pid and the name read so far passes from one to the next:
    [errno] is still 0 after every option that did not end the program.
    So the loop over [a ++ b] is the loop over [a] followed, if that
    falls through, by the loop over [b]; once an option has ended the
    program the rest is not looked at. *)
Theorem parse_options_app (a b : list getopt_result) (pid : Z)
    (env : option (list Z)) (w : world) :
  parse_options (a ++ b) pid env 0 w
  = ('(p, e) <- parse_options a pid env 0 ;; parse_options b p e 0) w.
Proof.
  revert pid env.
  induction a as [|[ |optarg|optarg|optopt] a IH]; intros pid env.
  - reflexivity.
  - reflexivity.
  - rewrite <- app_comm_cons, bind_unfold, !parse_options_p.
    destruct (snd (strtol optarg 10)); [reflexivity|].
    destruct (fst (strtol optarg 10) <? 0); [reflexivity|].
    rewrite IH, bind_unfold. reflexivity.
  - rewrite <- app_comm_cons. cbn [parse_options]. apply IH.
  - rewrite <- app_comm_cons, bind_unfold. cbn [parse_options].
    destruct (optopt =? 112); [reflexivity|].
    destruct (optopt =? 101); [reflexivity|].
    destruct ((32 <=? optopt) && (optopt <=? 126)); reflexivity.
Qed.

Lemma to_pid_t_wrap32 (v v' : Z) :
  wrap32 v' = wrap32 v -> to_pid_t v' = to_pid_t v.
Proof. intros H. unfold to_pid_t. now rewrite H. Qed.

(** What [main] does when [-p] and [-e] are each given once. *)
Lemma main_two_options (o : oracle) (fuel : nat) (s env : list Z)
    (opts : list getopt_result) (w : world) :
  opts = [Opt_p s; Opt_e env] \/ opts = [Opt_e env; Opt_p s] ->
  main o fuel opts w
  = if snd (strtol s 10)
    then (Val 1, snd (perror "strtol" w))
    else if fst (strtol s 10) <? 0
         then (Val 1, snd (eprint "cannot accept negative pids" w))
         else getenv_process o fuel (to_pid_t (fst (strtol s 10))) env w.
Proof.
  intros Hopts.
  assert (P : parse_options opts (-1) None 0 w
              = if snd (strtol s 10)
                then (perror "strtol" ;; return_ 1) w
                else if fst (strtol s 10) <? 0
                     then (eprint "cannot accept negative pids" ;;
                           return_ 1) w
                     else (Val (fst (strtol s 10), Some env), w)).
  { destruct Hopts as [-> | ->].
    - rewrite parse_options_p. reflexivity.
    - change (parse_options [Opt_e env; Opt_p s] (-1) None 0 w)
        with (parse_options [Opt_p s] (-1) (Some env) 0 w).
      rewrite parse_options_p. reflexivity. }
  destruct (snd (strtol s 10)).
  { apply main_rejected. exact P. }
  destruct (Z.ltb_spec (fst (strtol s 10)) 0) as [Hneg|Hpos].
  { apply main_rejected. exact P. }
  apply main_runs_lookup; [now rewrite P | lia].
Qed.

(** X14.  With [-p] and [-e] each given once, in either order, the
    argument of [-p] is judged by what [strtol] makes of it: an overflow
    and a negative number each end the program with status 1 and one
    message, before any request is made; everything else, a string
    without digits and a number that does not fit [pid_t] included, is
    handed on to [getenv_process] cut down to 32 bits. *)
Theorem main_judges_pid_by_strtol (o : oracle) (fuel : nat)
    (s env : list Z) (opts : list getopt_result) (w : world) :
  opts = [Opt_p s; Opt_e env] \/ opts = [Opt_e env; Opt_p s] ->
  let v := fst (strtol s 10) in
  let res := main o fuel opts w in
  (snd (strtol s 10) = true ->
   fst res = Val 1 /\ trace (snd res) = trace w /\
   target (snd res) = target w /\ err (snd res) = err w ++ ["strtol"%string])
  /\
  (snd (strtol s 10) = false -> v < 0 ->
   fst res = Val 1 /\ trace (snd res) = trace w /\
   target (snd res) = target w /\
   err (snd res) = err w ++ ["cannot accept negative pids"%string])
  /\
  (snd (strtol s 10) = false -> 0 <= v ->
   res = getenv_process o fuel (to_pid_t v) env w).
Proof.
  intros Hopts v res. subst v res.
  rewrite (main_two_options o fuel s env opts w Hopts).
  split; [|split].
  - intros ->. repeat split.
  - intros -> H. destruct (Z.ltb_spec (fst (strtol s 10)) 0); [|lia].
    repeat split.
  - intros -> H. destruct (Z.ltb_spec (fst (strtol s 10)) 0); [lia|].
    reflexivity.
Qed.

(** [-p 99999999999999999999 -e FOO]: the overflow is reported. *)
Lemma main_judges_pid_by_strtol_witness :
  let res := main Harness.oracle0 100
               [Opt_p (bytes "99999999999999999999"); Opt_e (bytes "FOO")]
               Harness.world0 in
  fst res = Val 1 /\ trace (snd res) = trace Harness.world0 /\
  target (snd res) = target Harness.world0 /\
  err (snd res) = err Harness.world0 ++ ["strtol"%string].
Proof.
  apply (proj1 (main_judges_pid_by_strtol Harness.oracle0 100
                  (bytes "99999999999999999999") (bytes "FOO")
                  [Opt_p (bytes "99999999999999999999"); Opt_e (bytes "FOO")]
                  Harness.world0 (or_introl eq_refl))).
  vm_compute. reflexivity.
Defined.

(** X15.  The pid is cut down to 32 bits without a check: two arguments
    of [-p] that [strtol] accepts and that agree in their low 32 bits
    give the same run, so [-p 4294968530] looks at process 1234. *)
Theorem main_pid_modulo_2_32 (o : oracle) (fuel : nat)
    (s s' env : list Z) (w : world) :
  snd (strtol s 10) = false -> snd (strtol s' 10) = false ->
  0 <= fst (strtol s 10) -> 0 <= fst (strtol s' 10) ->
  wrap32 (fst (strtol s' 10)) = wrap32 (fst (strtol s 10)) ->
  main o fuel [Opt_p s'; Opt_e env] w = main o fuel [Opt_p s; Opt_e env] w.
Proof.
  intros Hs Hs' Hv Hv' Hw.
  rewrite !(main_two_options o fuel _ env _ w (or_introl eq_refl)).
  rewrite Hs, Hs'.
  destruct (Z.ltb_spec (fst (strtol s 10)) 0); [lia|].
  destruct (Z.ltb_spec (fst (strtol s' 10)) 0); [lia|].
  now rewrite (to_pid_t_wrap32 _ _ Hw).
Qed.

Lemma main_pid_modulo_2_32_witness :
  main Harness.oracle0 100
       [Opt_p (bytes "4294968530"); Opt_e (bytes "FOO")] Harness.world0
  = main Harness.oracle0 100
         [Opt_p (bytes "1234"); Opt_e (bytes "FOO")] Harness.world0.
Proof.
  apply (main_pid_modulo_2_32 Harness.oracle0 100 (bytes "1234")
           (bytes "4294968530") (bytes "FOO") Harness.world0).
  - reflexivity.
  - reflexivity.
  - vm_compute. discriminate.
  - vm_compute. discriminate.
  - reflexivity.
Defined.

(** A refused attach is the only request of the run. *)
Lemma attach_refused (o : oracle) (fuel : nat) (pid : Z) (env : list Z)
    (w : world) :
  pid <= 0 ->
  let res := getenv_process o fuel pid env w in
  fst res = Val (-1) /\
  trace (snd res) = (PTRACE_ATTACH, false) :: trace w /\
  target (snd res) = target w /\ out (snd res) = out w.
Proof.
  intros Hpid res. subst res.
  destruct (attach_target o pid w) as [r w'] eqn:E.
  assert (E' := E).
  unfold attach_target in E. rewrite bind_unfold in E.
  unfold ptrace_attach in E.
  assert (Ha : (pid <=? 0) || fault o (clock w) = true)
    by (apply orb_true_iff; left; now apply Z.leb_le).
  rewrite Ha in E. cbv beta iota in E. rewrite bind_unfold in E.
  change (negb (-1 =? 0)) with true in E. unfold when in E.
  rewrite bind_unfold in E. unfold perror at 1, eprint at 1 in E.
  cbv beta iota in E. rewrite bind_unfold in E.
  match type of E with context [check_yama o ?w0] =>
    destruct (check_yama_frame o w0) as (Y1 & Y2 & Y3 & Y5);
    destruct (check_yama o w0) as [r1 w1] end.
  cbn [fst snd] in Y1, Y2, Y3, Y5. subst r1. cbv beta iota in E.
  unfold return_ in E. injection E as <- <-.
  rewrite (attach_target_returned o fuel pid env w w1 (-1) E').
  cbn [fst snd]. rewrite Y2, Y3, Y5. repeat split.
Qed.

(** X16.  An argument of [-p] that [strtol] accepts but whose low 32
    bits, read as [pid_t], are not positive names no process: this holds
    of [0], of every string in which [strtol] finds no number, of
    [4294967296].  The attach is refused, nothing else is asked of the
    kernel, and the exit status is 255. *)
Theorem main_pid_names_no_process (o : oracle) (fuel : nat)
    (s env : list Z) (opts : list getopt_result) (w : world) :
  opts = [Opt_p s; Opt_e env] \/ opts = [Opt_e env; Opt_p s] ->
  snd (strtol s 10) = false -> 0 <= fst (strtol s 10) ->
  to_pid_t (fst (strtol s 10)) <= 0 ->
  let res := main o fuel opts w in
  exit_status (fst res) = Some 255 /\
  trace (snd res) = (PTRACE_ATTACH, false) :: trace w /\
  target (snd res) = target w /\ out (snd res) = out w.
Proof.
  intros Hopts Hov Hv Hp res. subst res.
  rewrite (main_two_options o fuel s env opts w Hopts), Hov.
  destruct (Z.ltb_spec (fst (strtol s 10)) 0); [lia|].
  destruct (attach_refused o fuel _ env w Hp) as [H1 [H2 [H3 H4]]].
  rewrite H1. repeat split; assumption.
Qed.

(** [-p abc -e FOO]. *)
Lemma main_pid_names_no_process_witness :
  let res := main Harness.oracle0 100
               [Opt_p (bytes "abc"); Opt_e (bytes "FOO")] Harness.world0 in
  exit_status (fst res) = Some 255 /\
  trace (snd res) = (PTRACE_ATTACH, false) :: trace Harness.world0 /\
  target (snd res) = target Harness.world0 /\
  out (snd res) = out Harness.world0.
Proof.
  apply (main_pid_names_no_process Harness.oracle0 100 (bytes "abc")
           (bytes "FOO") [Opt_p (bytes "abc"); Opt_e (bytes "FOO")]
           Harness.world0 (or_introl eq_refl)).
  - reflexivity.
  - vm_compute. discriminate.
  - vm_compute. discriminate.
Defined.

(** ** Failures on the way *)

(** The first stretch when its three requests succeed. *)
Lemma attach_target_succeeds (o : oracle) (pid : Z) (w : world) :
  0 < pid ->
  fault o (clock w) = false -> fault o (S (clock w)) = false ->
  fault o (S (S (clock w))) = false ->
  attach_target o pid w
  = (Val (regs (target w)),
     mk_world (target w) None (3 + clock w)
              ((PTRACE_GETREGS, true) :: (WAITPID, true)
               :: (PTRACE_ATTACH, true) :: trace w)
              (poke_log w) (out w) (err w)).
Proof.
  intros Hpid F0 F1 F2. unfold attach_target.
  rewrite bind_unfold. unfold ptrace_attach. rewrite F0.
  destruct (Z.leb_spec pid 0); [lia|]. cbn [orb]. cbv beta iota.
  change (negb (0 =? 0)) with false. rewrite bind_when_false.
  rewrite bind_unfold. unfold sys_waitpid. cbn [clock issue pending].
  rewrite F1. cbv beta iota.
  destruct (Z.eqb_spec pid (-1)); [lia|]. rewrite bind_when_false.
  rewrite bind_unfold. unfold ptrace_getregs. cbn [clock issue].
  rewrite F2. reflexivity.
Qed.

(** X17.  [old_word] is not initialised.  When the first request of the
    first [poke_text], the [PTRACE_PEEKTEXT] that is to save the old
    text, is refused, the statements under [fail:] write the eight bytes
    [old_word] happens to hold over the text at the instruction pointer
    of the target; [getenv_process] returns 1.  If that write is
    accepted the text of the target is lost. *)
Theorem failed_first_read_writes_junk (o : oracle) (fuel : nat) (pid : Z)
    (env : list Z) (w : world) :
  0 < pid ->
  fault o (clock w) = false -> fault o (1 + clock w) = false ->
  fault o (2 + clock w) = false -> fault o (3 + clock w) = true ->
  let res := getenv_process o fuel pid env w in
  let pc := wrap64 (rip (regs (target w))) in
  let junk := le_word (uninit o 0 8) in
  fst res = Val 1 /\
  trace (snd res)
  = (PTRACE_DETACH, negb (fault o (5 + clock w)))
    :: (PTRACE_POKETEXT pc junk, negb (fault o (4 + clock w)))
    :: (PTRACE_PEEKTEXT pc, false)
    :: (PTRACE_GETREGS, true) :: (WAITPID, true) :: (PTRACE_ATTACH, true)
    :: trace w /\
  mem (target (snd res))
  = (if fault o (4 + clock w) then mem (target w)
     else store8 (mem (target w)) pc junk) /\
  regs (target (snd res)) = regs (target w).
Proof.
  intros Hpid F0 F1 F2 F3 res pc junk. subst res.
  destruct (getenv_process o fuel pid env w) as [r w'] eqn:E.
  unfold getenv_process, call in E.
  rewrite bind_unfold, (attach_target_succeeds o pid w Hpid F0 F1 F2) in E.
  cbv beta iota zeta in E.
  rewrite bind_unfold in E. unfold poke_text at 1 in E.
  rewrite bind_unfold in E. cbv beta iota in E.
  change (negb (8 mod 8 =? 0)) with false in E. cbv iota in E.
  change (Z.to_nat (8 / 8)) with 1%nat in E. cbn [poke_words] in E.
  rewrite bind_unfold, bind_unfold in E. unfold ptrace_peektext in E.
  cbn [clock] in E. rewrite F3 in E. cbv beta iota in E.
  rewrite Z.eqb_refl in E. cbn [andb] in E.
  rewrite bind_unfold in E. unfold perror at 1, eprint at 1 in E.
  cbv beta iota in E. unfold ret at 1 in E. cbv beta iota in E.
  unfold ret at 1 in E. cbv beta iota in E.
  change (negb (-1 =? 0)) with true in E.
  unfold with_fail_label in E. rewrite bind_unfold in E.
  unfold when at 1, goto_fail at 1 in E. cbv beta iota in E.
  rewrite fail_path_run in E.
  assert (B : le_word (buf_read (uninit o 0 8) 0 8) = junk) by reflexivity.
  assert (P0 : wrap64 (rip (regs (target w)) + 0) = pc)
    by (now rewrite Z.add_0_r).
  assert (P1 : wrap64 (rip (regs (target w))) = pc) by reflexivity.
  clearbody junk pc.
  cbn [target pending clock trace poke_log out err regs mem] in E.
  rewrite B, P0, P1 in E.
  change (S (3 + clock w)) with (4 + clock w)%nat in E.
  change (S (4 + clock w)) with (5 + clock w)%nat in E.
  injection E as <- <-.
  cbn [fst snd target pending clock trace poke_log out err regs mem].
  repeat split.
Qed.

(** The target after the second of two words refused. *)
Lemma failed_first_read_writes_junk_witness :
  let res := getenv_process (Harness.fail_at 3) 100 Harness.target_pid
               (bytes "FOO") Harness.world0 in
  fst res = Val 1 /\
  mem (target (snd res)) Harness.text_base = 170.
Proof.
  intros res.
  destruct (failed_first_read_writes_junk (Harness.fail_at 3) 100
              Harness.target_pid (bytes "FOO") Harness.world0)
    as [H1 [_ [H3 _]]]; try reflexivity.
  split; [exact H1|]. fold res in H3. rewrite H3. reflexivity.
Defined.

(** One word written with capture, when its two requests succeed. *)
Lemma poke_word_capture_at (o : oracle) (pid where_ : Z)
    (new_text old : list Z) (w : world) :
  fault o (clock w) = false -> fault o (S (clock w)) = false ->
  poke_text o pid where_ new_text (Some old) 8 w
  = (Val (0, Some (buf_write old 0
                     (le_bytes 8 (load8 (mem (target w)) (wrap64 where_))))),
     mk_world (mk_machine (regs (target w))
                 (store8 (mem (target w)) (wrap64 where_)
                         (le_word (buf_read new_text 0 8))))
              (pending w) (S (S (clock w)))
              ((PTRACE_POKETEXT (wrap64 where_)
                  (le_word (buf_read new_text 0 8)), true)
               :: (PTRACE_PEEKTEXT (wrap64 where_), true) :: trace w)
              ((where_, 8) :: poke_log w) (out w) (err w)).
Proof.
  intros F0 F1.
  unfold poke_text. rewrite bind_unfold. cbv beta iota.
  change (negb (8 mod 8 =? 0)) with false. cbv iota.
  change (Z.to_nat (8 / 8)) with 1%nat. cbn [poke_words].
  rewrite bind_unfold, bind_unfold. unfold ptrace_peektext. cbn [clock].
  rewrite F0. cbv beta iota.
  rewrite andb_false_r. unfold ret at 1. cbv beta iota.
  rewrite bind_unfold. unfold ptrace_poketext. unfold issue at 1.
  cbn [clock]. rewrite F1. cbv beta iota.
  change (0 <? 0) with false. cbv iota. unfold ret, issue.
  cbn [target pending clock trace poke_log out err regs mem].
  now rewrite Z.add_0_r.
Qed.

(** X18.  The statements under [fail:] put the old text back and detach,
    but never the old registers.  When the target is attached, the stub
    is planted and the registers for [mmap] are set, and then the first
    [PTRACE_SINGLESTEP] is refused, [getenv_process] returns 1 and
    leaves the target with the registers of the [mmap] call: [rax],
    [rdi], [rsi], [rdx], [r10], [r8] and [r9] are not what the program
    had in them.  The word written back is the one read before. *)
Theorem failure_after_setregs_keeps_new_registers (o : oracle) (fuel : nat)
    (pid : Z) (env : list Z) (w : world) :
  0 < pid ->
  (forall i, (i < 6)%nat -> fault o (i + clock w) = false) ->
  fault o (6 + clock w) = true ->
  let res := getenv_process o fuel pid env w in
  let pc := wrap64 (rip (regs (target w))) in
  fst res = Val 1 /\
  regs (target (snd res)) = mmap_regs (regs (target w)) /\
  rax (regs (target (snd res))) = 9 /\
  trace (snd res)
  = (PTRACE_DETACH, negb (fault o (8 + clock w)))
    :: (PTRACE_POKETEXT pc (load8 (mem (target w)) pc),
        negb (fault o (7 + clock w)))
    :: (PTRACE_SINGLESTEP, false)
    :: (PTRACE_SETREGS (mmap_regs (regs (target w))), true)
    :: (PTRACE_POKETEXT pc (stub_word o), true)
    :: (PTRACE_PEEKTEXT pc, true)
    :: (PTRACE_GETREGS, true) :: (WAITPID, true) :: (PTRACE_ATTACH, true)
    :: trace w.
Proof.
  intros Hpid Hf F6 res pc. subst res.
  assert (F0 := Hf 0%nat ltac:(lia)). assert (F1 := Hf 1%nat ltac:(lia)).
  assert (F2 := Hf 2%nat ltac:(lia)). assert (F3 := Hf 3%nat ltac:(lia)).
  assert (F4 := Hf 4%nat ltac:(lia)). assert (F5 := Hf 5%nat ltac:(lia)).
  destruct (getenv_process o fuel pid env w) as [r w'] eqn:E.
  unfold getenv_process, call in E.
  rewrite bind_unfold, (attach_target_succeeds o pid w Hpid F0 F1 F2) in E.
  cbv beta iota zeta in E.
  rewrite bind_unfold, poke_word_capture_at in E by assumption.
  cbv beta iota in E.
  cbn [target pending clock trace poke_log out err regs mem] in E.
  change (negb (0 =? 0)) with false in E.
  unfold with_fail_label in E. rewrite bind_when_false in E.
  unfold session in E. cbv zeta in E. rewrite bind_unfold in E.
  unfold remote_mmap at 1 in E. rewrite bind_unfold in E.
  unfold ptrace_setregs at 1 in E. cbn [clock] in E.
  change (S (S (3 + clock w))) with (5 + clock w)%nat in E.
  rewrite F5 in E. cbv beta iota in E.
  change (negb (0 =? 0)) with false in E. rewrite bind_when_false in E.
  rewrite bind_unfold in E. unfold singlestep at 1 in E.
  rewrite bind_unfold in E. unfold ptrace_singlestep at 1 in E.
  unfold issue at 1 in E. cbn [clock] in E.
  change (S (5 + clock w)) with (6 + clock w)%nat in E.
  rewrite F6 in E. cbv beta iota in E.
  change (negb (-1 =? 0)) with true in E. cbv iota in E.
  rewrite bind_unfold in E. unfold perror at 1, eprint at 1 in E.
  cbv beta iota in E. unfold ret at 1 in E. cbv beta iota in E.
  change (negb (-1 =? 0)) with true in E.
  rewrite bind_unfold in E. unfold when at 1, goto_fail at 1 in E.
  cbv beta iota in E.
  rewrite fail_path_run in E.
  fold (saved_word o (mem (target w)) (rip (regs (target w)))) in E.
  rewrite saved_word_read in E. fold (stub_word o) in E.
  fold pc in E. clearbody pc.
  unfold refused, issue in E.
  cbn [target pending clock trace poke_log out err regs mem] in E.
  change (S (6 + clock w)) with (7 + clock w)%nat in E.
  change (S (7 + clock w)) with (8 + clock w)%nat in E.
  injection E as <- <-.
  cbn [fst snd target pending clock trace poke_log out err regs mem].
  repeat split.
Qed.

(** The harness when request number 6 is refused. *)
Lemma failure_after_setregs_keeps_new_registers_witness :
  let res := getenv_process (Harness.fail_at 6) 100 Harness.target_pid
               (bytes "FOO") Harness.world0 in
  fst res = Val 1 /\
  regs (target (snd res)) = mmap_regs (regs (target Harness.world0)) /\
  rax (regs (target (snd res))) = 9.
Proof.
  intros res.
  destruct (failure_after_setregs_keeps_new_registers (Harness.fail_at 6)
              100 Harness.target_pid (bytes "FOO") Harness.world0)
    as [H1 [H2 [H3 _]]].
  - reflexivity.
  - intros i Hi.
    do 6 (destruct i as [|i]; [reflexivity|]). lia.
  - reflexivity.
  - repeat split; assumption.
Defined.

(** X19.  A raw [mmap] system call reports failure by returning
    [-errno], a value in the last page of the address space.
    [remote_mmap] recognises only -1 (the [errno] 1) as a failure: any
    other error value is taken for the address of the new page, and the
    target is stepped through the jump to it. *)
Theorem mmap_error_taken_for_address (o : oracle) (pid : Z)
    (newregs : user_regs_struct) (w : world) :
  (forall i, fault o i = false) ->
  rax newregs = 9 ->
  mem (target w) (rip newregs) = 15 ->
  mem (target w) (wrap64 (rip newregs + 1)) = 5 ->
  mem (target w) (wrap64 (rip newregs + 2)) = 255 ->
  mem (target w) (wrap64 (wrap64 (rip newregs + 2) + 1)) = 224 ->
  let res := wrap64 (syscall_ret o (mk_machine newregs (mem (target w)))) in
  is_errno res = true ->
  let ran := remote_mmap o pid newregs w in
  (res <> wrap64 (-1) ->
   (exists r, fst ran = Val (res, r)) /\
   rip (regs (target (snd ran))) = res /\
   mem (target (snd ran)) = mem (target w) /\
   err (snd ran) = err w) /\
  (res = wrap64 (-1) ->
   fst ran = Fail /\ err (snd ran) = err w ++ ["failed to mmap"%string] /\
   rip (regs (target (snd ran))) = wrap64 (rip newregs + 2)).
Proof.
  intros Hnf Hrax H0 H1 H2 H3 res Herr ran. subst ran. split.
  - intros Hres.
    rewrite (remote_mmap_ok o Hnf pid newregs w Hrax H0 H1);
      fold res; rewrite ?Herr; try assumption.
    cbn [fst snd target regs mem err]. repeat split. eexists. reflexivity.
  - intros Hres.
    destruct (remote_mmap o pid newregs w) as [r w'] eqn:E.
    unfold remote_mmap in E.
    rewrite bind_unfold, setregs_ok in E by exact Hnf. cbv beta iota in E.
    change (negb (0 =? 0)) with false in E. rewrite bind_when_false in E.
    assert (S1 := step_mmap o (mk_machine newregs (mem (target w)))
                    H0 H1 Hrax).
    cbv zeta in S1. cbn [regs mem] in S1. fold res in S1.
    rewrite Herr in S1.
    rewrite bind_unfold in E.
    rewrite (singlestep_ok o Hnf pid) in E
      by (cbn [target issue]; rewrite S1; reflexivity).
    cbn [target issue] in E. rewrite S1 in E.
    cbn [fst snd] in E. cbv beta iota in E.
    change (negb (0 =? 0)) with false in E. rewrite bind_when_false in E.
    rewrite bind_unfold, getregs_ok in E by exact Hnf. cbv beta iota in E.
    rewrite bind_ret in E. cbn [target issue regs] in E.
    match type of E with context [rax ?r =? _] =>
      replace (rax r) with res in E by reflexivity
    end.
    rewrite Hres, Z.eqb_refl in E. rewrite bind_unfold in E.
    unfold when at 1 in E. rewrite bind_unfold in E.
    unfold eprint at 1 in E. cbv beta iota in E.
    unfold goto_fail at 1 in E.
    injection E as <- <-. cbn [fst snd target regs mem err].
    repeat split.
Qed.

(** The harness with the stub planted and an [mmap] that fails with
    [ENOMEM]. *)
Lemma mmap_error_taken_for_address_witness :
  let o := Harness.oracle_gen (fun _ => false) (-12) in
  let w := mk_world
             (mk_machine Harness.regs0
                (store8 Harness.memory0 Harness.text_base
                        (le_word [15; 5; 255; 224; 0; 0; 0; 0])))
             None 0 [] [] [] [] in
  let ran := remote_mmap o Harness.target_pid (mmap_regs Harness.regs0) w in
  (exists r, fst ran = Val (wrap64 (-12), r)) /\
  rip (regs (target (snd ran))) = wrap64 (-12).
Proof.
  intros o w ran.
  destruct (mmap_error_taken_for_address o Harness.target_pid
              (mmap_regs Harness.regs0) w) as [H _];
    try (vm_compute; reflexivity).
  destruct H as [H1 [H2 _]].
  - vm_compute. discriminate.
  - split; [exact H1 | exact H2].
Defined.

(** ** Results nobody looks at *)

(** X20.  The result of [PTRACE_CONT] is not looked at.  When the
    request is refused the target stays stopped and has nothing to
    report, and the [wait] that follows never returns. *)
Theorem refused_cont_hangs (o : oracle) (pid mmap_memory offset : Z)
    (newregs : user_regs_struct) (w : world) :
  pending w = None ->
  fault o (clock w) = false -> fault o (1 + clock w) = true ->
  fault o (2 + clock w) = false ->
  let res := remote_call o pid mmap_memory offset newregs w in
  fst res = Diverge /\
  trace (snd res)
  = (PTRACE_CONT, false)
    :: (PTRACE_SETREGS (set_rdi (wrap64 (mmap_memory + offset))
                                (set_rax 0 newregs)), true)
    :: trace w /\
  mem (target (snd res)) = mem (target w).
Proof.
  intros Hp F0 F1 F2 res. subst res.
  destruct (remote_call o pid mmap_memory offset newregs w) as [r w'] eqn:E.
  change (1 + clock w)%nat with (S (clock w)) in F1.
  change (2 + clock w)%nat with (S (S (clock w))) in F2.
  unfold remote_call in E. cbv zeta in E.
  rewrite bind_unfold in E. unfold ptrace_setregs at 1 in E.
  rewrite F0 in E. cbv beta iota in E.
  change (negb (0 =? 0)) with false in E. rewrite bind_when_false in E.
  rewrite bind_unfold in E. unfold ptrace_cont at 1 in E.
  unfold refused, issue in E.
  cbn [clock pending target trace poke_log out err] in E.
  rewrite F1 in E. cbv beta iota in E.
  rewrite bind_unfold in E. unfold do_wait at 1 in E.
  rewrite bind_unfold in E. unfold sys_wait at 1 in E.
  cbn [clock pending target trace poke_log out err] in E.
  rewrite F2, Hp in E. cbv beta iota in E.
  injection E as <- <-.
  cbn [fst snd trace target mem].
  repeat split.
Qed.

(** The harness resumed while nothing is pending. *)
Lemma refused_cont_hangs_witness :
  let res := remote_call (Harness.fail_at 1) Harness.target_pid
               Harness.page 6 Harness.regs0 Harness.world0 in
  fst res = Diverge.
Proof.
  intros res.
  apply (proj1 (refused_cont_hangs (Harness.fail_at 1) Harness.target_pid
                  Harness.page 6 Harness.regs0 Harness.world0
                  eq_refl eq_refl eq_refl eq_refl)).
Defined.

(** X21.  The result of the [poke_text] that is to put the old text back
    before the detach is not looked at.  When its [PTRACE_POKETEXT] is
    refused and the two requests after it succeed, the old registers are
    installed, the target is detached and 0 is returned, with the
    memory of the target as it was before the call: the text at the old
    instruction pointer is not restored. *)
Theorem unrestored_text_goes_unnoticed (o : oracle) (pid rip_ : Z)
    (old_word : list Z) (oldregs : user_regs_struct) (w : world) :
  fault o (clock w) = true ->
  fault o (1 + clock w) = false -> fault o (2 + clock w) = false ->
  let res := restore_and_detach o pid rip_ old_word oldregs w in
  fst res = Ret 0 /\
  mem (target (snd res)) = mem (target w) /\
  regs (target (snd res)) = oldregs /\
  trace (snd res)
  = (PTRACE_DETACH, true) :: (PTRACE_SETREGS oldregs, true)
    :: (PTRACE_POKETEXT (wrap64 rip_) (le_word (buf_read old_word 0 8)),
        false)
    :: trace w.
Proof.
  intros F0 F1 F2 res. subst res.
  destruct (restore_and_detach o pid rip_ old_word oldregs w)
    as [r w'] eqn:E.
  change (1 + clock w)%nat with (S (clock w)) in F1.
  change (2 + clock w)%nat with (S (S (clock w))) in F2.
  unfold restore_and_detach in E.
  rewrite bind_unfold in E. unfold poke_text at 1 in E.
  rewrite bind_unfold in E. cbv beta iota in E.
  change (negb (8 mod 8 =? 0)) with false in E. cbv iota in E.
  change (Z.to_nat (8 / 8)) with 1%nat in E. cbn [poke_words] in E.
  rewrite bind_unfold in E. unfold ret at 1 in E. cbv beta iota in E.
  rewrite bind_unfold in E. unfold ptrace_poketext at 1 in E.
  cbn [clock] in E. rewrite F0 in E. cbv beta iota in E.
  change (-1 <? 0) with true in E. cbv iota in E.
  rewrite bind_unfold in E. unfold perror at 1, eprint at 1 in E.
  cbv beta iota in E. unfold ret at 1 in E. cbv beta iota in E.
  rewrite bind_unfold in E. unfold ptrace_setregs at 1 in E.
  unfold refused, issue in E.
  cbn [clock pending target trace poke_log out err] in E.
  rewrite F1 in E. cbv beta iota in E.
  change (negb (0 =? 0)) with false in E. rewrite bind_when_false in E.
  rewrite bind_unfold in E. unfold ptrace_detach at 1 in E.
  unfold refused, issue in E.
  cbn [clock pending target trace poke_log out err] in E.
  rewrite F2 in E. cbv beta iota in E.
  change (negb (0 =? 0)) with false in E. rewrite bind_when_false in E.
  unfold return_ in E. injection E as <- <-.
  cbn [fst snd trace target mem regs pending clock poke_log out err].
  rewrite Z.add_0_r. repeat split.
Qed.

(** The harness when the write is refused. *)
Lemma unrestored_text_goes_unnoticed_witness :
  let res := restore_and_detach (Harness.fail_at 0) Harness.target_pid
               Harness.text_base [235; 254; 144; 144; 144; 144; 144; 144]
               Harness.regs0 Harness.world0 in
  fst res = Ret 0 /\
  mem (target (snd res)) = mem (target Harness.world0).
Proof.
  intros res.
  destruct (unrestored_text_goes_unnoticed (Harness.fail_at 0)
              Harness.target_pid Harness.text_base
              [235; 254; 144; 144; 144; 144; 144; 144]
              Harness.regs0 Harness.world0)
    as [H1 [H2 _]]; [reflexivity | reflexivity | reflexivity |].
  split; [exact H1 | exact H2].
Defined.

(** X22.  What [find_library] returns is not looked at.  When the maps
    file of the target has no line for libc, as for a statically linked
    program, [find_library] returns null and the address of the remote
    [getenv] is computed from it all the same.  With the scratch page
    where the kernel puts mappings, between 4 GiB and the end of user
    space, that address is out of reach of a [call]: [write_trampoline]
    ends in [exit(1)] without having written anything, and so without
    detaching. *)
Theorem missing_libc_ends_in_exit (o : oracle) (fuel : nat)
    (pid rip_ : Z) (new_word : list Z) (mmap_memory : Z) (env : list Z)
    (w : world) (our_libc : Z) :
  library_base o pid = Some 0 ->
  library_base o (self_pid o) = Some our_libc ->
  (7 <= fuel)%nat -> strlen env + 6 <= PAGE_SIZE ->
  0 <= getenv_local o - our_libc < 2 ^ 31 ->
  2 ^ 32 <= mmap_memory < 2 ^ 47 ->
  let res := write_trampoline o fuel pid rip_ new_word mmap_memory env w in
  fst res = Exit 1 /\
  trace (snd res) = trace w /\ target (snd res) = target w /\
  err (snd res)
  = err w ++ ["cannot do relative jump; did you compile with -fPIC?"%string].
Proof.
  intros Ht Ho Hfuel Hname Hoff Hpage res. subst res.
  destruct (write_trampoline o fuel pid rip_ new_word mmap_memory env w)
    as [r w'] eqn:E.
  unfold library_base in Ht, Ho.
  destruct (maps o pid) as [lt|] eqn:Hm1; [|discriminate].
  destruct (maps o (self_pid o)) as [lc|] eqn:Hm2; [|discriminate].
  unfold write_trampoline in E.
  rewrite bind_unfold, (find_library_ok o _ _ _ _ _ Hm1 Ht) in E.
  cbv beta iota in E.
  rewrite bind_unfold, (find_library_ok o _ _ _ _ _ Hm2 Ho) in E.
  cbv beta iota in E.
  assert (Hmem : wrap64 (strlen env + 6) <= PAGE_SIZE).
  { unfold strlen in *. unfold PAGE_SIZE in *. rewrite wrap64_small; lia. }
  destruct (grow_block_page fuel _ w Hfuel Hmem) as (B & EB & _).
  rewrite bind_unfold, EB in E. cbv beta iota in E.
  rewrite bind_unfold in E. unfold compute_jmp in E.
  rewrite Z.add_0_l in E.
  assert (D : signed64 (signed64 (wrap64 (getenv_local o - our_libc))
                        - signed64 mmap_memory - REL32_SZ) < INT_MIN).
  { unfold signed64, REL32_SZ, INT_MIN.
    change (2 ^ 47) with 140737488355328 in Hpage.
    change (2 ^ 32) with 4294967296 in Hpage.
    change (2 ^ 31) with 2147483648 in *.
    change (2 ^ 63) with 9223372036854775808.
    rewrite (wrap64_small (getenv_local o - our_libc))
      by (change (2 ^ 64) with 18446744073709551616; lia).
    rewrite (wrap64_small (getenv_local o - our_libc))
      by (change (2 ^ 64) with 18446744073709551616; lia).
    rewrite (wrap64_small mmap_memory)
      by (change (2 ^ 64) with 18446744073709551616; lia).
    destruct (Z.ltb_spec (getenv_local o - our_libc) 9223372036854775808);
      [|lia].
    destruct (Z.ltb_spec mmap_memory 9223372036854775808); [|lia].
    replace (wrap64 (getenv_local o - our_libc - mmap_memory - 5))
      with (getenv_local o - our_libc - mmap_memory - 5
            + 18446744073709551616) by wrap_lia.
    destruct (Z.ltb_spec (getenv_local o - our_libc - mmap_memory - 5
                          + 18446744073709551616) 9223372036854775808);
      lia. }
  apply Z.ltb_lt in D. rewrite D in E. cbn [orb] in E.
  rewrite bind_unfold in E. unfold eprint at 1 in E. cbv beta iota in E.
  unfold exit_ in E. injection E as <- <-.
  cbn [fst snd trace target err]. repeat split.
Qed.

(** The harness with a target that maps nothing but its own text. *)
Lemma missing_libc_ends_in_exit_witness :
  let o := Harness.oracle_maps
             [bytes "00400000-00452000 r-xp 00000000 08:01 131 /usr/bin/harness
"] in
  let res := write_trampoline o 100 Harness.target_pid Harness.text_base
               (syscall_word o) Harness.page (bytes "FOO") Harness.world0 in
  fst res = Exit 1 /\ trace (snd res) = trace Harness.world0.
Proof.
  intros o res.
  destruct (missing_libc_ends_in_exit o 100 Harness.target_pid
              Harness.text_base (syscall_word o) Harness.page (bytes "FOO")
              Harness.world0 Harness.our_libc_base)
    as [H1 [H2 _]].
  - vm_compute. reflexivity.
  - vm_compute. reflexivity.
  - lia.
  - vm_compute. discriminate.
  - vm_compute. split; [discriminate | reflexivity].
  - vm_compute. split; [discriminate | reflexivity].
  - split; [exact H1 | exact H2].
Defined.

(** ** A name longer than the page *)

Lemma poked_trace_in (where_ : Z) (new_text : list Z) (n : nat) :
  forall (copied : Z) (i : nat),
  (i < n)%nat ->
  In (PTRACE_POKETEXT (wrap64 (where_ + (copied + 8 * Z.of_nat i)))
        (le_word (buf_read new_text (copied + 8 * Z.of_nat i) 8)), true)
     (poked_trace where_ new_text n copied).
Proof.
  induction n as [|n IH]; intros copied i Hi; [lia|].
  cbn [poked_trace]. apply in_or_app. destruct i as [|i].
  - right. left. now rewrite Z.add_0_r.
  - left. replace (copied + 8 * Z.of_nat (S i))
      with (copied + 8 + 8 * Z.of_nat i) by lia.
    apply IH. lia.
Qed.

(** The doubling loop does not look at the world. *)
Lemma grow_block_any_world (fuel : nat) :
  forall (b m : Z) (w w' : world),
  grow_block fuel b m w' = (fst (grow_block fuel b m w), w').
Proof.
  induction fuel as [|fuel IH]; intros b m w w'; cbn [grow_block];
    destruct (b <? m); try reflexivity.
  apply IH.
Qed.

(** X23.  One page is mapped in the target, but the block written to it
    is as large as the name needs.  When the name and the six bytes
    before it do not fit a page and nothing fails, [write_trampoline]
    goes through and returns the offset 6, and among the words it has
    written is the one at the first address after the page. *)
Theorem long_name_overruns_page (o : oracle) (fuel : nat) (pid rip_ : Z)
    (new_word : list Z) (mmap_memory : Z) (env : list Z) (w : world)
    (their_libc our_libc : Z) :
  (forall i, fault o i = false) ->
  library_base o pid = Some their_libc ->
  library_base o (self_pid o) = Some our_libc ->
  (58 <= fuel)%nat -> PAGE_SIZE < strlen env + 6 <= 2 ^ 63 ->
  INT_MIN <= signed64 (signed64 (wrap64 (their_libc
                                         + (getenv_local o - our_libc)))
                       - signed64 mmap_memory - REL32_SZ) <= INT_MAX ->
  let res := write_trampoline o fuel pid rip_ new_word mmap_memory env w in
  fst res = Val 6 /\
  exists data,
    In (PTRACE_POKETEXT (wrap64 (mmap_memory + PAGE_SIZE)) data, true)
       (trace (snd res)).
Proof.
  intros Hnf Ht Ho Hfuel Hname Hd res. subst res.
  unfold library_base in Ht, Ho.
  destruct (maps o pid) as [lt|] eqn:Hm1; [|discriminate].
  destruct (maps o (self_pid o)) as [lc|] eqn:Hm2; [|discriminate].
  assert (Hmem : wrap64 (strlen env + 6) = strlen env + 6).
  { apply wrap64_small. unfold PAGE_SIZE in *.
    change (2 ^ 63) with 9223372036854775808 in *.
    change (2 ^ 64) with 18446744073709551616. lia. }
  assert (Hm : 0 <= strlen env + 6 <= 2 ^ 63)
    by (unfold PAGE_SIZE in *; lia).
  destruct (grow_block_from (strlen env + 6) w fuel 0 Hm
              ltac:(lia) ltac:(lia) ltac:(now left))
    as [k [Hk [E [Hge _]]]].
  change (32 * 2 ^ Z.of_nat 0) with 32 in E. rewrite <- Hmem in E.
  assert (Hk8 : (8 <= k)%nat).
  { destruct (Nat.le_gt_cases 8 k) as [H|H]; [exact H|].
    assert (2 ^ Z.of_nat k <= 2 ^ 7) by (apply Z.pow_le_mono_r; lia).
    change (2 ^ 7) with 128 in *. unfold PAGE_SIZE in *. lia. }
  assert (Hpow : 2 ^ 8 <= 2 ^ Z.of_nat k) by (apply Z.pow_le_mono_r; lia).
  change (2 ^ 8) with 256 in Hpow.
  set (B := 32 * 2 ^ Z.of_nat k) in *.
  assert (EB : B = 4 * 2 ^ Z.of_nat k * 8) by (unfold B; lia).
  assert (B8 : B mod 8 = 0) by (rewrite EB; apply Z.mod_mul; lia).
  assert (Bd : B / 8 = 4 * 2 ^ Z.of_nat k)
    by (rewrite EB; apply Z.div_mul; lia).
  assert (Gk : forall w', grow_block fuel 32 (wrap64 (strlen env + 6)) w'
                          = (Val B, w')).
  { intros w'. rewrite (grow_block_any_world fuel _ _ w w'), E.
    reflexivity. }
  rewrite (write_trampoline_ok o Hnf pid fuel rip_ new_word mmap_memory env
             lt lc their_libc our_libc B w Hm1 Ht Hm2 Ho Gk B8 Hd).
  cbn [fst snd trace]. split; [reflexivity|].
  eexists. right. apply in_or_app. left.
  replace (mmap_memory + PAGE_SIZE)
    with (mmap_memory + (0 + 8 * Z.of_nat 512)) by (unfold PAGE_SIZE; lia).
  apply poked_trace_in. rewrite Bd. lia.
Qed.

(** The harness asked for a name of 5000 bytes. *)
Lemma long_name_overruns_page_witness :
  let res := write_trampoline Harness.oracle0 100 Harness.target_pid
               Harness.text_base (syscall_word Harness.oracle0) Harness.page
               (repeat 65 5000) Harness.world0 in
  fst res = Val 6 /\
  exists data,
    In (PTRACE_POKETEXT (wrap64 (Harness.page + PAGE_SIZE)) data, true)
       (trace (snd res)).
Proof.
  apply (long_name_overruns_page Harness.oracle0 100 Harness.target_pid
           Harness.text_base (syscall_word Harness.oracle0) Harness.page
           (repeat 65 5000) Harness.world0
           Harness.their_libc_base Harness.our_libc_base).
  - reflexivity.
  - vm_compute. reflexivity.
  - vm_compute. reflexivity.
  - lia.
  - vm_compute. split; [reflexivity | discriminate].
  - vm_compute. split; discriminate.
Defined.

(** ** A variable the target has set, from the name to the output *)

(** The block in closed form. *)
Lemma trampoline_block (blocksize getenv_delta : Z) (env : list Z) :
  strlen env + 6 <= blocksize ->
  fst (trampoline blocksize getenv_delta env)
  = (232 :: le_bytes 4 getenv_delta ++ [204]) ++ until_nul env ++
    repeat 0 (Z.to_nat (blocksize - 6 - strlen env)).
Proof.
  intros H. unfold strlen in *.
  set (name := until_nul env) in *.
  set (n := Z.to_nat blocksize).
  assert (Hn : (6 + List.length name <= n)%nat) by lia.
  unfold trampoline, buf_set. fold n. fold name. cbv zeta. cbn [fst].
  change (repeat 0 n) with ([] ++ repeat 0 n).
  change 0 with (Z.of_nat (List.length (@nil Z))) at 1.
  rewrite buf_write_append by side.
  change (Z.of_nat (List.length (@nil Z)) + 1)
    with (Z.of_nat (List.length ([] ++ [232]))).
  rewrite buf_write_append by side.
  replace (Z.of_nat (List.length ([] ++ [232])) + 4)
    with (Z.of_nat (List.length (([] ++ [232]) ++ le_bytes 4 getenv_delta)))
    by (rewrite length_app, le_bytes_length; cbn [List.length app]; lia).
  rewrite buf_write_append by side.
  replace (Z.of_nat (List.length
             (([] ++ [232]) ++ le_bytes 4 getenv_delta)) + 1)
    with (Z.of_nat (List.length
             ((([] ++ [232]) ++ le_bytes 4 getenv_delta) ++ [204])))
    by (rewrite !length_app, le_bytes_length; cbn [List.length app]; lia).
  rewrite buf_write_append by side.
  rewrite le_bytes_length. cbn [List.length app].
  rewrite <- !app_assoc. cbn [app].
  do 4 f_equal. f_equal. unfold n. lia.
Qed.

Lemma until_nul_nonzero (s : list Z) : Forall (fun b => b <> 0) (until_nul s).
Proof.
  induction s as [|c s IH]; cbn [until_nul]; [constructor|].
  destruct (Z.eqb_spec c 0); constructor; assumption.
Qed.

Lemma until_nul_bytes (s : list Z) : all_bytes s -> all_bytes (until_nul s).
Proof.
  induction 1 as [|c s Hc _ IH]; cbn [until_nul]; [constructor|].
  destruct (c =? 0); constructor; assumption.
Qed.

(** The registers the target is resumed with. *)
Lemma call_machine_rip (o : oracle) (fuel : nat) (pid : Z) (env : list Z)
    (w : world) :
  rip (regs (call_machine o fuel pid env w)) = scratch_page o w.
Proof. reflexivity. Qed.

Lemma call_machine_rdi (o : oracle) (fuel : nat) (pid : Z) (env : list Z)
    (w : world) :
  rdi (regs (call_machine o fuel pid env w)) = wrap64 (scratch_page o w + 6).
Proof. reflexivity. Qed.

Lemma call_machine_rsp (o : oracle) (fuel : nat) (pid : Z) (env : list Z)
    (w : world) :
  rsp (regs (call_machine o fuel pid env w)) = rsp (regs (target w)).
Proof. reflexivity. Qed.

Lemma call_machine_mem (o : oracle) (fuel : nat) (pid : Z) (env : list Z)
    (w : world) :
  mem (call_machine o fuel pid env w) = trampoline_mem o fuel pid env w.
Proof. reflexivity. Qed.

Section Call.

Variable o : oracle.
Variable fuel : nat.
Variable pid : Z.
Variable env : list Z.
Variable w : world.

Hypothesis Hfuel : (7 <= fuel)%nat.
Hypothesis Hname : strlen env + 6 < PAGE_SIZE.
Hypothesis Henv : all_bytes env.
Hypothesis Hrip : 0 <= rip (regs (target w)) /\
                  rip (regs (target w)) + 16 <= 2 ^ 64.
Hypothesis Hpage : is_errno (scratch_page o w) = false.
Hypothesis Hapart : rip (regs (target w)) + 16 <= scratch_page o w \/
                    scratch_page o w + PAGE_SIZE <= rip (regs (target w)).

Lemma call_page_bounds :
  0 <= scratch_page o w /\ scratch_page o w + PAGE_SIZE <= 2 ^ 64.
Proof.
  assert (H := Hpage). unfold is_errno in H. apply Z.leb_gt in H.
  assert (H' := wrap64_range (syscall_ret o
                  (mk_machine (mmap_regs (regs (target w))) (patched_mem o w)))).
  fold (scratch_page o w) in H'. unfold PAGE_SIZE. lia.
Qed.

Lemma call_block :
  let B := block_size fuel env w in
  B mod 8 = 0 /\ 32 <= B <= PAGE_SIZE /\ strlen env + 6 <= B /\
  8 * Z.of_nat (Z.to_nat (B / 8)) = B.
Proof.
  intros B.
  destruct (block_size_page fuel env w w Hfuel ltac:(lia)) as (E & B8 & B1).
  fold B in E, B8, B1.
  assert (Hs : 0 <= strlen env) by (unfold strlen; lia).
  assert (Hge : strlen env + 6 <= B).
  { assert (Hw : wrap64 (strlen env + 6) <= PAGE_SIZE)
      by (rewrite wrap64_small; unfold PAGE_SIZE in *; lia).
    destruct (grow_block_page fuel _ w Hfuel Hw) as (B' & E' & _ & _ & G).
    rewrite E in E'. injection E' as <-.
    rewrite wrap64_small in G; unfold PAGE_SIZE in *; lia. }
  repeat split; try lia; try assumption.
  rewrite Z2Nat.id by (apply Z.div_pos; lia).
  rewrite (Z.div_mod B 8) at 2 by lia. lia.
Qed.

(** The bytes of the block. *)
Lemma block_all_bytes (delta : Z) :
  all_bytes (fst (trampoline (block_size fuel env w) delta env)).
Proof.
  destruct call_block as (_ & _ & Hge & _).
  rewrite trampoline_block by exact Hge.
  apply Forall_app. split.
  - constructor; [lia|]. apply Forall_app. split.
    + apply le_bytes_all_bytes.
    + constructor; [lia | constructor].
  - apply Forall_app. split; [now apply until_nul_bytes|].
    apply Forall_forall. intros b Hb. apply repeat_spec in Hb. lia.
Qed.

Lemma block_length (delta : Z) :
  Z.of_nat (List.length (fst (trampoline (block_size fuel env w) delta env)))
  = block_size fuel env w.
Proof.
  destruct call_block as (_ & _ & Hge & _).
  rewrite trampoline_block by exact Hge.
  rewrite !length_app, repeat_length. cbn [List.length].
  rewrite length_app, le_bytes_length. cbn [List.length].
  unfold strlen in *. lia.
Qed.

(** What the page holds when the target is resumed. *)
Lemma trampoline_mem_page (j : Z) :
  0 <= j < PAGE_SIZE ->
  trampoline_mem o fuel pid env w (scratch_page o w + j)
  = nth (Z.to_nat j)
        (fst (trampoline (block_size fuel env w) (call_delta o pid w) env)) 0.
Proof.
  intros Hj. destruct call_page_bounds as [P1 P2]. destruct Hrip as [R1 R2].
  destruct call_block as (B8 & B1 & Hge & Hn).
  unfold trampoline_mem. cbv zeta.
  rewrite store8_outside
    by (destruct Hapart; unfold PAGE_SIZE in *; wrap_lia).
  destruct (Z.lt_ge_cases j (block_size fuel env w)) as [Hin | Hout].
  - rewrite poked_mem_within.
    + f_equal. f_equal.
      replace (scratch_page o w + j - scratch_page o w - 0) with j by lia.
      rewrite wrap64_small; unfold PAGE_SIZE in *; lia.
    + lia.
    + rewrite Hn. unfold PAGE_SIZE in *. lia.
    + intros i Hi. rewrite Hn in Hi.
      apply (proj1 (Forall_forall _ _)
               (block_all_bytes (call_delta o pid w))).
      apply nth_In. assert (L := block_length (call_delta o pid w)). lia.
    + rewrite Hn.
      replace (scratch_page o w + j - scratch_page o w - 0) with j by lia.
      rewrite wrap64_small; unfold PAGE_SIZE in *; lia.
  - rewrite poked_mem_beyond.
    + unfold mapped_mem, in_range.
      replace (scratch_page o w + j - scratch_page o w) with j by lia.
      rewrite wrap64_small by (unfold PAGE_SIZE in *; lia).
      destruct (Z.ltb_spec j PAGE_SIZE); [|lia].
      symmetry. apply nth_overflow.
      assert (L := block_length (call_delta o pid w)). lia.
    + rewrite Hn. unfold PAGE_SIZE in *. lia.
    + rewrite Hn.
      replace (scratch_page o w + j - scratch_page o w - 0) with j by lia.
      rewrite wrap64_small; unfold PAGE_SIZE in *; lia.
Qed.

(** What the session has not written when the target is resumed. *)
Lemma trampoline_mem_untouched (a : Z) :
  PAGE_SIZE <= wrap64 (a - scratch_page o w) ->
  8 <= wrap64 (a - rip (regs (target w))) ->
  trampoline_mem o fuel pid env w a = mem (target w) a.
Proof.
  intros Hp Hs. destruct Hrip as [R1 R2].
  destruct call_block as (B8 & B1 & Hge & Hn).
  assert (Ew : wrap64 (rip (regs (target w))) = rip (regs (target w)))
    by (apply wrap64_small; lia).
  unfold trampoline_mem. cbv zeta.
  rewrite store8_outside by (rewrite Ew; exact Hs).
  rewrite poked_mem_beyond.
  - unfold mapped_mem, in_range.
    destruct (Z.ltb_spec (wrap64 (a - scratch_page o w)) PAGE_SIZE); [lia|].
    unfold patched_mem. apply store8_outside. rewrite Ew. exact Hs.
  - rewrite Hn. unfold PAGE_SIZE in *. lia.
  - rewrite Hn, Z.sub_0_r. lia.
Qed.

Variable their_libc our_libc p red : Z.

Hypothesis Htheirs : library_base o pid = Some their_libc.
Hypothesis Hours : library_base o (self_pid o) = Some our_libc.
Hypothesis Hreach : INT_MIN <= call_delta o pid w <= INT_MAX.
Hypothesis Hans :
  answers_getenv o (wrap64 (their_libc + (getenv_local o - our_libc)))
                 (until_nul env) p red.

(** A [call] with the displacement [compute_jmp] returns goes where it
    should. *)
Lemma rel32_lands (from to : Z) :
  0 <= from < 2 ^ 64 -> 0 <= to < 2 ^ 64 ->
  let d := signed64 (signed64 to - signed64 from - REL32_SZ) in
  INT_MIN <= d <= INT_MAX ->
  let rel := d mod 256 ^ Z.of_nat 4 in
  wrap64 (from + 5 + (if rel <? 2 ^ 31 then rel else rel - 2 ^ 32)) = to.
Proof.
  intros Hf Ht d Hd rel.
  assert (Es : (if rel <? 2 ^ 31 then rel else rel - 2 ^ 32) = d).
  { subst rel. change (256 ^ Z.of_nat 4) with 4294967296.
    unfold INT_MIN, INT_MAX in Hd.
    change (2 ^ 31) with 2147483648 in *. change (2 ^ 32) with 4294967296.
    destruct (Z.ltb_spec (d mod 4294967296) 2147483648);
      Z.div_mod_to_equations; lia. }
  rewrite Es. clear Es rel Hd. subst d.
  unfold signed64, REL32_SZ.
  rewrite (wrap64_small to), (wrap64_small from) by lia.
  repeat match goal with
         | |- context [if ?c then _ else _] => destruct c
         end; wrap_lia.
Qed.

(** The target is resumed on a call of its [getenv] with the name. *)
Lemma call_is_answered :
  let cm := call_machine o fuel pid env w in
  snd (run o cm) = WStopped SIGTRAP /\
  rip (regs (fst (run o cm))) = scratch_page o w + 6 /\
  rax (regs (fst (run o cm))) = p /\
  forall a, ~ below_stack (rsp (regs (target w))) red a ->
            mem (fst (run o cm)) a = trampoline_mem o fuel pid env w a.
Proof.
  intros cm. subst cm. destruct call_page_bounds as [P1 P2].
  destruct call_block as (B8 & B1 & Hge & Hn).
  assert (Hs : 0 <= strlen env) by (unfold strlen; lia).
  assert (Eblk := trampoline_block (block_size fuel env w)
                    (call_delta o pid w) env Hge).
  assert (E6 : wrap64 (scratch_page o w + 6) = scratch_page o w + 6)
    by (apply wrap64_small; unfold PAGE_SIZE in *; lia).
  assert (Hdisp : forall k, (k < 4)%nat ->
            trampoline_mem o fuel pid env w
              (scratch_page o w + 1 + Z.of_nat k)
            = nth k (le_bytes 4 (call_delta o pid w)) 0).
  { intros k Hk. rewrite <- Z.add_assoc.
    rewrite trampoline_mem_page by (unfold PAGE_SIZE; lia).
    rewrite Eblk.
    replace (Z.to_nat (1 + Z.of_nat k)) with (S k) by lia.
    rewrite app_nth1
      by (cbn [List.length]; rewrite length_app, le_bytes_length;
          cbn [List.length]; lia).
    cbn [nth]. apply app_nth1. rewrite le_bytes_length. exact Hk. }
  assert (Hname' : forall k, (k < List.length (until_nul env))%nat ->
            trampoline_mem o fuel pid env w
              (scratch_page o w + (6 + Z.of_nat k))
            = nth k (until_nul env) 0).
  { intros k Hk.
    rewrite trampoline_mem_page by (unfold strlen, PAGE_SIZE in *; lia).
    rewrite Eblk.
    replace (Z.to_nat (6 + Z.of_nat k)) with (6 + k)%nat by lia.
    rewrite app_nth2
      by (cbn [List.length]; rewrite length_app, le_bytes_length;
          cbn [List.length]; lia).
    cbn [List.length]. rewrite length_app, le_bytes_length.
    cbn [List.length].
    replace (6 + k - S (4 + 1))%nat with k by lia.
    now apply app_nth1. }
  assert (Hend : trampoline_mem o fuel pid env w
                   (scratch_page o w
                    + (6 + Z.of_nat (List.length (until_nul env)))) = 0).
  { rewrite trampoline_mem_page by (unfold strlen, PAGE_SIZE in *; lia).
    rewrite Eblk.
    replace (Z.to_nat (6 + Z.of_nat (List.length (until_nul env))))
      with (6 + List.length (until_nul env))%nat by lia.
    rewrite app_nth2
      by (cbn [List.length]; rewrite length_app, le_bytes_length;
          cbn [List.length]; lia).
    cbn [List.length]. rewrite length_app, le_bytes_length.
    cbn [List.length].
    replace (6 + List.length (until_nul env) - S (4 + 1))%nat
      with (List.length (until_nul env)) by lia.
    rewrite app_nth2 by lia. rewrite Nat.sub_diag.
    destruct (Z.to_nat (block_size fuel env w - 6 - strlen env));
      reflexivity. }
  destruct (Hans (call_machine o fuel pid env w)) as (A & B & C & D).
  - rewrite call_machine_rip. exact P1.
  - rewrite call_machine_rip. unfold PAGE_SIZE in *. lia.
  - rewrite call_machine_rip, call_machine_mem.
    rewrite <- (Z.add_0_r (scratch_page o w)).
    rewrite trampoline_mem_page by (unfold PAGE_SIZE; lia).
    rewrite Eblk. reflexivity.
  - unfold call_target. rewrite call_machine_rip, call_machine_mem.
    assert (Hl : map (fun k => trampoline_mem o fuel pid env w
                                 (scratch_page o w + 1 + Z.of_nat k))
                     (seq 0 4)
                 = le_bytes 4 (call_delta o pid w)).
    { cbn [seq map].
      rewrite (Hdisp 0%nat), (Hdisp 1%nat), (Hdisp 2%nat), (Hdisp 3%nat)
        by lia.
      reflexivity. }
    rewrite Hl, le_word_le_bytes.
    assert (Hd := Hreach). unfold call_delta in Hd |- *.
    rewrite Htheirs, Hours in Hd |- *.
    apply rel32_lands; [unfold PAGE_SIZE in *; lia | apply wrap64_range
                       | exact Hd].
  - rewrite call_machine_rip, call_machine_mem.
    rewrite trampoline_mem_page by (unfold PAGE_SIZE; lia).
    rewrite Eblk. reflexivity.
  - rewrite call_machine_rdi, E6. lia.
  - rewrite call_machine_rdi, E6. unfold strlen, PAGE_SIZE in *. lia.
  - rewrite call_machine_rdi, call_machine_mem, E6.
    split; [|split].
    + intros k Hk.
      rewrite wrap64_small by (unfold strlen, PAGE_SIZE in *; lia).
      rewrite <- Z.add_assoc. now apply Hname'.
    + assert (H1 := until_nul_nonzero env).
      assert (H2 := until_nul_bytes env Henv).
      apply Forall_forall. intros b Hb.
      apply (proj1 (Forall_forall _ _) H1) in Hb as Hb1.
      apply (proj1 (Forall_forall _ _) H2) in Hb. lia.
    + rewrite wrap64_small by (unfold strlen, PAGE_SIZE in *; lia).
      rewrite <- Z.add_assoc. now rewrite Hend.
  - rewrite call_machine_rdi, call_machine_mem, E6.
    rewrite <- Z.add_assoc. exact Hend.
  - split; [exact A|]. split; [rewrite B; now rewrite call_machine_rip|].
    split; [exact C|].
    intros a Ha. rewrite D by (rewrite call_machine_rsp; exact Ha).
    now rewrite call_machine_mem.
Qed.

End Call.

(** X25.  From the name to the output.  Let no request fail; let the
    name be shorter than 4090 bytes, so that it fits the scratch page
    with the six bytes before it and a zero after it; let the page lie
    away from the sixteen bytes at the instruction pointer of the target
    and [getenv] lie within reach of a [call] from the page; and let the
    target, resumed on a call of its [getenv] with that name, stop on
    the breakpoint with [p] in [rax], having written only below its
    stack pointer.  If [p] is not null and the memory of the target
    holds at [p], away from everything the session writes, the bytes of
    [v], none of them zero, and a zero after them, then
    [getenv_process] returns 0 and adds to standard output exactly [v]
    and one newline, and [main] exits with status 0. *)
Theorem set_variable_is_printed (o : oracle) (fuel : nat) (pid : Z)
    (env : list Z) (w : world) (their_libc our_libc p red : Z)
    (v : list Z) :
  (forall i, fault o i = false) ->
  0 < pid -> (7 <= fuel)%nat ->
  strlen env + 6 < PAGE_SIZE -> all_bytes env ->
  0 <= rip (regs (target w)) /\ rip (regs (target w)) + 16 <= 2 ^ 64 ->
  is_errno (scratch_page o w) = false ->
  rip (regs (target w)) + 16 <= scratch_page o w \/
  scratch_page o w + PAGE_SIZE <= rip (regs (target w)) ->
  library_base o pid = Some their_libc ->
  library_base o (self_pid o) = Some our_libc ->
  INT_MIN <= call_delta o pid w <= INT_MAX ->
  answers_getenv o (wrap64 (their_libc + (getenv_local o - our_libc)))
                 (until_nul env) p red ->
  (forall k, 0 <= k < 16 ->
     ~ below_stack (rsp (regs (target w))) red
                   (rip (regs (target w)) + k)) ->
  p <> 0 ->
  string_in (mem (target w)) p v ->
  (forall k, (k <= List.length v)%nat ->
     untouched o w red (wrap64 (p + Z.of_nat k))) ->
  Z.of_nat (List.length v) + 4 < 2 ^ 64 ->
  (List.length v / 4 < fuel)%nat ->
  let res := getenv_process o fuel pid env w in
  fst res = Val 0 /\
  out (snd res) = out w ++ v ++ [10] /\
  (forall opts q,
     fst (parse_options opts (-1) None 0 w) = Val (q, Some env) ->
     q <> -1 -> to_pid_t q = pid ->
     exit_status (fst (main o fuel opts w)) = Some 0 /\
     out (snd (main o fuel opts w)) = out w ++ v ++ [10]).
Proof.
  intros Hnf Hpid Hfuel Hname Henv Hrip Hpage Hapart Ht Ho Hreach Hans
         Htext Hp Hv Hun Hlen Hscan res.
  destruct (call_is_answered o fuel pid env w Hfuel Hname Henv Hrip Hpage
              Hapart their_libc our_libc p red Ht Ho Hreach Hans)
    as (A & B & C & D).
  assert (Hwb : well_behaved o fuel pid env w).
  { constructor; try assumption.
    - unfold PAGE_SIZE in *. lia.
    - rewrite Ht. discriminate.
    - rewrite Ho. discriminate.
    - apply mem_bytes_ext. intros k Hk. unfold stopped.
      destruct Hrip as [R1 R2].
      rewrite wrap64_small by lia.
      apply D. apply Htext. lia. }
  assert (Hs : string_in (mem (stopped o fuel pid env w))
                         (rax (regs (stopped o fuel pid env w))) v).
  { unfold stopped. rewrite C.
    assert (Hm : forall k, (k <= List.length v)%nat ->
              mem (fst (run o (call_machine o fuel pid env w)))
                  (wrap64 (p + Z.of_nat k))
              = mem (target w) (wrap64 (p + Z.of_nat k))).
    { intros k Hk. destruct (Hun k Hk) as (U1 & U2 & U3).
      rewrite D by exact U3.
      now apply (trampoline_mem_untouched o fuel pid env w Hfuel Hname
                   Hrip). }
    destruct Hv as (V1 & V2 & V3). split; [|split].
    - intros k Hk. rewrite Hm by lia. now apply V1.
    - exact V2.
    - rewrite Hm by lia. exact V3. }
  destruct (returned_string_is_printed o fuel pid env w v Hnf Hwb)
    as (R1 & R2 & _ & _ & R5); try assumption.
  - unfold stopped. rewrite C. exact Hp.
  - split; [exact R1|]. split; [exact R2 | exact R5].
Qed.

(** The string a string-reading loop finds where [string_in] holds. *)
Lemma string_at_string_in (v : list Z) :
  forall (n : nat) (m : Z -> Z) (a : Z),
  0 <= a -> a + Z.of_nat (List.length v) < 2 ^ 64 ->
  (List.length v < n)%nat ->
  string_in m a v -> m (a + Z.of_nat (List.length v)) = 0 ->
  Harness.string_at n m a = v.
Proof.
  induction v as [|b v IH]; intros n m a Ha Hb Hn (V1 & V2 & V3) Hz.
  - destruct n; [lia|]. cbn [Harness.string_at].
    cbn [List.length] in Hz. rewrite Z.add_0_r in Hz.
    now rewrite Hz.
  - destruct n; [cbn [List.length] in Hn; lia|]. cbn [Harness.string_at].
    cbn [List.length] in *.
    assert (E0 := V1 0%nat ltac:(lia)). cbn [nth] in E0.
    rewrite Z.add_0_r, wrap64_small in E0 by lia.
    assert (Hb0 := Forall_inv V2). cbv beta in Hb0.
    rewrite E0. destruct (Z.eqb_spec b 0); [lia|].
    f_equal. apply IH.
    + lia.
    + lia.
    + lia.
    + split; [|split].
      * intros k Hk. specialize (V1 (S k) ltac:(lia)). cbn [nth] in V1.
        rewrite <- V1. f_equal. f_equal. lia.
      * now apply Forall_inv_tail in V2.
      * rewrite <- V3. f_equal. f_equal. f_equal. lia.
    + rewrite <- Hz. f_equal. lia.
Qed.

(** The target of the harness answers for every name it can read. *)
Lemma harness_answers_getenv (name : list Z) :
  (List.length name < 64)%nat ->
  answers_getenv Harness.oracle0
    (Harness.their_libc_base + Harness.getenv_offset) name
    (Harness.lookup name Harness.environ) 8.
Proof.
  intros Hlen m H0 H6 H232 Hct H204 Hr0 Hrl Hs Hz.
  change (run Harness.oracle0 m) with (Harness.run_call m).
  unfold Harness.run_call. cbv zeta.
  unfold call_target in Hct. cbv zeta in Hct.
  rewrite H232, H204, Hct, !Z.eqb_refl. cbn [andb fst snd regs mem].
  rewrite (string_at_string_in name 64 (mem m) (rdi (regs m)))
    by assumption.
  split; [reflexivity|]. split; [reflexivity|]. split; [reflexivity|].
  intros a Ha. apply store8_outside. unfold below_stack in Ha. lia.
Qed.

(** The theorem at work: the 257 bytes of [LONGVAR] come out whole. *)
Lemma set_variable_is_printed_witness :
  let res := getenv_process Harness.oracle0 100 Harness.target_pid
               (bytes "LONGVAR") Harness.world0 in
  fst res = Val 0 /\
  out (snd res) = Harness.long_bytes ++ [10] /\
  List.length Harness.long_bytes = 257%nat.
Proof.
  assert (Epage : scratch_page Harness.oracle0 Harness.world0 = Harness.page)
    by (vm_compute; reflexivity).
  destruct (set_variable_is_printed Harness.oracle0 100 Harness.target_pid
              (bytes "LONGVAR") Harness.world0
              Harness.their_libc_base Harness.our_libc_base
              Harness.long_value 8 Harness.long_bytes)
    as (A & B & _).
  - reflexivity.
  - reflexivity.
  - lia.
  - vm_compute. reflexivity.
  - apply Forall_forall. intros b Hb. vm_compute in Hb.
    repeat (destruct Hb as [<- | Hb]; [lia|]). destruct Hb.
  - vm_compute. split; discriminate.
  - rewrite Epage. reflexivity.
  - rewrite Epage. left. vm_compute. discriminate.
  - vm_compute. reflexivity.
  - vm_compute. reflexivity.
  - vm_compute. split; discriminate.
  - apply (harness_answers_getenv (until_nul (bytes "LONGVAR"))).
    vm_compute. lia.
  - intros k Hk. unfold below_stack.
    change (rsp (regs (target Harness.world0))) with 140724603453312.
    change (rip (regs (target Harness.world0))) with 4198400.
    wrap_lia.
  - discriminate.
  - apply string_in_checked; vm_compute; reflexivity.
  - intros k Hk. unfold untouched, below_stack. rewrite Epage.
    change (rsp (regs (target Harness.world0))) with 140724603453312.
    change (rip (regs (target Harness.world0))) with 4198400.
    change (List.length Harness.long_bytes) with 257%nat in Hk.
    unfold Harness.page, Harness.long_value, PAGE_SIZE.
    repeat split; wrap_lia.
  - vm_compute. reflexivity.
  - vm_compute. lia.
  - split; [exact A|]. split; [exact B | reflexivity].
Defined.
